(** * Symbol resolution of the ELF linker (SymbolTable.cpp)

    A shallow embedding of the symbol table of the linker: the name index,
    the per-name symbols with their bodies, the input-file registry and the
    insertion operations ([addUndefined], [addRegular], [addCommon],
    [addShared], [addLazyArchive], ...), followed by the properties the
    specification states about them.

    Conventions of the embedding.
    - A [Symbol *] is represented by the name under which the symbol was
      created: the name index maps every name to one heap symbol that never
      moves, so the key identifies the object.  [SymVector] keeps the
      creation order.
    - A pointer to an input file carries the immutable identity of the file
      (its class, its name, the archive it came from) together with its
      position in the registry that owns it; the mutable parts of a file
      (the [IsUsed] flag of a DSO, the members of an archive that were
      already extracted) live in the registry.
    - Fixed-width integers are [Z]; the only places where the source
      narrows a value are written out ([StOther & 3], the 2-bit
      [Visibility] field, the 16-bit version id).
    - The functions run in a state-and-failure monad over the table.  A
      read through a pointer that does not designate an object (a null
      section, a symbol whose body was never constructed, a file that is
      not in the registry) is [Crash]; [OutOfFuel] is only produced by the
      bound on nested file loads. *)

From Stdlib Require Import ZArith Lia Ascii String List Bool.
From Stdlib Require OrderedTypeEx.
From stdpp Require Import base option list gmap strings.

Local Open Scope string_scope.
Local Open Scope list_scope.
Local Open Scope Z_scope.

(** ** ELF constants used by the table *)

Module ELF.

Definition STB_LOCAL : Z := 0.
Definition STB_GLOBAL : Z := 1.
Definition STB_WEAK : Z := 2.

Definition STV_DEFAULT : Z := 0.
Definition STV_INTERNAL : Z := 1.
Definition STV_HIDDEN : Z := 2.
Definition STV_PROTECTED : Z := 3.

Definition STT_NOTYPE : Z := 0.
Definition STT_TLS : Z := 6.

Definition VERSYM_HIDDEN : Z := 0x8000.

(** [Elf_Sym]: the fields of a symbol-table entry the table reads. *)
Record Elf_Sym := mkElfSym {
  st_info : Z;
  st_other : Z;
  st_value : Z;
  st_size : Z
}.

Definition getBinding (Sym : Elf_Sym) : Z := Z.shiftr (st_info Sym) 4.
Definition getType (Sym : Elf_Sym) : Z := Z.land (st_info Sym) 0x0f.
Definition getVisibility (Sym : Elf_Sym) : Z := Z.land (st_other Sym) 0x3.

End ELF.
Import ELF.

(** ** StringRef operations *)

Module StringRef.

(** [Name.find(C)]: position of the first occurrence, [None] for [npos]. *)
Fixpoint find (C : ascii) (Str : string) : option nat :=
  match Str with
  | EmptyString => None
  | String c rest =>
      if Ascii.eqb c C then Some O
      else match find C rest with
           | Some i => Some (S i)
           | None => None
           end
  end.

(** [S.drop_front(N)]. *)
Fixpoint drop_front (N : nat) (Str : string) : string :=
  match N, Str with
  | O, _ => Str
  | S n, EmptyString => EmptyString
  | S n, String _ rest => drop_front n rest
  end.

(** [S.startswith(Prefix)]. *)
Definition startswith (Prefix Str : string) : bool := String.prefix Prefix Str.

Definition empty (Str : string) : bool :=
  match Str with EmptyString => true | _ => false end.

(** [Pattern.find_first_of(Chars) != npos]. *)
Fixpoint contains_any (Chars Str : string) : bool :=
  match Str with
  | EmptyString => false
  | String c rest =>
      match find c Chars with
      | Some _ => true
      | None => contains_any Chars rest
      end
  end.

End StringRef.

(** ** Input files as the table sees them *)

Inductive FileKind :=
  | ObjectKind | SharedKind | ArchiveKind | LazyObjectKind | BitcodeKind.

#[global] Instance FileKind_eq_dec : EqDecision FileKind.
Proof. solve_decision. Defined.

(** An [InputFile *]. *)
Record FilePtr := mkFilePtr {
  fp_kind : FileKind;
  fp_index : nat;
  fp_name : string;
  fp_archive : string
}.

(** An [InputSectionBase *] that is not null: the section and its file. *)
Record InputSection := mkInputSection {
  sec_file : FilePtr;
  sec_index : nat
}.

(** The contents of a memory buffer. *)
Definition MemoryBufferRef := list Byte.byte.

(** [llvm::object::Archive::Symbol]: a name of the archive's index with the
    member it designates (the offset and the contents of the child). *)
Record ArchiveSymbol := mkArchiveSymbol {
  as_name : string;
  as_offset : Z;
  as_buffer : MemoryBufferRef
}.

(** ** Symbol bodies

    Modelled from the spec: the class hierarchy of Symbols.h is not part of
    the sources; the bodies are the kinds of section 3 of the
    specification (one constructor per kind, with the fields the table
    passes to [replaceBody]). *)
Inductive SymbolBody :=
  | Undefined (Name : string) (StOther Type_ : Z) (File : option FilePtr)
  | DefinedRegular (Name : string) (StOther Type_ : Z) (Value Size : Z)
      (Section : option InputSection)
  | DefinedCommon (Name : string) (Size Alignment : Z) (StOther Type_ : Z)
  | DefinedSynthetic (Name : string) (Value : Z) (Section : nat)
  | SharedSymbol (File : FilePtr) (Name : string) (Sym : Elf_Sym)
      (Verdef : option Z)
  | DefinedBitcode (Name : string) (StOther Type_ : Z) (File : FilePtr)
  | LazyArchive (File : FilePtr) (Sym : ArchiveSymbol) (Type_ : Z)
  | LazyObject (Name : string) (File : FilePtr) (Type_ : Z).

Module Body.

Definition UnknownType : Z := 255.

Definition getName (B : SymbolBody) : string :=
  match B with
  | Undefined N _ _ _ | DefinedRegular N _ _ _ _ _ | DefinedCommon N _ _ _ _
  | DefinedSynthetic N _ _ | SharedSymbol _ N _ _ | DefinedBitcode N _ _ _
  | LazyObject N _ _ => N
  | LazyArchive _ Sym _ => as_name Sym
  end.

Definition Type_ (B : SymbolBody) : Z :=
  match B with
  | Undefined _ _ T _ | DefinedRegular _ _ T _ _ _ | DefinedCommon _ _ _ _ T
  | DefinedBitcode _ _ T _ | LazyArchive _ _ T | LazyObject _ _ T => T
  | DefinedSynthetic _ _ _ => 0
  | SharedSymbol _ _ Sym _ => getType Sym
  end.

Definition isUndefined (B : SymbolBody) : bool :=
  match B with Undefined _ _ _ _ => true | _ => false end.

Definition isLazy (B : SymbolBody) : bool :=
  match B with LazyArchive _ _ _ | LazyObject _ _ _ => true | _ => false end.

Definition isShared (B : SymbolBody) : bool :=
  match B with SharedSymbol _ _ _ _ => true | _ => false end.

Definition isCommon (B : SymbolBody) : bool :=
  match B with DefinedCommon _ _ _ _ _ => true | _ => false end.

Definition isDefined (B : SymbolBody) : bool :=
  match B with
  | DefinedRegular _ _ _ _ _ _ | SharedSymbol _ _ _ _ | DefinedCommon _ _ _ _ _
  | DefinedBitcode _ _ _ _ | DefinedSynthetic _ _ _ => true
  | _ => false
  end.

Definition isTls (B : SymbolBody) : bool := Z.eqb (Type_ B) STT_TLS.

(** [L->Type = T] on a lazy body. *)
Definition setLazyType (T : Z) (B : SymbolBody) : SymbolBody :=
  match B with
  | LazyArchive F Sym _ => LazyArchive F Sym T
  | LazyObject N F _ => LazyObject N F T
  | _ => B
  end.

(** [getSourceFile]: the file a body was read from, if it records one. *)
Definition getSourceFile (B : SymbolBody) : option FilePtr :=
  match B with
  | DefinedRegular _ _ _ _ _ (Some Sec) => Some (sec_file Sec)
  | SharedSymbol F _ _ _ => Some F
  | DefinedBitcode _ _ _ F => Some F
  | Undefined _ _ _ F => F
  | _ => None
  end.

End Body.

(** [DefinedRegular(Name, Sym, Section)]. *)
Definition mkDefinedRegular (Name : string) (Sym : Elf_Sym)
    (Section : option InputSection) : SymbolBody :=
  DefinedRegular Name (st_other Sym) (getType Sym) (st_value Sym) (st_size Sym)
    Section.

(** [DefinedRegular(Name, StOther)]: an absolute symbol. *)
Definition mkDefinedAbsolute (Name : string) (StOther : Z) : SymbolBody :=
  DefinedRegular Name StOther STT_NOTYPE 0 0 None.

(** ** Symbols *)

Record Symbol := mkSymbol {
  Binding : Z;
  VersionId : Z;
  Visibility : Z;
  IsUsedInRegularObj : bool;
  ExportDynamic : bool;
  VersionedName : bool;
  Body : option SymbolBody
}.

Definition set_Binding (b : Z) (S : Symbol) : Symbol :=
  mkSymbol b (VersionId S) (Visibility S) (IsUsedInRegularObj S)
    (ExportDynamic S) (VersionedName S) (Body S).
Definition set_VersionId (v : Z) (S : Symbol) : Symbol :=
  mkSymbol (Binding S) v (Visibility S) (IsUsedInRegularObj S)
    (ExportDynamic S) (VersionedName S) (Body S).
(** The field is two bits wide. *)
Definition set_Visibility (v : Z) (S : Symbol) : Symbol :=
  mkSymbol (Binding S) (VersionId S) (Z.land v 3) (IsUsedInRegularObj S)
    (ExportDynamic S) (VersionedName S) (Body S).
Definition set_IsUsedInRegularObj (b : bool) (S : Symbol) : Symbol :=
  mkSymbol (Binding S) (VersionId S) (Visibility S) b
    (ExportDynamic S) (VersionedName S) (Body S).
Definition set_ExportDynamic (b : bool) (S : Symbol) : Symbol :=
  mkSymbol (Binding S) (VersionId S) (Visibility S) (IsUsedInRegularObj S)
    b (VersionedName S) (Body S).
Definition set_Body (B : option SymbolBody) (S : Symbol) : Symbol :=
  mkSymbol (Binding S) (VersionId S) (Visibility S) (IsUsedInRegularObj S)
    (ExportDynamic S) (VersionedName S) B.

(** [replaceBody<T>(S, ...)]: constructs the new body in place. *)
Definition replaceBody (B : SymbolBody) (S : Symbol) : Symbol :=
  set_Body (Some B) S.

Definition isWeak (S : Symbol) : bool := Z.eqb (Binding S) STB_WEAK.

(** ** Input files

    Modelled from the spec: the per-format parsers (InputFiles.cpp) are not
    part of the sources.  Following section 6 of the specification a parsed
    file is the sequence of symbol records it delivers to the table; an
    archive exposes its index and [getMember], a DSO its soname and its
    undefined symbols, a lazy object its buffer. *)

Inductive ObjRecord :=
  | RecUndefined (Name : string) (Binding StOther Type_ : Z)
  | RecRegular (Name : string) (Sym : Elf_Sym) (Section : option nat)
  | RecCommon (Name : string) (Size Alignment Binding StOther Type_ : Z).

Inductive BitcodeRecord :=
  | BcUndefined (Name : string) (Binding StOther Type_ : Z)
      (CanOmitFromDynSym : bool)
  | BcCommon (Name : string) (Size Alignment Binding StOther Type_ : Z)
  | BcDefined (Name : string) (IsWeak : bool) (StOther Type_ : Z)
      (CanOmitFromDynSym : bool).

Record ObjectFile := mkObjectFile {
  obj_name : string;
  obj_archive : string;
  obj_ekind : Z;
  obj_emachine : Z;
  obj_records : list ObjRecord
}.

Record BitcodeFile := mkBitcodeFile {
  bc_name : string;
  bc_archive : string;
  bc_records : list BitcodeRecord
}.

Record SharedFile := mkSharedFile {
  so_name : string;
  so_ekind : Z;
  so_emachine : Z;
  SoName : string;
  so_records : list (string * Elf_Sym * option Z);
  so_undefined : list string;
  IsUsed : bool
}.

Definition set_IsUsed (b : bool) (F : SharedFile) : SharedFile :=
  mkSharedFile (so_name F) (so_ekind F) (so_emachine F) (SoName F)
    (so_records F) (so_undefined F) b.

(** [Seen]: the offsets of the members already handed out by [getMember]. *)
Record ArchiveFile := mkArchiveFile {
  ar_name : string;
  ar_symbols : list ArchiveSymbol;
  Seen : list Z
}.

Record LazyObjectFile := mkLazyObjectFile {
  lo_name : string;
  lo_buffer : MemoryBufferRef;
  lo_symbols : list string;
  lo_seen : bool
}.

Inductive InputFile :=
  | ArchiveF (F : ArchiveFile)
  | LazyObjectF (F : LazyObjectFile)
  | SharedF (F : SharedFile)
  | BitcodeF (F : BitcodeFile)
  | ObjectF (F : ObjectFile).

(** ** Configuration and collaborators *)

Record Version := mkVersion {
  VName : string;
  Globals : list string
}.

Module Config.
Record t := mk {
  Shared : bool;
  ExportDynamic : bool;
  WarnCommon : bool;
  AllowMultipleDefinition : bool;
  VersionScriptGlobalByDefault : bool;
  NoUndefinedVersion : bool;
  Trace : bool;
  EKind : Z;
  EMachine : Z;
  Emulation : string;
  FirstElf : option FilePtr;
  SymbolVersions : list Version;
  VersionScriptGlobals : list string
}.
End Config.

(** The context every entry point runs in: the configuration object and the
    collaborators the table calls but does not define.  [VER_NDX_LOCAL] and
    [VER_NDX_GLOBAL] are constants of a header that is not part of the
    sources. *)
Record Env := mkEnv {
  Config : Config.t;
  VER_NDX_LOCAL : Z;
  VER_NDX_GLOBAL : Z;
  demangle : string -> string;
  getFilename : option FilePtr -> string;
  createObjectFile : MemoryBufferRef -> string -> InputFile;
  getMember : ArchiveFile -> ArchiveSymbol -> MemoryBufferRef * ArchiveFile;
  getBuffer : LazyObjectFile -> MemoryBufferRef * LazyObjectFile;
  globMatch : string -> string -> bool
}.

(** ** The symbol table *)

Inductive Diagnostic :=
  | Error (Msg : string)
  | Warning (Msg : string)
  | Output (Msg : string).

Record SymbolTable := mkSymbolTable {
  Symtab : gmap string Symbol;
  SymVector : list string;
  SoNames : gset string;
  ArchiveFiles : list ArchiveFile;
  LazyObjectFiles : list LazyObjectFile;
  SharedFiles : list SharedFile;
  BitcodeFiles : list BitcodeFile;
  ObjectFiles : list ObjectFile;
  Diagnostics : list Diagnostic
}.

Definition emptyTable : SymbolTable :=
  mkSymbolTable ∅ [] ∅ [] [] [] [] [] [].

Definition with_Symtab (f : gmap string Symbol -> gmap string Symbol)
    (st : SymbolTable) : SymbolTable :=
  mkSymbolTable (f (Symtab st)) (SymVector st) (SoNames st) (ArchiveFiles st)
    (LazyObjectFiles st) (SharedFiles st) (BitcodeFiles st) (ObjectFiles st)
    (Diagnostics st).
Definition with_SymVector (f : list string -> list string)
    (st : SymbolTable) : SymbolTable :=
  mkSymbolTable (Symtab st) (f (SymVector st)) (SoNames st) (ArchiveFiles st)
    (LazyObjectFiles st) (SharedFiles st) (BitcodeFiles st) (ObjectFiles st)
    (Diagnostics st).
Definition with_SoNames (f : gset string -> gset string)
    (st : SymbolTable) : SymbolTable :=
  mkSymbolTable (Symtab st) (SymVector st) (f (SoNames st)) (ArchiveFiles st)
    (LazyObjectFiles st) (SharedFiles st) (BitcodeFiles st) (ObjectFiles st)
    (Diagnostics st).
Definition with_ArchiveFiles (f : list ArchiveFile -> list ArchiveFile)
    (st : SymbolTable) : SymbolTable :=
  mkSymbolTable (Symtab st) (SymVector st) (SoNames st) (f (ArchiveFiles st))
    (LazyObjectFiles st) (SharedFiles st) (BitcodeFiles st) (ObjectFiles st)
    (Diagnostics st).
Definition with_LazyObjectFiles
    (f : list LazyObjectFile -> list LazyObjectFile)
    (st : SymbolTable) : SymbolTable :=
  mkSymbolTable (Symtab st) (SymVector st) (SoNames st) (ArchiveFiles st)
    (f (LazyObjectFiles st)) (SharedFiles st) (BitcodeFiles st)
    (ObjectFiles st) (Diagnostics st).
Definition with_SharedFiles (f : list SharedFile -> list SharedFile)
    (st : SymbolTable) : SymbolTable :=
  mkSymbolTable (Symtab st) (SymVector st) (SoNames st) (ArchiveFiles st)
    (LazyObjectFiles st) (f (SharedFiles st)) (BitcodeFiles st)
    (ObjectFiles st) (Diagnostics st).
Definition with_BitcodeFiles (f : list BitcodeFile -> list BitcodeFile)
    (st : SymbolTable) : SymbolTable :=
  mkSymbolTable (Symtab st) (SymVector st) (SoNames st) (ArchiveFiles st)
    (LazyObjectFiles st) (SharedFiles st) (f (BitcodeFiles st))
    (ObjectFiles st) (Diagnostics st).
Definition with_ObjectFiles (f : list ObjectFile -> list ObjectFile)
    (st : SymbolTable) : SymbolTable :=
  mkSymbolTable (Symtab st) (SymVector st) (SoNames st) (ArchiveFiles st)
    (LazyObjectFiles st) (SharedFiles st) (BitcodeFiles st)
    (f (ObjectFiles st)) (Diagnostics st).
Definition with_Diagnostics (f : list Diagnostic -> list Diagnostic)
    (st : SymbolTable) : SymbolTable :=
  mkSymbolTable (Symtab st) (SymVector st) (SoNames st) (ArchiveFiles st)
    (LazyObjectFiles st) (SharedFiles st) (BitcodeFiles st) (ObjectFiles st)
    (f (Diagnostics st)).

(** ** The monad of the table operations *)

Inductive Outcome (A : Type) :=
  | Done (a : A)
  | Crash
  | OutOfFuel.
Arguments Done {A} a.
Arguments Crash {A}.
Arguments OutOfFuel {A}.

Definition M (A : Type) : Type := SymbolTable -> Outcome (A * SymbolTable).

Definition ret {A} (a : A) : M A := fun st => Done (a, st).

Definition bind {A B} (m : M A) (k : A -> M B) : M B :=
  fun st =>
    match m st with
    | Done (a, st') => k a st'
    | Crash => Crash
    | OutOfFuel => OutOfFuel
    end.

Declare Scope table_scope.
Delimit Scope table_scope with table.
Notation "x <- m ;; k" := (bind m (fun x => k))
  (at level 100, m at next level, right associativity) : table_scope.
Notation "m ;; k" := (bind m (fun _ => k))
  (at level 100, right associativity) : table_scope.
Local Open Scope table_scope.

Definition crash {A} : M A := fun _ => Crash.
Definition get : M SymbolTable := fun st => Done (st, st).
Definition modify (f : SymbolTable -> SymbolTable) : M unit :=
  fun st => Done (tt, f st).
Definition when (b : bool) (m : M unit) : M unit := if b then m else ret tt.

(** Reads of the option-valued places. *)
Definition deref {A} (o : option A) : M A :=
  match o with Some a => ret a | None => crash end.

Fixpoint forEach {A} (f : A -> M unit) (l : list A) : M unit :=
  match l with
  | [] => ret tt
  | x :: rest => f x ;; forEach f rest
  end.

(** The diagnostic sink. *)
Definition error (Msg : string) : M unit :=
  modify (with_Diagnostics (fun d => d ++ [Error Msg])).
Definition warning (Msg : string) : M unit :=
  modify (with_Diagnostics (fun d => d ++ [Warning Msg])).
Definition outs (Msg : string) : M unit :=
  modify (with_Diagnostics (fun d => d ++ [Output Msg])).

(** [*S] and [S->body()] for a symbol pointer [S]. *)
Definition getSymbol (S : string) : M Symbol :=
  st <- get ;; deref (Symtab st !! S).
Definition body (S : string) : M SymbolBody :=
  Sym <- getSymbol S ;; deref (Body Sym).
(** A write to fields of [*S]. *)
Definition modifySymbol (S : string) (f : Symbol -> Symbol) : M unit :=
  modify (with_Symtab (alter f S)).

(** ** SymbolTable.cpp *)

Definition uint16 (z : Z) : Z := z mod 65536.

Definition getMinVisibility (VA VB : Z) : Z :=
  if VA =? STV_DEFAULT then VB
  else if VB =? STV_DEFAULT then VA
  else Z.min VA VB.

(** The loop of [getVersionId] over [Config->SymbolVersions], with its
    counter [I] (here [Idx]). *)
Fixpoint findVersion (Ver : string) (Vs : list Version) (Idx : Z)
    : option Z :=
  match Vs with
  | [] => None
  | V :: rest =>
      if String.eqb (VName V) Ver then Some Idx
      else findVersion Ver rest (Idx + 1)
  end.

Section Engine.

Variable E : Env.

Local Abbreviation Cfg := (Config E).

Definition isCompatible (File : InputFile) : M bool :=
  let check (Name : string) (EKind EMachine : Z) : M bool :=
    if (EKind =? Config.EKind Cfg) && (EMachine =? Config.EMachine Cfg)
    then ret true
    else
      B <- (if StringRef.empty (Config.Emulation Cfg)
            then F <- deref (Config.FirstElf Cfg) ;; ret (fp_name F)
            else ret (Config.Emulation Cfg)) ;;
      error (Name +:+ " is incompatible with " +:+ B) ;;
      ret false in
  match File with
  | ObjectF F => check (obj_name F) (obj_ekind F) (obj_emachine F)
  | SharedF F => check (so_name F) (so_ekind F) (so_emachine F)
  | _ => ret true
  end.

Definition getVersionId (Name : string) : M Z :=
  match StringRef.find "@"%char Name with
  | None =>
      ret (uint16 (if Config.VersionScriptGlobalByDefault Cfg
                   then VER_NDX_GLOBAL E else VER_NDX_LOCAL E))
  | Some VersionBegin =>
      let Version := StringRef.drop_front (VersionBegin + 1) Name in
      let Default := StringRef.startswith "@" Version in
      let Version :=
        if Default then StringRef.drop_front 1 Version else Version in
      match findVersion Version (Config.SymbolVersions Cfg) 2 with
      | Some Idx =>
          ret (uint16 (if Default then Idx else Z.lor Idx VERSYM_HIDDEN))
      | None =>
          error ("symbol " +:+ Name +:+ " has undefined version " +:+ Version) ;;
          ret 0
      end
  end.

(** Find an existing symbol or create and insert a new one. *)
Definition insert (Name : string) : M (string * bool) :=
  st <- get ;;
  match Symtab st !! Name with
  | None =>
      V <- getVersionId Name ;;
      let Sym :=
        mkSymbol STB_WEAK V STV_DEFAULT false false
          (negb (V =? VER_NDX_LOCAL E) && negb (V =? VER_NDX_GLOBAL E))
          None in
      modify (with_Symtab (fun m => <[Name := Sym]> m)) ;;
      modify (with_SymVector (fun v => v ++ [Name])) ;;
      ret (Name, true)
  | Some _ => ret (Name, false)
  end.

Definition conflictMsg (Existing : SymbolBody) (NewFile : option FilePtr)
    : string :=
  demangle E (Body.getName Existing) +:+ " in " +:+
  getFilename E (Body.getSourceFile Existing) +:+ " and " +:+
  getFilename E NewFile.

(** Find an existing symbol or create and insert a new one, then apply the
    given attributes. *)
Definition insertWith (Name : string) (Type_ Visibility_ : Z)
    (CanOmitFromDynSym IsUsedInRegularObj_ : bool) (File : option FilePtr)
    : M (string * bool) :=
  p <- insert Name ;;
  let S := p.1 in
  let WasInserted := p.2 in
  Sym <- getSymbol S ;;
  modifySymbol S (set_Visibility (getMinVisibility (Visibility Sym) Visibility_)) ;;
  when (negb CanOmitFromDynSym &&
        (Config.Shared Cfg || Config.ExportDynamic Cfg))
    (modifySymbol S (set_ExportDynamic true)) ;;
  when IsUsedInRegularObj_ (modifySymbol S (set_IsUsedInRegularObj true)) ;;
  (if WasInserted then ret tt
   else
     B <- body S ;;
     when (negb (Body.Type_ B =? Body.UnknownType) &&
           negb (Bool.eqb (Type_ =? STT_TLS) (Body.isTls B)))
       (error ("TLS attribute mismatch for symbol: " +:+ conflictMsg B File))) ;;
  ret (S, WasInserted).

(** We have a new defined symbol with the specified binding. Return 1 if the
    new symbol should win, -1 if the new symbol should lose, or 0 if both
    symbols are strong defined symbols. *)
Definition compareDefined (S : string) (WasInserted : bool) (Binding_ : Z)
    : M Z :=
  if WasInserted then ret 1
  else
    B <- body S ;;
    if Body.isLazy B || Body.isUndefined B || Body.isShared B then ret 1
    else if Binding_ =? STB_WEAK then ret (-1)
    else
      Sym <- getSymbol S ;;
      if isWeak Sym then ret 1 else ret 0.

(** We have a new non-common defined symbol with the specified binding.
    Return 1 if the new symbol should win, -1 if the new symbol should lose,
    or 0 if there is a conflict. If the new symbol wins, also update the
    binding. *)
Definition compareDefinedNonCommon (S : string) (WasInserted : bool)
    (Binding_ : Z) : M Z :=
  Cmp <- compareDefined S WasInserted Binding_ ;;
  if negb (Cmp =? 0) then
    when (Cmp >? 0) (modifySymbol S (set_Binding Binding_)) ;;
    ret Cmp
  else
    B <- body S ;;
    if Body.isCommon B then
      (* Non-common symbols take precedence over common symbols. *)
      when (Config.WarnCommon Cfg)
        (warning ("common " +:+ Body.getName B +:+ " is overridden")) ;;
      ret 1
    else ret 0.

Definition addCommon (N : string) (Size Alignment Binding_ StOther Type_ : Z)
    (File : option FilePtr) : M string :=
  p <- insertWith N Type_ (Z.land StOther 3) false true File ;;
  let S := p.1 in
  let WasInserted := p.2 in
  Cmp <- compareDefined S WasInserted Binding_ ;;
  if Cmp >? 0 then
    modifySymbol S (set_Binding Binding_) ;;
    modifySymbol S (replaceBody (DefinedCommon N Size Alignment StOther Type_)) ;;
    ret S
  else if Cmp =? 0 then
    B <- body S ;;
    match B with
    | DefinedCommon CN CSize CAlignment CStOther CType =>
        when (Config.WarnCommon Cfg)
          (warning ("multiple common of " +:+ Body.getName B)) ;;
        modifySymbol S
          (set_Body (Some (DefinedCommon CN (Z.max CSize Size)
                             (Z.max CAlignment Alignment) CStOther CType))) ;;
        ret S
    | _ =>
        (* Non-common symbols take precedence over common symbols. *)
        when (Config.WarnCommon Cfg)
          (warning ("common " +:+ Body.getName B +:+ " is overridden")) ;;
        ret S
    end
  else ret S.

Definition reportDuplicate (Existing : SymbolBody) (NewFile : option FilePtr)
    : M unit :=
  let Msg := "duplicate symbol: " +:+ conflictMsg Existing NewFile in
  if Config.AllowMultipleDefinition Cfg then warning Msg else error Msg.

(** [Section->getFile()]; the section pointer may be null. *)
Definition Section_getFile (Section : option InputSection) : M FilePtr :=
  Sec <- deref Section ;; ret (sec_file Sec).

(** [addRegular(Name, Sym, Section)]. *)
Definition addRegular (Name : string) (Sym : Elf_Sym)
    (Section : option InputSection) : M string :=
  p <- insertWith Name (getType Sym) (getVisibility Sym) false true
         (match Section with Some Sec => Some (sec_file Sec) | None => None end) ;;
  let S := p.1 in
  let WasInserted := p.2 in
  Cmp <- compareDefinedNonCommon S WasInserted (getBinding Sym) ;;
  (if Cmp >? 0 then
     modifySymbol S (replaceBody (mkDefinedRegular Name Sym Section))
   else if Cmp =? 0 then
     B <- body S ;;
     F <- Section_getFile Section ;;
     reportDuplicate B (Some F)
   else ret tt) ;;
  ret S.

(** [addRegular(Name, Binding, StOther)]. *)
Definition addRegularAbsolute (Name : string) (Binding_ StOther : Z)
    : M string :=
  p <- insertWith Name STT_NOTYPE (Z.land StOther 3) false true None ;;
  let S := p.1 in
  let WasInserted := p.2 in
  Cmp <- compareDefinedNonCommon S WasInserted Binding_ ;;
  (if Cmp >? 0 then
     modifySymbol S (replaceBody (mkDefinedAbsolute Name StOther))
   else if Cmp =? 0 then
     B <- body S ;;
     reportDuplicate B None
   else ret tt) ;;
  ret S.

Definition addSynthetic (N : string) (Section : nat) (Value : Z) : M string :=
  p <- insertWith N STT_NOTYPE STV_HIDDEN false true None ;;
  let S := p.1 in
  let WasInserted := p.2 in
  Cmp <- compareDefinedNonCommon S WasInserted STB_GLOBAL ;;
  (if Cmp >? 0 then
     modifySymbol S (replaceBody (DefinedSynthetic N Value Section))
   else if Cmp =? 0 then
     B <- body S ;;
     reportDuplicate B None
   else ret tt) ;;
  ret S.

(** [F->IsUsed = true] for a DSO [F] of the registry. *)
Definition markUsed (F : FilePtr) : M unit :=
  st <- get ;;
  File <- deref (SharedFiles st !! fp_index F) ;;
  modify (with_SharedFiles (fun l => <[fp_index F := set_IsUsed true File]> l)).

Definition addShared (F : FilePtr) (Name : string) (Sym : Elf_Sym)
    (Verdef : option Z) : M unit :=
  (* DSO symbols do not affect visibility in the output, so we pass
     STV_DEFAULT as the visibility, which will leave the visibility in the
     symbol table unchanged. *)
  p <- insertWith Name (getType Sym) STV_DEFAULT true false (Some F) ;;
  let S := p.1 in
  let WasInserted := p.2 in
  (* Make sure we preempt DSO symbols with default visibility. *)
  when (getVisibility Sym =? STV_DEFAULT)
    (modifySymbol S (set_ExportDynamic true)) ;;
  replace <- (if WasInserted then ret true
              else B <- body S ;; ret (Body.isUndefined B)) ;;
  if replace : bool then
    modifySymbol S (replaceBody (SharedSymbol F Name Sym Verdef)) ;;
    Sy <- getSymbol S ;;
    when (negb (isWeak Sy)) (markUsed F)
  else ret tt.

Definition addBitcode (Name : string) (IsWeak : bool) (StOther Type_ : Z)
    (CanOmitFromDynSym : bool) (F : FilePtr) : M string :=
  p <- insertWith Name Type_ (Z.land StOther 3) CanOmitFromDynSym false
         (Some F) ;;
  let S := p.1 in
  let WasInserted := p.2 in
  Cmp <- compareDefinedNonCommon S WasInserted
           (if IsWeak then STB_WEAK else STB_GLOBAL) ;;
  (if Cmp >? 0 then
     modifySymbol S (replaceBody (DefinedBitcode Name StOther Type_ F))
   else if Cmp =? 0 then
     B <- body S ;;
     reportDuplicate B (Some F)
   else ret tt) ;;
  ret S.

(** [find]: the symbol of a name, null when the name is not in the index. *)
Definition find (Name : string) : M (option string) :=
  st <- get ;;
  match Symtab st !! Name with
  | None => ret None
  | Some _ => ret (Some Name)
  end.

(** Returns a list of defined symbols that match with a given glob pattern.
    The order in which the loop meets the entries of the hash table is not
    specified; here it is the order of [map_to_list]. *)
Definition findAll (Pattern : string) : M (list string) :=
  (* Fast-path. Fallback to find() if Pattern doesn't contain any wildcard
     characters. *)
  if negb (StringRef.contains_any "?*" Pattern) then
    B <- find Pattern ;;
    match B with
    | Some Sym =>
        Bd <- body Sym ;;
        if negb (Body.isUndefined Bd) then ret [Sym] else ret []
    | None => ret []
    end
  else
    st <- get ;;
    let fix loop (entries : list (string * Symbol)) : M (list string) :=
      match entries with
      | [] => ret []
      | (Name, Sy) :: rest =>
          Bd <- deref (Body Sy) ;;
          Res <- loop rest ;;
          if negb (Body.isUndefined Bd) && globMatch E Pattern Name
          then ret (Name :: Res) else ret Res
      end in
    loop (map_to_list (Symtab st)).

(** The body of the loop of [scanVersionScript] over the declared versions:
    the globals of one version [V], whose id is the value [Idx] of the
    counter [I]. *)
Definition scanVersion (V : Version) (Idx : Z) : M unit :=
  forEach (fun Name =>
    Syms <- findAll Name ;;
    match Syms with
    | [] =>
        when (Config.NoUndefinedVersion Cfg)
          (error ("version script assignment of " +:+ VName V +:+
                  " to symbol " +:+ Name +:+ " failed: symbol not defined"))
    | _ =>
        forEach (fun B =>
          Sy <- getSymbol B ;;
          when (negb (VersionId Sy =? VER_NDX_GLOBAL E) &&
                negb (VersionId Sy =? VER_NDX_LOCAL E))
            (warning ("duplicate symbol " +:+ Name +:+ " in version script")) ;;
          modifySymbol B (set_VersionId (uint16 Idx))) Syms
    end) (Globals V).

Fixpoint scanVersions (Vs : list Version) (Idx : Z) : M unit :=
  match Vs with
  | [] => ret tt
  | V :: rest => scanVersion V Idx ;; scanVersions rest (Idx + 1)
  end.

(** This function processes the --version-script option by marking all
    global symbols with the VersionScriptGlobal flag, which acts as a filter
    on the dynamic symbol table. *)
Definition scanVersionScript : M unit :=
  (* If version script does not contain versions declarations, we just
     should mark global symbols. *)
  match Config.VersionScriptGlobals Cfg with
  | _ :: _ =>
      forEach (fun Name =>
        B <- find Name ;;
        match B with
        | Some Sy => modifySymbol Sy (set_VersionId (uint16 (VER_NDX_GLOBAL E)))
        | None => ret tt
        end) (Config.VersionScriptGlobals Cfg)
  | [] =>
      (* If we have symbols version declarations, we should assign version
         references for each symbol. *)
      scanVersions (Config.SymbolVersions Cfg) 2
  end.

(** [F->getMember(&Sym)] on an archive of the registry. *)
Definition ArchiveFile_getMember (F : FilePtr) (Sym : ArchiveSymbol)
    : M MemoryBufferRef :=
  st <- get ;;
  Ar <- deref (ArchiveFiles st !! fp_index F) ;;
  let '(MBRef, Ar') := getMember E Ar Sym in
  modify (with_ArchiveFiles (fun l => <[fp_index F := Ar']> l)) ;;
  ret MBRef.

(** [Obj.getBuffer()] on a lazy object of the registry. *)
Definition LazyObjectFile_getBuffer (F : FilePtr) : M MemoryBufferRef :=
  st <- get ;;
  Obj <- deref (LazyObjectFiles st !! fp_index F) ;;
  let '(MBRef, Obj') := getBuffer E Obj in
  modify (with_LazyObjectFiles (fun l => <[fp_index F := Obj']> l)) ;;
  ret MBRef.

Definition isEmpty (MBRef : MemoryBufferRef) : bool :=
  match MBRef with [] => true | _ => false end.

(** Modelled from the spec: [Lazy::getFile] (Symbols.cpp) is not part of the
    sources.  Section 4.2: from a LazyArchive the archive member containing
    the symbol, from a LazyObject the buffered object itself; an empty
    buffer gives no file. *)
Definition Lazy_getFile (L : SymbolBody) : M (option InputFile) :=
  match L with
  | LazyArchive F Sym _ =>
      MBRef <- ArchiveFile_getMember F Sym ;;
      if isEmpty MBRef then ret None
      else ret (Some (createObjectFile E MBRef (fp_name F)))
  | LazyObject _ F _ =>
      MBRef <- LazyObjectFile_getBuffer F ;;
      if isEmpty MBRef then ret None
      else ret (Some (createObjectFile E MBRef ""))
  | _ => crash
  end.

Definition isaBitcodeFile (File : option FilePtr) : bool :=
  match File with
  | Some F => bool_decide (fp_kind F = BitcodeKind)
  | None => false
  end.

Definition isNull {A} (p : option A) : bool :=
  match p with None => true | Some _ => false end.

(** The operations that may load a file take the loader as a parameter;
    [addFile] below closes the recursion. *)
Section Loader.

Variable addFile : InputFile -> M unit.

(** [addUndefined(Name, Binding, StOther, Type, CanOmitFromDynSym, File)]. *)
Definition addUndefined (Name : string) (Binding_ StOther Type_ : Z)
    (CanOmitFromDynSym : bool) (File : option FilePtr) : M string :=
  p <- insertWith Name Type_ (Z.land StOther 3) CanOmitFromDynSym
         (isNull File || negb (isaBitcodeFile File)) File ;;
  let S := p.1 in
  let WasInserted := p.2 in
  if WasInserted then
    modifySymbol S (set_Binding Binding_) ;;
    modifySymbol S (replaceBody (Undefined Name StOther Type_ File)) ;;
    ret S
  else
    (if negb (Binding_ =? STB_WEAK) then
       B <- body S ;;
       when (Body.isShared B || Body.isLazy B)
         (modifySymbol S (set_Binding Binding_)) ;;
       match B with
       | SharedSymbol F _ _ _ => markUsed F
       | _ => ret tt
       end
     else ret tt) ;;
    L <- body S ;;
    (if Body.isLazy L then
       (* An undefined weak will not fetch archive members, but we have to
          remember its type. See also comment in addLazyArchive. *)
       Sym <- getSymbol S ;;
       if isWeak Sym then
         modifySymbol S (set_Body (Some (Body.setLazyType Type_ L)))
       else
         F <- Lazy_getFile L ;;
         match F with
         | Some File => addFile File
         | None => ret tt
         end
     else ret tt) ;;
    ret S.

(** [addUndefined(Name)]. *)
Definition addUndefinedName (Name : string) : M string :=
  addUndefined Name STB_GLOBAL STV_DEFAULT 0 false None.

Definition addLazyArchive (F : FilePtr) (Sym : ArchiveSymbol) : M unit :=
  p <- insert (as_name Sym) ;;
  let S := p.1 in
  let WasInserted := p.2 in
  if WasInserted then
    modifySymbol S (replaceBody (LazyArchive F Sym Body.UnknownType))
  else
    B <- body S ;;
    if negb (Body.isUndefined B) then ret tt
    else
      (* Weak undefined symbols should not fetch members from archives. *)
      Sy <- getSymbol S ;;
      if isWeak Sy then
        modifySymbol S (replaceBody (LazyArchive F Sym (Body.Type_ B)))
      else
        MBRef <- ArchiveFile_getMember F Sym ;;
        if negb (isEmpty MBRef) then
          addFile (createObjectFile E MBRef (fp_name F))
        else ret tt.

Definition addLazyObject (Name : string) (Obj : FilePtr) : M unit :=
  p <- insert Name ;;
  let S := p.1 in
  let WasInserted := p.2 in
  if WasInserted then
    modifySymbol S (replaceBody (LazyObject Name Obj Body.UnknownType))
  else
    B <- body S ;;
    if negb (Body.isUndefined B) then ret tt
    else
      (* See comment for addLazyArchive above. *)
      Sy <- getSymbol S ;;
      if isWeak Sy then
        modifySymbol S (replaceBody (LazyObject Name Obj (Body.Type_ B)))
      else
        MBRef <- LazyObjectFile_getBuffer Obj ;;
        if negb (isEmpty MBRef) then addFile (createObjectFile E MBRef "")
        else ret tt.

(** Rename SYM as __wrap_SYM. The original symbol is preserved as
    __real_SYM. Used to implement --wrap. *)
Definition wrap (Name : string) : M unit :=
  B <- find Name ;;
  match B with
  | None => ret tt
  | Some Sym =>
      Real <- addUndefinedName ("__real_" +:+ Name) ;;
      Wrap <- addUndefinedName ("__wrap_" +:+ Name) ;;
      (* memcpy(Real->Body.buffer, Sym->Body.buffer, sizeof(Sym->Body)) *)
      SymS <- getSymbol Sym ;;
      modifySymbol Real (set_Body (Body SymS)) ;;
      (* memcpy(Sym->Body.buffer, Wrap->Body.buffer, sizeof(Wrap->Body)) *)
      WrapS <- getSymbol Wrap ;;
      modifySymbol Sym (set_Body (Body WrapS))
  end.

(** Modelled from the spec: the [parse] members of the file classes
    (InputFiles.cpp) are not part of the sources.  Section 2, data flow:
    for each symbol record of the file the resolution engine is called with
    the name and the attributes of the record. *)
Definition ObjectFile_parse (this : FilePtr) (F : ObjectFile) : M unit :=
  forEach (fun R =>
    match R with
    | RecUndefined N Bd Ot Ty =>
        addUndefined N Bd Ot Ty false (Some this) ;; ret tt
    | RecRegular N Sym Sec =>
        addRegular N Sym
          (match Sec with
           | Some i => Some (mkInputSection this i)
           | None => None
           end) ;; ret tt
    | RecCommon N Sz Al Bd Ot Ty =>
        addCommon N Sz Al Bd Ot Ty (Some this) ;; ret tt
    end) (obj_records F).

Definition BitcodeFile_parse (this : FilePtr) (F : BitcodeFile) : M unit :=
  forEach (fun R =>
    match R with
    | BcUndefined N Bd Ot Ty Omit =>
        addUndefined N Bd Ot Ty Omit (Some this) ;; ret tt
    | BcCommon N Sz Al Bd Ot Ty =>
        addCommon N Sz Al Bd Ot Ty (Some this) ;; ret tt
    | BcDefined N IsWeak Ot Ty Omit =>
        addBitcode N IsWeak Ot Ty Omit this ;; ret tt
    end) (bc_records F).

Definition SharedFile_parseRest (this : FilePtr) (F : SharedFile) : M unit :=
  forEach (fun R : string * Elf_Sym * option Z =>
    let '(N, Sym, Verdef) := R in addShared this N Sym Verdef)
    (so_records F).

Definition ArchiveFile_parse (this : FilePtr) (F : ArchiveFile) : M unit :=
  forEach (fun Sym => addLazyArchive this Sym) (ar_symbols F).

Definition LazyObjectFile_parse (this : FilePtr) (F : LazyObjectFile)
    : M unit :=
  forEach (fun N => addLazyObject N this) (lo_symbols F).

(** Add symbols in File to the symbol table. *)
Definition addFileBody (File : InputFile) : M unit :=
  ok <- isCompatible File ;;
  if negb ok then ret tt
  else
    st <- get ;;
    match File with
    | ArchiveF F =>
        (* .a file *)
        let this := mkFilePtr ArchiveKind (length (ArchiveFiles st))
                      (ar_name F) "" in
        modify (with_ArchiveFiles (fun l => l ++ [F])) ;;
        ArchiveFile_parse this F
    | LazyObjectF F =>
        (* Lazy object file *)
        let this := mkFilePtr LazyObjectKind (length (LazyObjectFiles st))
                      (lo_name F) "" in
        modify (with_LazyObjectFiles (fun l => l ++ [F])) ;;
        LazyObjectFile_parse this F
    | SharedF F =>
        let this := mkFilePtr SharedKind (length (SharedFiles st))
                      (so_name F) "" in
        when (Config.Trace Cfg) (outs (getFilename E (Some this) +:+ "
")) ;;
        (* .so file: DSOs are uniquified not by filename but by soname. *)
        if bool_decide (SoName F ∈ SoNames st) then ret tt
        else
          modify (with_SoNames (fun s => {[SoName F]} ∪ s)) ;;
          modify (with_SharedFiles (fun l => l ++ [F])) ;;
          SharedFile_parseRest this F
    | BitcodeF F =>
        let this := mkFilePtr BitcodeKind (length (BitcodeFiles st))
                      (bc_name F) (bc_archive F) in
        when (Config.Trace Cfg) (outs (getFilename E (Some this) +:+ "
")) ;;
        (* LLVM bitcode file *)
        modify (with_BitcodeFiles (fun l => l ++ [F])) ;;
        BitcodeFile_parse this F
    | ObjectF F =>
        let this := mkFilePtr ObjectKind (length (ObjectFiles st))
                      (obj_name F) (obj_archive F) in
        when (Config.Trace Cfg) (outs (getFilename E (Some this) +:+ "
")) ;;
        (* Regular object file *)
        modify (with_ObjectFiles (fun l => l ++ [F])) ;;
        ObjectFile_parse this F
    end.

End Loader.

(** [addFile]: the recursion through the lazy loads is bounded by [fuel]. *)
Fixpoint addFile (fuel : nat) (File : InputFile) : M unit :=
  match fuel with
  | O => fun _ => OutOfFuel
  | S n => addFileBody (addFile n) File
  end.

End Engine.

(** ** Sequences of contributions *)

(** A sequence of Common contributions to one name. *)
Record CommonContribution := mkCommonContribution {
  cc_size : Z;
  cc_alignment : Z;
  cc_binding : Z;
  cc_other : Z;
  cc_type : Z;
  cc_file : option FilePtr
}.

Definition addCommons (E : Env) (N : string) (l : list CommonContribution)
    : M unit :=
  forEach (fun c =>
    addCommon E N (cc_size c) (cc_alignment c) (cc_binding c) (cc_other c)
      (cc_type c) (cc_file c) ;; ret tt) l.

(** ** The remaining entry points of SymbolTable.cpp *)

(** Further fields of [Config], read by the passes that run once all the
    files are in the table: the names given with -u, the names of the
    dynamic list, and the names given with -y.  The last is a string set in
    the source, whose iteration order is not specified; here it is the
    order of the list. *)
Module Flags.
Record t := mk {
  Undefined : list string;
  DynamicList : list string;
  TraceSymbol : list string
}.
End Flags.

Section Passes.

Variable E : Env.
Variable Fl : Flags.t.

(** [cast<DefinedRegular<ELFT>>(B)]: the cast asserts the class of the
    body. *)
Definition castDefinedRegular (B : SymbolBody) : M unit :=
  match B with
  | DefinedRegular _ _ _ _ _ _ => ret tt
  | _ => crash
  end.

(** [addAbsolute]: the result points to the body of the symbol, which is
    identified by the symbol. *)
Definition addAbsolute (Name : string) (Visibility_ : Z) : M string :=
  Sym <- addRegularAbsolute E Name STB_GLOBAL Visibility_ ;;
  B <- body Sym ;;
  castDefinedRegular B ;;
  ret Sym.

(** Add Name as an "ignored" symbol. An ignored symbol is a regular
    linker-synthesized defined symbol, but is only defined if needed. *)
Definition addIgnored (Name : string) (Visibility_ : Z) : M (option string) :=
  B <- find Name ;;
  if isNull B then ret None
  else Sym <- addAbsolute Name Visibility_ ;; ret (Some Sym).

(** Process undefined (-u) flags by loading lazy symbols named by those
    flags. *)
Definition scanUndefinedFlags (fuel : nat) : M unit :=
  forEach (fun Name =>
    B <- find Name ;;
    match B with
    | None => ret tt
    | Some Sym =>
        L <- body Sym ;;
        if Body.isLazy L then
          File <- Lazy_getFile E L ;;
          match File with
          | Some F => addFile E fuel F
          | None => ret tt
          end
        else ret tt
    end) (Flags.Undefined Fl).

(** Shared libraries may have undefined symbols, expecting that the user
    program provides the definitions for them.  We need to put such symbols
    to the main program's .dynsym so that shared libraries can find them. *)
Definition scanShlibUndefined : M unit :=
  st <- get ;;
  forEach (fun File =>
    forEach (fun U =>
      B <- find U ;;
      match B with
      | None => ret tt
      | Some Sym =>
          Bd <- body Sym ;;
          when (Body.isDefined Bd) (modifySymbol Sym (set_ExportDynamic true))
      end) (so_undefined File)) (SharedFiles st).

(** This function process the dynamic list option by marking all the
    symbols to be exported in the dynamic table. *)
Definition scanDynamicList : M unit :=
  forEach (fun Name =>
    B <- find Name ;;
    match B with
    | None => ret tt
    | Some Sym => modifySymbol Sym (set_ExportDynamic true)
    end) (Flags.DynamicList Fl).

(** Print the module names which define the notified symbols provided
    through -y or --trace-symbol option. *)
Definition traceDefined : M unit :=
  forEach (fun Symbol_ =>
    B <- find Symbol_ ;;
    match B with
    | None => ret tt
    | Some Sym =>
        Bd <- body Sym ;;
        if Body.isDefined Bd || Body.isCommon Bd then
          match Body.getSourceFile Bd with
          | Some File =>
              outs (getFilename E (Some File) +:+ ": definition of " +:+
                    Body.getName Bd +:+ "
")
          | None => ret tt
          end
        else ret tt
    end) (Flags.TraceSymbol Fl).

End Passes.

(** ** Concrete inputs used by the examples below *)

Module Examples.

Definition cfg : Config.t :=
  Config.mk false false false false true false false 62 1 "" None
    [mkVersion "V1" ["foo*"]; mkVersion "V2" []] [].

Definition cfg_allow : Config.t :=
  Config.mk false false false true true false false 62 1 "" None [] [].

(** "(internal)", "foo.a(bar.o)" or "baz.o". *)
Definition filename (F : option FilePtr) : string :=
  match F with
  | None => "(internal)"
  | Some F =>
      if StringRef.empty (fp_archive F) then fp_name F
      else fp_archive F +:+ "(" +:+ fp_name F +:+ ")"
  end.

(** An archive hands every member out once. *)
Definition member (Ar : ArchiveFile) (Sym : ArchiveSymbol)
    : MemoryBufferRef * ArchiveFile :=
  if bool_decide (as_offset Sym ∈ Seen Ar) then ([], Ar)
  else (as_buffer Sym,
        mkArchiveFile (ar_name Ar) (ar_symbols Ar) (as_offset Sym :: Seen Ar)).

Definition buffer (Obj : LazyObjectFile) : MemoryBufferRef * LazyObjectFile :=
  if lo_seen Obj then ([], Obj)
  else (lo_buffer Obj,
        mkLazyObjectFile (lo_name Obj) (lo_buffer Obj) (lo_symbols Obj) true).

Definition strong : Elf_Sym := mkElfSym 0x10 0 0x20 4.
Definition weak : Elf_Sym := mkElfSym 0x20 0 0x10 4.

(** The parser of the examples: every buffer is an object that defines
    [baz]. *)
Definition parser (MBRef : MemoryBufferRef) (ArchiveName : string)
    : InputFile :=
  ObjectF (mkObjectFile "m.o" ArchiveName 62 1
             [RecRegular "baz" strong (Some O)]).

(** A matcher for the patterns of the examples: [?] for one character and
    a final [*]. *)
Fixpoint glob (Pattern Name : string) : bool :=
  match Pattern, Name with
  | EmptyString, EmptyString => true
  | String "*" EmptyString, _ => true
  | String "?" p, String _ n => glob p n
  | String c p, String d n => Ascii.eqb c d && glob p n
  | _, _ => false
  end.

(** VER_NDX_LOCAL and VER_NDX_GLOBAL have the values of the ELF gABI. *)
Definition env : Env :=
  mkEnv cfg 0 1 (fun s => s) filename parser member buffer glob.

Definition env_allow : Env :=
  mkEnv cfg_allow 0 1 (fun s => s) filename parser member buffer glob.

Definition F1 : FilePtr := mkFilePtr ObjectKind 0 "F1" "".
Definition F2 : FilePtr := mkFilePtr ObjectKind 1 "F2" "".
Definition sec1 : InputSection := mkInputSection F1 0.
Definition sec2 : InputSection := mkInputSection F2 0.

Definition libz (Path : string) : SharedFile :=
  mkSharedFile Path 62 1 "libz.so.1" [("deflate", strong, None)] [] false.
Definition DSO : FilePtr := mkFilePtr SharedKind 0 "libz.so" "".

Definition archive : ArchiveFile :=
  mkArchiveFile "liba.a"
    [mkArchiveSymbol "baz" 8 [Byte.x7f]; mkArchiveSymbol "qux" 64 []] [].
Definition AR : FilePtr := mkFilePtr ArchiveKind 0 "liba.a" "".

(** The table after a list of operations, started from the empty table. *)
Definition after {A} (m : M A) : SymbolTable :=
  match m emptyTable with
  | Done (_, st) => st
  | _ => emptyTable
  end.

(** The symbol the examples find in the index: global by default, default
    visibility, not versioned. *)
Definition symbol (Binding_ : Z) (Used Exported : bool) (B : SymbolBody)
    : Symbol :=
  mkSymbol Binding_ 1 STV_DEFAULT Used Exported false (Some B).

(** [foo] defined by F1. *)
Definition fooTable : SymbolTable :=
  after (addRegular env "foo" strong (Some sec1)).
Definition fooSymbol : Symbol :=
  symbol STB_GLOBAL true false (mkDefinedRegular "foo" strong (Some sec1)).

(** A hidden absolute [deflate]. *)
Definition hiddenTable : SymbolTable :=
  after (addRegularAbsolute env "deflate" STB_GLOBAL STV_HIDDEN).
Definition hiddenSymbol : Symbol :=
  mkSymbol STB_GLOBAL 1 STV_HIDDEN true false false
    (Some (mkDefinedAbsolute "deflate" STV_HIDDEN)).

(** [deflate] provided by the DSO. *)
Definition sharedTable : SymbolTable :=
  after (addFile env 1 (SharedF (libz "libz.so"))).
Definition sharedBody : SymbolBody := SharedSymbol DSO "deflate" strong None.
Definition sharedSymbol : Symbol := symbol STB_WEAK false true sharedBody.

(** The lazy symbols of the archive. *)
Definition lazyTable : SymbolTable := after (addFile env 1 (ArchiveF archive)).
Definition lazyBody : SymbolBody :=
  LazyArchive AR (mkArchiveSymbol "qux" 64 []) Body.UnknownType.
Definition lazySymbol : Symbol := symbol STB_WEAK false false lazyBody.

(** A common [c] of size 4 and alignment 4, and two more contributions. *)
Definition commonTable : SymbolTable :=
  after (addCommon env "c" 4 4 STB_GLOBAL 0 1 (Some F1)).
Definition commonSymbol : Symbol :=
  symbol STB_GLOBAL true false (DefinedCommon "c" 4 4 0 1).
Definition commons : list CommonContribution :=
  [mkCommonContribution 8 2 STB_GLOBAL 0 1 (Some F2);
   mkCommonContribution 6 16 STB_GLOBAL 0 1 (Some F2)].

End Examples.

(** ** Derived notions used in the statements *)

(** Partial correctness: if [m] returns from a state satisfying [P], the
    result satisfies [Q]. *)
Definition hoare {A} (P : SymbolTable -> Prop) (m : M A)
    (Q : A -> SymbolTable -> Prop) : Prop :=
  forall st a st', P st -> m st = Done (a, st') -> Q a st'.

(** The registries of two tables agree. *)
Definition sameFiles (st st' : SymbolTable) : Prop :=
  SoNames st' = SoNames st /\
  ArchiveFiles st' = ArchiveFiles st /\
  LazyObjectFiles st' = LazyObjectFiles st /\
  SharedFiles st' = SharedFiles st /\
  BitcodeFiles st' = BitcodeFiles st /\
  ObjectFiles st' = ObjectFiles st.

(** What an operation leaves in the slot of a name: the outcome, reduced to
    the body of the symbol of [N]. *)
Definition payload {A} (N : string) (r : Outcome (A * SymbolTable))
    : Outcome (option (option SymbolBody)) :=
  match r with
  | Done (_, st) => Done (Body <$> Symtab st !! N)
  | Crash => Crash
  | OutOfFuel => OutOfFuel
  end.

(** An action keeps an invariant of the table. *)
Definition preserves {A} (I : SymbolTable -> Prop) (m : M A) : Prop :=
  hoare I m (fun _ => I).

(** The DSOs of the registry have pairwise different sonames, and every one
    of these sonames is recorded in [SoNames]. *)
Definition sonameInv (st : SymbolTable) : Prop :=
  NoDup (SoName <$> SharedFiles st) /\
  forall F, F ∈ SharedFiles st -> SoName F ∈ SoNames st.

(** A record that an undefined reference neither loads nor marks: it is
    not lazy and not shared. *)
Definition plain (B : SymbolBody) : bool :=
  negb (Body.isLazy B) && negb (Body.isShared B).



(** The value [compareDefined] computes for a symbol that exists, as a
    function of the symbol, its body and the incoming binding. *)
Definition definedVerdict (Sy : Symbol) (B : SymbolBody) (b : Z) : Z :=
  if Body.isLazy B || Body.isUndefined B || Body.isShared B then 1
  else if b =? STB_WEAK then -1
  else if isWeak Sy then 1 else 0.

(** The value of [compareDefinedNonCommon]. *)
Definition nonCommonVerdict (Sy : Symbol) (B : SymbolBody) (b : Z) : Z :=
  if definedVerdict Sy B b =? 0 then (if Body.isCommon B then 1 else 0)
  else definedVerdict Sy B b.

Definition sectionFile (Section : option InputSection) : option FilePtr :=
  match Section with Some Sec => Some (sec_file Sec) | None => None end.


Section Diagnostics.

Variable E : Env.

(** The diagnostics of one insertion. *)
Definition tlsMismatch (B : SymbolBody) (Ty : Z) (File : option FilePtr)
    : list Diagnostic :=
  if negb (Body.Type_ B =? Body.UnknownType) &&
     negb (Bool.eqb (Ty =? STT_TLS) (Body.isTls B))
  then [Error ("TLS attribute mismatch for symbol: " +:+ conflictMsg E B File)]
  else [].

Definition commonOverridden (Sy : Symbol) (B : SymbolBody) (b : Z)
    : list Diagnostic :=
  if (definedVerdict Sy B b =? 0) && Body.isCommon B &&
     Config.WarnCommon (Config E)
  then [Warning ("common " +:+ Body.getName B +:+ " is overridden")]
  else [].

Definition duplicateSymbol (B : SymbolBody) (NewFile : option FilePtr)
    : Diagnostic :=
  let Msg := "duplicate symbol: " +:+ conflictMsg E B NewFile in
  if Config.AllowMultipleDefinition (Config E) then Warning Msg else Error Msg.

End Diagnostics.

(** ** Derived notions for the further properties *)

Section Merge.

Variable E : Env.

(** The version id [getVersionId] computes for a name, and the diagnostics
    it emits: the function reads the name and the configuration only. *)
Definition versionOf (Name : string) : Z * list Diagnostic :=
  match getVersionId E Name emptyTable with
  | Done (V, st) => (V, Diagnostics st)
  | _ => (0, [])
  end.

(** The symbol [insert(Name)] creates. *)
Definition created (Name : string) : Symbol :=
  let V := (versionOf Name).1 in
  mkSymbol STB_WEAK V STV_DEFAULT false false
    (negb (V =? VER_NDX_LOCAL E) && negb (V =? VER_NDX_GLOBAL E)) None.

(** The table after [insert(Name)] created the symbol [Sy]. *)
Definition entered (Name : string) (Sy : Symbol) (st : SymbolTable)
    : SymbolTable :=
  with_SymVector (fun v => v ++ [Name])
    (with_Diagnostics (fun d => d ++ (versionOf Name).2)
       (with_Symtab (fun m => <[Name := Sy]> m) st)).

(** The symbol after the attribute merge of
    [insert(Name, Type, Visibility, CanOmitFromDynSym, IsUsedInRegularObj,
    File)]. *)
Definition merged (Sy : Symbol) (Vis : Z) (Omit Used : bool) : Symbol :=
  mkSymbol (Binding Sy) (VersionId Sy)
    (Z.land (getMinVisibility (Visibility Sy) Vis) 3)
    (IsUsedInRegularObj Sy || Used)
    (ExportDynamic Sy ||
       (negb Omit &&
        (Config.Shared (Config E) || Config.ExportDynamic (Config E))))
    (VersionedName Sy) (Body Sy).

End Merge.

Section Verdicts.

Variable E : Env.

(** The symbol after [compareDefinedNonCommon]: the binding is updated when
    [compareDefined] lets the new symbol win. *)
Definition rebound (Sy : Symbol) (B : SymbolBody) (b : Z) : Symbol :=
  if definedVerdict Sy B b >? 0 then set_Binding b Sy else Sy.

(** The symbol after a non-common definition with the body [New] and the
    binding [b] met the symbol [Sy] that holds [B]. *)
Definition defined (Sy : Symbol) (B New : SymbolBody) (b : Z) : Symbol :=
  if nonCommonVerdict Sy B b >? 0 then replaceBody New (rebound Sy B b)
  else rebound Sy B b.

(** The diagnostics of such a definition. *)
Definition definedDiagnostics (Sy : Symbol) (B : SymbolBody) (b Ty : Z)
    (File : option FilePtr) : list Diagnostic :=
  tlsMismatch E B Ty File ++ commonOverridden E Sy B b ++
  (if nonCommonVerdict Sy B b =? 0 then [duplicateSymbol E B File] else []).

End Verdicts.

Section CommonVerdicts.

Variable E : Env.

(** The symbol after a common definition of size [Size] and alignment
    [Alignment] met the symbol [Sy] that holds [B]. *)
Definition commoned (Sy : Symbol) (B : SymbolBody) (N : string)
    (Size Alignment b StOther Ty : Z) : Symbol :=
  if definedVerdict Sy B b >? 0 then
    replaceBody (DefinedCommon N Size Alignment StOther Ty) (set_Binding b Sy)
  else if definedVerdict Sy B b =? 0 then
    match B with
    | DefinedCommon CN CSize CAlignment CStOther CType =>
        set_Body (Some (DefinedCommon CN (Z.max CSize Size)
                          (Z.max CAlignment Alignment) CStOther CType)) Sy
    | _ => Sy
    end
  else Sy.

Definition commonDiagnostics (Sy : Symbol) (B : SymbolBody) (b : Z)
    : list Diagnostic :=
  if (definedVerdict Sy B b =? 0) && Config.WarnCommon (Config E) then
    [Warning (if Body.isCommon B
              then "multiple common of " +:+ Body.getName B
              else "common " +:+ Body.getName B +:+ " is overridden")]
  else [].

End CommonVerdicts.

Section Outcomes.

Variable E : Env.

(** The outcome of a definition that met an earlier one and lost with a
    report: the call returns, the symbol keeps its body and its binding,
    the other symbols and the registries are as before, and the
    diagnostics are the TLS mismatch, if any, followed by the duplicate. *)
Definition duplicateOutcome (N : string) (Sy : Symbol) (B : SymbolBody)
    (Ty : Z) (File : option FilePtr) (st : SymbolTable)
    (r : Outcome (string * SymbolTable)) : Prop :=
  exists st' S',
    r = Done (N, st') /\
    Symtab st' = <[N := S']> (Symtab st) /\
    Body S' = Some B /\ Binding S' = Binding Sy /\
    SymVector st' = SymVector st /\
    Diagnostics st' = Diagnostics st ++ tlsMismatch E B Ty File ++
                      [duplicateSymbol E B File] /\
    sameFiles st st'.

End Outcomes.

(** What [scanShlibUndefined] does to a symbol it finds: a symbol that is
    defined is exported. *)
Definition exported (Sy : Symbol) : Symbol :=
  match Body Sy with
  | Some B => if Body.isDefined B then set_ExportDynamic true Sy else Sy
  | None => Sy
  end.

(** The name, the kind and the machine of a file that carries an ELF
    header: the object files and the DSOs. *)
Definition elfHeader (File : InputFile) : option (string * Z * Z) :=
  match File with
  | ObjectF F => Some (obj_name F, obj_ekind F, obj_emachine F)
  | SharedF F => Some (so_name F, so_ekind F, so_emachine F)
  | _ => None
  end.

Section Lines.

Variable E : Env.

(** The line [traceDefined] prints for a traced name, if any. *)
Definition traceLine (st : SymbolTable) (Name : string) : list Diagnostic :=
  match Symtab st !! Name with
  | Some Sy =>
      match Body Sy with
      | Some B =>
          if Body.isDefined B || Body.isCommon B then
            match Body.getSourceFile B with
            | Some File =>
                [Output (getFilename E (Some File) +:+ ": definition of " +:+
                         Body.getName B +:+ "
")]
            | None => []
            end
          else []
      | None => []
      end
  | None => []
  end.

(** The symbols [findAll] looks for: the symbols whose body is not an
    undefined reference and whose name matches the pattern; a pattern
    without wildcard characters matches its own text. *)
Definition matches (Pattern : string) (st : SymbolTable) (N : string) : Prop :=
  exists Sy B,
    Symtab st !! N = Some Sy /\ Body Sy = Some B /\
    Body.isUndefined B = false /\
    if StringRef.contains_any "?*" Pattern
    then globMatch E Pattern N = true else N = Pattern.

End Lines.

(** ** The table as the operations leave it *)

(** The operations of the table: the file loader, the insertions the file
    parsers and the driver use, and the passes. *)
Inductive Command :=
  | AddFile (File : InputFile)
  | AddUndefined (Name : string) (Binding_ StOther Type_ : Z)
      (CanOmitFromDynSym : bool) (File : option FilePtr)
  | AddUndefinedName (Name : string)
  | AddRegular (Name : string) (Sym : Elf_Sym) (Section : option InputSection)
  | AddRegularAbsolute (Name : string) (Binding_ StOther : Z)
  | AddCommon (N : string) (Size Alignment Binding_ StOther Type_ : Z)
      (File : option FilePtr)
  | AddSynthetic (N : string) (Section : nat) (Value : Z)
  | AddShared (F : FilePtr) (Name : string) (Sym : Elf_Sym) (Verdef : option Z)
  | AddBitcode (Name : string) (IsWeak : bool) (StOther Type_ : Z)
      (CanOmitFromDynSym : bool) (F : FilePtr)
  | AddLazyArchive (F : FilePtr) (Sym : ArchiveSymbol)
  | AddLazyObject (Name : string) (Obj : FilePtr)
  | AddAbsolute (Name : string) (Visibility_ : Z)
  | AddIgnored (Name : string) (Visibility_ : Z)
  | Wrap (Name : string)
  | ScanUndefinedFlags
  | ScanShlibUndefined
  | ScanDynamicList
  | ScanVersionScript
  | TraceDefined.

Section Commands.

Variable E : Env.
Variable Fl : Flags.t.
Variable fuel : nat.

(** One call of an operation, its result dropped. *)
Definition exec (c : Command) : M unit :=
  match c with
  | AddFile File => addFile E fuel File
  | AddUndefined Name b o t Omit File =>
      addUndefined E (addFile E fuel) Name b o t Omit File ;; ret tt
  | AddUndefinedName Name => addUndefinedName E (addFile E fuel) Name ;; ret tt
  | AddRegular Name Sym Sec => addRegular E Name Sym Sec ;; ret tt
  | AddRegularAbsolute Name b o => addRegularAbsolute E Name b o ;; ret tt
  | AddCommon N Sz Al b o t File => addCommon E N Sz Al b o t File ;; ret tt
  | AddSynthetic N Sec Value => addSynthetic E N Sec Value ;; ret tt
  | AddShared F Name Sym Verdef => addShared E F Name Sym Verdef
  | AddBitcode Name W o t Omit F => addBitcode E Name W o t Omit F ;; ret tt
  | AddLazyArchive F Sym => addLazyArchive E (addFile E fuel) F Sym
  | AddLazyObject Name Obj => addLazyObject E (addFile E fuel) Name Obj
  | AddAbsolute Name v => addAbsolute E Name v ;; ret tt
  | AddIgnored Name v => addIgnored E Name v ;; ret tt
  | Wrap Name => wrap E (addFile E fuel) Name
  | ScanUndefinedFlags => scanUndefinedFlags E Fl fuel
  | ScanShlibUndefined => scanShlibUndefined
  | ScanDynamicList => scanDynamicList Fl
  | ScanVersionScript => scanVersionScript E
  | TraceDefined => traceDefined E Fl
  end.

End Commands.

(** The symbol vector lists the names of the index, each once. *)
Definition indexInv (st : SymbolTable) : Prop :=
  NoDup (SymVector st) /\
  forall N, N ∈ SymVector st <-> is_Some (Symtab st !! N).

(** Every symbol of the index has a body. *)
Definition bodies (st : SymbolTable) : Prop :=
  forall N Sy, Symtab st !! N = Some Sy -> is_Some (Body Sy).

(** Every symbol but the one of [Name] has a body: the state between the
    creation of a symbol and the construction of its body. *)
Definition bodiesExcept (Name : string) (st : SymbolTable) : Prop :=
  forall N Sy, N <> Name -> Symtab st !! N = Some Sy -> is_Some (Body Sy).

(** A write to a symbol that keeps a body the symbol has. *)
Definition keepsBody (f : Symbol -> Symbol) : Prop :=
  forall Sy, is_Some (Body Sy) -> is_Some (Body (f Sy)).

(** A property of the table that only looks at the index. *)
Definition framed (I : SymbolTable -> Prop) : Prop :=
  forall st st', Symtab st' = Symtab st -> I st -> I st'.

(** A visibility [v] that is at least as restrictive as [v0]: once a symbol
    is not of default visibility it stays so, and the value only goes
    down. *)
Definition tightens (v0 v : Z) : Prop :=
  0 <= v0 < 4 -> 0 <= v < 4 /\ (v0 <> 0 -> 0 < v <= v0).

(** The attributes of a symbol only accumulate. *)
Definition symbolGrows (Sy0 Sy : Symbol) : Prop :=
  (IsUsedInRegularObj Sy0 = true -> IsUsedInRegularObj Sy = true) /\
  (ExportDynamic Sy0 = true -> ExportDynamic Sy = true) /\
  VersionedName Sy = VersionedName Sy0 /\
  tightens (Visibility Sy0) (Visibility Sy).

(** The table [st] continues the table [st0]: the symbols were created and
    the diagnostics emitted after those of [st0], no name was removed, and
    the attributes of the symbols of [st0] accumulated. *)
Definition grows (st0 st : SymbolTable) : Prop :=
  SymVector st0 `prefix_of` SymVector st /\
  Diagnostics st0 `prefix_of` Diagnostics st /\
  forall N Sy0,
    Symtab st0 !! N = Some Sy0 ->
    exists Sy, Symtab st !! N = Some Sy /\ symbolGrows Sy0 Sy.

(** An action after which the table continues the table before. *)
Definition growing {A} (m : M A) : Prop :=
  forall st a st', m st = Done (a, st') -> grows st st'.

(** A write to a symbol under which its attributes accumulate. *)
Definition accumulates (f : Symbol -> Symbol) : Prop :=
  forall Sy, symbolGrows Sy (f Sy).

(** ** Concrete inputs for the further properties *)

Module Scenarios.

Import Examples.

(** -u qux, a dynamic list with [foo] and a name nobody defines, and the
    names to trace. *)
Definition flags : Flags.t :=
  Flags.mk ["qux"] ["foo"; "deflate"; "nope"] ["foo"; "deflate"].

(** A version script without version declarations that lists [foo]. *)
Definition cfg_globals : Config.t :=
  Config.mk false false false false false false false 62 1 "" None [] ["foo"].
Definition env_globals : Env :=
  mkEnv cfg_globals 0 1 (fun s => s) filename parser member buffer glob.

(** A link for x86-64 given by the emulation. *)
Definition cfg_emulation : Config.t :=
  Config.mk false false false false true false false 62 1 "elf_x86_64" None
    [] [].
Definition env_emulation : Env :=
  mkEnv cfg_emulation 0 1 (fun s => s) filename parser member buffer glob.

(** An object for another machine. *)
Definition armObject : ObjectFile :=
  mkObjectFile "arm.o" "" 40 1 [RecRegular "foo" strong (Some O)].

(** A DSO that expects the program to define [foo]. *)
Definition libneeds : SharedFile :=
  mkSharedFile "libneeds.so" 62 1 "libneeds.so.1" [] ["foo"; "bar"] false.

(** The empty table with libz registered. *)
Definition dsoTable : SymbolTable :=
  with_SharedFiles (fun _ => [libz "libz.so"]) emptyTable.

(** [foo] defined by F1 and [bar] only referenced, with libneeds
    registered. *)
Definition neededTable : SymbolTable :=
  with_SharedFiles (fun _ => [libneeds])
    (after (addRegular env "foo" strong (Some sec1) ;;
            addUndefined env (addFile env 1) "bar" STB_GLOBAL 0 0 false
              (Some F1))).

(** A reference to [end] from F1. *)
Definition endTable : SymbolTable :=
  after (addUndefined env (addFile env 1) "end" STB_GLOBAL 0 0 false (Some F1)).
Definition endSymbol : Symbol :=
  symbol STB_GLOBAL true false (Undefined "end" 0 0 (Some F1)).

(** A link: an archive, an object's symbols, a reference that fetches a
    member of the archive, a common symbol, --wrap foo and the passes. *)
Definition session : list Command :=
  [AddFile (ArchiveF archive);
   AddRegular "foo" strong (Some sec1);
   AddUndefinedName "baz";
   AddCommon "c" 4 4 STB_GLOBAL 0 1 (Some F1);
   Wrap "foo";
   ScanDynamicList;
   ScanVersionScript;
   TraceDefined].

Definition sessionTable : SymbolTable :=
  after (forEach (exec env flags 2) session).

(** A protected reference to the hidden [deflate], then the dynamic
    list. *)
Definition tightening : list Command :=
  [AddUndefined "deflate" STB_GLOBAL STV_PROTECTED 0 false None;
   ScanDynamicList].

Definition tightenedTable : SymbolTable :=
  match forEach (exec env flags 2) tightening hiddenTable with
  | Done (_, st) => st
  | _ => emptyTable
  end.

(** A weak reference to [qux] of type STT_OBJECT from F1. *)
Definition weakRefTable : SymbolTable :=
  after (addUndefined env (addFile env 1) "qux" STB_WEAK 0 1 false (Some F1)).
Definition weakRefSymbol : Symbol :=
  symbol STB_WEAK true false (Undefined "qux" 0 1 (Some F1)).

(** A thread-local variable: STB_GLOBAL, STT_TLS. *)
Definition tlsVariable : Elf_Sym := mkElfSym 0x16 0 0 8.

End Scenarios.

(** * The writer (Writer.cpp)

    The layout part of the writer: the output sections, the placement of
    the chunks in a section and the assignment of addresses and file
    offsets.  [Chunk] (Chunks.h) and the class declarations of Writer.h
    are not part of the sources; a chunk is the record of the fields its
    accessors read and write ([getVA]/[setVA], [getFileOff]/[setFileOff],
    [getSize], [getAlign], [getSectionName], [setOutputSection]), and
    [getSize] of an output section reads [Header.sh_size].

    A [Chunk *] is a key of the heap of chunks, an [OutputSection *] a
    position in [OutputSections]; a read through a pointer that designates
    no object gives [None]. *)

Module Writer.

Definition uint64 (z : Z) : Z := z mod 2 ^ 64.

Definition PageSize : Z := 4096.

Record Chunk := mkChunk {
  VA : Z;
  FileOff : Z;
  Size : Z;
  Align : Z;
  SectionName : string;
  Out : option nat
}.

Definition Chunk_setVA (V : Z) (c : Chunk) : Chunk :=
  mkChunk V (FileOff c) (Size c) (Align c) (SectionName c) (Out c).
Definition Chunk_setFileOff (V : Z) (c : Chunk) : Chunk :=
  mkChunk (VA c) V (Size c) (Align c) (SectionName c) (Out c).
Definition Chunk_setOutputSection (O : nat) (c : Chunk) : Chunk :=
  mkChunk (VA c) (FileOff c) (Size c) (Align c) (SectionName c) (Some O).

(** An output section: its name, the fields of its header the writer sets,
    and its chunks. *)
Record OutputSection := mkOutputSection {
  Name : string;
  sh_addr : Z;
  sh_offset : Z;
  sh_size : Z;
  Chunks : list nat
}.

(** [OutputSection(Name)]. *)
Definition newOutputSection (N : string) : OutputSection :=
  mkOutputSection N 0 0 0 [].

Record State := mkState {
  Heap : gmap nat Chunk;
  OutputSections : list OutputSection;
  SizeOfHeaders : Z;
  SizeOfImage : Z;
  FileSize : Z
}.

Definition with_Heap (h : gmap nat Chunk) (s : State) : State :=
  mkState h (OutputSections s) (SizeOfHeaders s) (SizeOfImage s) (FileSize s).
Definition with_OutputSections (l : list OutputSection) (s : State) : State :=
  mkState (Heap s) l (SizeOfHeaders s) (SizeOfImage s) (FileSize s).

Section Layout.

(** [RoundUpToAlignment] is a function of the LLVM support library, and
    the sizes of the ELF header and of a section header depend on the ELF
    class. *)
Variable RoundUpToAlignment : Z -> Z -> Z.
Variable EhdrSize ShdrSize : Z.

(** The loop of [OutputSection::setVA] over the chunks. *)
Fixpoint shiftVA (Cs : list nat) (V : Z) (h : gmap nat Chunk)
    : option (gmap nat Chunk) :=
  match Cs with
  | [] => Some h
  | C :: rest =>
      c ← h !! C;
      shiftVA rest V (<[C := Chunk_setVA (uint64 (VA c + V)) c]> h)
  end.

Definition setVA (this : nat) (V : Z) (s : State) : option State :=
  Sec ← OutputSections s !! this;
  let Sec' := mkOutputSection (Name Sec) V (sh_offset Sec) (sh_size Sec)
                (Chunks Sec) in
  h ← shiftVA (Chunks Sec) V (Heap s);
  Some (with_Heap h (with_OutputSections (<[this := Sec']> (OutputSections s)) s)).

(** The loop of [OutputSection::setFileOffset] over the chunks. *)
Fixpoint shiftFileOff (Cs : list nat) (Off : Z) (h : gmap nat Chunk)
    : option (gmap nat Chunk) :=
  match Cs with
  | [] => Some h
  | C :: rest =>
      c ← h !! C;
      shiftFileOff rest Off
        (<[C := Chunk_setFileOff (uint64 (FileOff c + Off)) c]> h)
  end.

Definition setFileOffset (this : nat) (Off : Z) (s : State) : option State :=
  Sec ← OutputSections s !! this;
  if sh_size Sec =? 0 then Some s
  else
    let Sec' := mkOutputSection (Name Sec) (sh_addr Sec) Off (sh_size Sec)
                  (Chunks Sec) in
    h ← shiftFileOff (Chunks Sec) Off (Heap s);
    Some (with_Heap h
            (with_OutputSections (<[this := Sec']> (OutputSections s)) s)).

Definition addChunk (this : nat) (C : nat) (s : State) : option State :=
  Sec ← OutputSections s !! this;
  c ← Heap s !! C;
  let c := Chunk_setOutputSection this c in
  let Off := sh_size Sec in
  let Off := RoundUpToAlignment Off (Align c) in
  let c := Chunk_setVA Off c in
  let c := Chunk_setFileOff Off c in
  let Off := uint64 (Off + Size c) in
  let Sec' := mkOutputSection (Name Sec) (sh_addr Sec) (sh_offset Sec) Off
                (Chunks Sec ++ [C]) in
  Some (with_Heap (<[C := c]> (Heap s))
          (with_OutputSections (<[this := Sec']> (OutputSections s)) s)).

(** [compare]: the order of the chunks is that of their section names;
    [<] on [StringRef] compares the bytes, a proper prefix being smaller. *)
Definition compare (a b : Chunk) : bool :=
  String.ltb (SectionName a) (SectionName b).

(** [std::sort] of a vector of chunk pointers by [compare], which reads the
    chunks in the heap. *)
Variable sort : gmap nat Chunk -> list nat -> list nat.

(** The loop of [createSections]; a new section is appended to
    [OutputSections], its pointer is its position there. *)
Fixpoint createLoop (Cs : list nat) (Prev Sec : option nat) (s : State)
    : option State :=
  match Cs with
  | [] => Some s
  | C :: rest =>
      c ← Heap s !! C;
      differs ← match Prev with
                | None => Some true
                | Some P =>
                    p ← Heap s !! P;
                    Some (negb (String.eqb (SectionName p) (SectionName c)))
                end;
      let '(Prev, Sec, s) :=
        if (differs : bool)
        then (Some C, Some (length (OutputSections s)),
              with_OutputSections
                (OutputSections s ++ [newOutputSection (SectionName c)]) s)
        else (Prev, Sec, s) in
      this ← Sec;
      s ← addChunk this C s;
      createLoop rest Prev Sec s
  end.

(** Create output section objects and add them to OutputSections.
    [getChunks] is the result of [Symtab->getChunks()]. *)
Definition createSections (getChunks : list nat) (s : State) : option State :=
  match getChunks with
  | [] => Some s
  | _ => createLoop (sort (Heap s) getChunks) None None s
  end.

(** The loop of [assignAddresses] over the output sections, from the
    section at position [this] on. *)
Fixpoint assignFrom (n : nat) (this : nat) (V Off : Z) (s : State)
    : option (Z * Z * State) :=
  match n with
  | O => Some (V, Off, s)
  | S n =>
      s1 ← setVA this V s;
      s2 ← setFileOffset this Off s1;
      Sec ← OutputSections s2 !! this;
      assignFrom n (S this)
        (uint64 (V + RoundUpToAlignment (sh_size Sec) PageSize))
        (uint64 (Off + RoundUpToAlignment (sh_size Sec) 8)) s2
  end.

(** Visits all sections to assign incremental, non-overlapping RVAs and
    file offsets. *)
Definition assignAddresses (s : State) : option State :=
  let Headers :=
    RoundUpToAlignment
      (uint64 (EhdrSize +
               uint64 (ShdrSize * Z.of_nat (length (OutputSections s)))))
      PageSize in
  r ← assignFrom (length (OutputSections s)) 0 0x1000 Headers s;
  let '(V, Off, s') := r in
  Some (mkState (Heap s') (OutputSections s') Headers
          (uint64 (Headers + RoundUpToAlignment (uint64 (V - 0x1000)) PageSize))
          (uint64 (Headers + RoundUpToAlignment (uint64 (Off - Headers)) 8))).

(** The layout steps of [write]. *)
Definition layout (getChunks : list nat) (s : State) : option State :=
  s ← createSections getChunks s;
  assignAddresses s.

End Layout.

(** ** Derived notions for the layout *)

(** The chunks [Cs] lie in this order between [lo] and [hi], where [pos]
    is the position of a chunk (its address or its file offset): each one
    starts where the one before it ends, or later. *)
Fixpoint inOrder (pos : Chunk -> Z) (h : gmap nat Chunk) (lo : Z)
    (Cs : list nat) (hi : Z) : Prop :=
  match Cs with
  | [] => lo <= hi
  | C :: rest =>
      exists c, h !! C = Some c /\ lo <= pos c /\ 0 <= Size c /\
                inOrder pos h (pos c + Size c) rest hi
  end.

(** Two chunks do not overlap. *)
Definition apart (pos : Chunk -> Z) (a b : Chunk) : Prop :=
  pos a + Size a <= pos b \/ pos b + Size b <= pos a.

(** All chunks of the output sections, in the order of the sections. *)
Definition allChunks (Secs : list OutputSection) : list nat :=
  concat (Chunks <$> Secs).

(** The room a list of sections takes when each one is rounded up to a
    page. *)
Fixpoint span (Secs : list OutputSection) : Z :=
  match Secs with
  | [] => 0
  | Sec :: rest => sh_size Sec + PageSize + span rest
  end.

(** The room a list of chunks takes at most: the size of each chunk, the
    padding in front of it and the padding of a section to a page. *)
Fixpoint demand (h : gmap nat Chunk) (Cs : list nat) : Z :=
  match Cs with
  | [] => 0
  | C :: rest =>
      match h !! C with
      | Some c => Size c + Align c + PageSize
      | None => 0
      end + demand h rest
  end.

(** What the layout never changes in a chunk. *)
Definition shape (c : Chunk) : Z * Z * string :=
  (Size c, Align c, SectionName c).

(** A section before the addresses are assigned: the chunks are placed
    relative to the start of the section, in order and up to its size, at
    multiples of their alignments, the same in the file as in memory. *)
Definition packed (h : gmap nat Chunk) (Sec : OutputSection) : Prop :=
  inOrder VA h 0 (Chunks Sec) (sh_size Sec) /\
  forall C c, C ∈ Chunks Sec -> h !! C = Some c ->
    FileOff c = VA c /\ (Align c | VA c).

(** The chunks of the section at position [k] know their section and have
    its name. *)
Definition owned (h : gmap nat Chunk) (k : nat) (Sec : OutputSection)
    : Prop :=
  forall C, C ∈ Chunks Sec ->
    exists c, h !! C = Some c /\ Out c = Some k /\ SectionName c = Name Sec.

(** The state of the loop of [createSections] after the chunks [done],
    from the heap [h0]: the sections hold these chunks in this order, none
    is empty, their names increase, and the last section is the current
    one, whose name is that of [Prev]. *)
Definition createInv (h0 : gmap nat Chunk) (done : list nat)
    (Prev Sec : option nat) (s : State) : Prop :=
  allChunks (OutputSections s) = done /\
  (forall k Sec', OutputSections s !! k = Some Sec' ->
     Chunks Sec' <> [] /\ packed (Heap s) Sec' /\ owned (Heap s) k Sec' /\
     0 <= sh_size Sec') /\
  (forall C, shape <$> Heap s !! C = shape <$> h0 !! C) /\
  (forall C, C ∉ done -> Heap s !! C = h0 !! C) /\
  match Sec with
  | None => Prev = None /\ OutputSections s = []
  | Some k =>
      exists P p pre SecK,
        Prev = Some P /\ OutputSections s = pre ++ [SecK] /\
        k = length pre /\ P ∈ done /\ h0 !! P = Some p /\
        SectionName p = Name SecK
  end /\
  (forall i j A B, (i < j)%nat ->
     OutputSections s !! i = Some A -> OutputSections s !! j = Some B ->
     String.ltb (Name A) (Name B) = true) /\
  span (OutputSections s) <= demand h0 done /\
  (length (OutputSections s) <= length done)%nat.

(** The addresses and offsets [assignAddresses] gives to a list of
    sections, from the address [V] and the offset [Off] on. *)
Fixpoint place (R : Z -> Z -> Z) (V Off : Z) (Secs : list OutputSection)
    : list OutputSection :=
  match Secs with
  | [] => []
  | Sec :: rest =>
      mkOutputSection (Name Sec) V
        (if sh_size Sec =? 0 then sh_offset Sec else Off)
        (sh_size Sec) (Chunks Sec)
      :: place R (V + R (sh_size Sec) PageSize) (Off + R (sh_size Sec) 8) rest
  end.

(** The address, or the offset, behind a list of sections that are placed
    from [V] on and rounded up to [a]. *)
Definition endOf (R : Z -> Z -> Z) (a : Z) (V : Z) (Secs : list OutputSection)
    : Z :=
  foldl (fun v Sec => v + R (sh_size Sec) a) V Secs.

(** A chunk of the section [Sec] after [Sec->setVA] and
    [Sec->setFileOffset] with the address and the offset of the section. *)
Definition moved (Sec : OutputSection) (c : Chunk) : Chunk :=
  mkChunk (uint64 (VA c + sh_addr Sec))
    (if sh_size Sec =? 0 then FileOff c
     else uint64 (FileOff c + sh_offset Sec))
    (Size c) (Align c) (SectionName c) (Out c).

(** The contract of [RoundUpToAlignment] on 64-bit values: the least
    multiple of the alignment that is not below the value, if the sum does
    not overflow. *)
Definition roundsUp (R : Z -> Z -> Z) : Prop :=
  forall v a, 0 <= v -> 0 < a -> v + a <= 2 ^ 64 ->
    v <= R v a < v + a /\ (a | R v a).

(** The order [std::sort] leaves: no chunk is smaller than one before it. *)
Definition ordered (h : gmap nat Chunk) (l : list nat) : Prop :=
  forall i j A B a b, (i < j)%nat ->
    l !! i = Some A -> l !! j = Some B ->
    h !! A = Some a -> h !! B = Some b -> compare b a = false.

End Writer.

(** ** Concrete chunks used by the examples of the layout *)

Module WriterExamples.
Import Writer.

(** [RoundUpToAlignment] as the LLVM support library computes it on
    64-bit values: [(Value + Align - 1) / Align * Align]. *)
Definition RoundUpToAlignment (Value Align : Z) : Z :=
  uint64 (uint64 (Value + Align - 1) / Align * Align).

(** A sort by insertion with [compare]. *)
Definition before (h : gmap nat Chunk) (C D : nat) : bool :=
  match h !! C, h !! D with
  | Some c, Some d => compare c d
  | _, _ => false
  end.

Fixpoint insertChunk (h : gmap nat Chunk) (C : nat) (l : list nat)
    : list nat :=
  match l with
  | [] => [C]
  | D :: rest =>
      if before h D C then D :: insertChunk h C rest else C :: D :: rest
  end.

Definition sortChunks (h : gmap nat Chunk) (l : list nat) : list nat :=
  foldr (insertChunk h) [] l.

(** The sizes of the headers of a 64-bit ELF file. *)
Definition EhdrSize : Z := 64.
Definition ShdrSize : Z := 64.

(** Four chunks of two object files: code and data, one chunk empty. *)
Definition chunks : gmap nat Chunk :=
  <[0%nat := mkChunk 0 0 10 16 ".text" None]>
  (<[1%nat := mkChunk 0 0 8 8 ".data" None]>
  (<[2%nat := mkChunk 0 0 5 4 ".text" None]>
  (<[3%nat := mkChunk 0 0 0 1 ".data" None]> ∅))).

Definition fresh : State := mkState chunks [] 0 0 0.

(** A writer with the section of the code, which holds the first chunk. *)
Definition started : State :=
  mkState (<[0%nat := mkChunk 0 0 10 16 ".text" (Some 0%nat)]> chunks)
    [mkOutputSection ".text" 0 0 10 [0%nat]] 0 0 0.

End WriterExamples.

(** * Properties *)

(** ** Reasoning about the monad *)

(** The primitives of the monad reduce under [simpl] once they are applied
    to a table. *)
#[local] Arguments bind {A B} m k st /.
#[local] Arguments ret {A} a st /.
#[local] Arguments get st /.
#[local] Arguments modify f st /.
#[local] Arguments crash {A} st /.
#[local] Arguments deref {A} o /.
#[local] Arguments when b m /.
#[local] Arguments getSymbol S st /.
#[local] Arguments body S st /.
#[local] Arguments modifySymbol S f st /.
#[local] Arguments error Msg st /.
#[local] Arguments warning Msg st /.
#[local] Arguments outs Msg st /.
#[local] Arguments with_Symtab f st /.
#[local] Arguments with_SymVector f st /.
#[local] Arguments with_SoNames f st /.
#[local] Arguments with_ArchiveFiles f st /.
#[local] Arguments with_LazyObjectFiles f st /.
#[local] Arguments with_SharedFiles f st /.
#[local] Arguments with_BitcodeFiles f st /.
#[local] Arguments with_ObjectFiles f st /.
#[local] Arguments with_Diagnostics f st /.
#[local] Arguments String.append : simpl never.

Ltac mrun := simpl.

Lemma sameFiles_refl st : sameFiles st st.
Proof. by repeat split. Qed.

Lemma sameFiles_trans st1 st2 st3 :
  sameFiles st1 st2 -> sameFiles st2 st3 -> sameFiles st1 st3.
Proof.
  unfold sameFiles. intros (?&?&?&?&?&?) (?&?&?&?&?&?).
  repeat split; congruence.
Qed.

Lemma with_Diagnostics_nil st :
  with_Diagnostics (fun d => d ++ []) st = st.
Proof. destruct st. unfold with_Diagnostics. f_equal. apply app_nil_r. Qed.

Lemma hoare_ret {A} (P : SymbolTable -> Prop) (a : A) Q :
  (forall st, P st -> Q a st) -> hoare P (ret a) Q.
Proof. intros H st b st' HP [= <- <-]. auto. Qed.

Lemma hoare_bind {A B} P (m : M A) (k : A -> M B) R Q :
  hoare P m R -> (forall a, hoare (R a) (k a) Q) -> hoare P (bind m k) Q.
Proof.
  intros Hm Hk st b st' HP. unfold bind.
  destruct (m st) as [[a st1]| |] eqn:Hrun; try discriminate.
  intros Hk'. eapply Hk; [|exact Hk']. eapply Hm; eauto.
Qed.

Lemma hoare_conseq {A} (P P' : SymbolTable -> Prop) (m : M A)
    (Q Q' : A -> SymbolTable -> Prop) :
  hoare P' m Q' -> (forall st, P st -> P' st) ->
  (forall a st, Q' a st -> Q a st) -> hoare P m Q.
Proof. intros H HP HQ st a st' ? ?. eapply HQ, H; eauto. Qed.

Lemma hoare_get P : hoare P get (fun a st => a = st /\ P st).
Proof. intros st a st' HP [= <- <-]. auto. Qed.

Lemma hoare_modify (P Q : SymbolTable -> Prop) f :
  (forall st, P st -> Q (f st)) -> hoare P (modify f) (fun _ => Q).
Proof. intros H st a st' HP [= _ <-]. auto. Qed.

Lemma hoare_crash {A} P (Q : A -> SymbolTable -> Prop) : hoare P crash Q.
Proof. intros st a st' _ [=]. Qed.

Lemma hoare_deref {A} P (o : option A) :
  hoare P (deref o) (fun a st => o = Some a /\ P st).
Proof.
  destruct o; cbn.
  - intros st b st' HP [= <- <-]. auto.
  - apply hoare_crash.
Qed.

Lemma hoare_when (P : SymbolTable -> Prop) b m :
  (b = true -> hoare P m (fun _ => P)) -> hoare P (when b m) (fun _ => P).
Proof. destruct b; cbn; intros H; [auto | by apply hoare_ret]. Qed.

Lemma hoare_forEach {A} (P : SymbolTable -> Prop) (f : A -> M unit) l :
  (forall x, x ∈ l -> hoare P (f x) (fun _ => P)) ->
  hoare P (forEach f l) (fun _ => P).
Proof.
  induction l as [|x l IH]; cbn [forEach]; intros H.
  - by apply hoare_ret.
  - eapply hoare_bind; [apply H; left|].
    intros ?. apply IH. intros y Hy. apply H. by right.
Qed.

Lemma bind_Done {A B} (m : M A) (k : A -> M B) st a st1 :
  m st = Done (a, st1) -> bind m k st = k a st1.
Proof. unfold bind. by intros ->. Qed.

Lemma bind_assoc {X Y Z} (m : M X) (k : X -> M Y) (h : Y -> M Z) st :
  bind (bind m k) h st = bind m (fun x => bind (k x) h) st.
Proof. unfold bind. by destruct (m st) as [[? ?]| |]. Qed.

Lemma bind_ext {X Y} (m : M X) (k k' : X -> M Y) st :
  (forall a st', k a st' = k' a st') -> bind m k st = bind m k' st.
Proof. intros H. unfold bind. by destruct (m st) as [[? ?]| |]. Qed.

(** Run the first action of a sequence with a known outcome. *)
Ltac mstep H :=
  rewrite (bind_Done _ _ _ _ _ H); cbn beta zeta iota delta [fst snd].

Ltac conjs := repeat match goal with |- _ /\ _ => split end.

Ltac files :=
  repeat match goal with
         | H : sameFiles _ _ |- _ => destruct H as (?&?&?&?&?&?)
         end;
  unfold sameFiles; simpl; repeat split; congruence.


(** ** The index and the attribute merge *)

Section Index.

Variable E : Env.

Implicit Types (st : SymbolTable) (N Name : string) (B : SymbolBody).

Lemma getVersionId_Done Name st :
  exists V ds,
    getVersionId E Name st = Done (V, with_Diagnostics (fun d => d ++ ds) st).
Proof.
  unfold getVersionId.
  destruct (StringRef.find _ _).
  - destruct (findVersion _ _ _).
    + eexists _, []. by rewrite with_Diagnostics_nil.
    + by eexists _, [_].
  - eexists _, []. by rewrite with_Diagnostics_nil.
Qed.

Lemma insert_existing Name st Sy :
  Symtab st !! Name = Some Sy -> insert E Name st = Done ((Name, false), st).
Proof. intros H. unfold insert. mrun. by rewrite H. Qed.

End Index.

Section AttributeMerge.

Variable E : Env.

Implicit Types (st : SymbolTable) (N Name : string) (B : SymbolBody).

Lemma insert_fresh Name st :
  Symtab st !! Name = None ->
  exists V ds st1,
    insert E Name st = Done ((Name, true), st1) /\
    Symtab st1 =
      <[Name := mkSymbol STB_WEAK V STV_DEFAULT false false
                  (negb (V =? VER_NDX_LOCAL E) && negb (V =? VER_NDX_GLOBAL E))
                  None]> (Symtab st) /\
    SymVector st1 = SymVector st ++ [Name] /\
    Diagnostics st1 = Diagnostics st ++ ds /\
    sameFiles st st1.
Proof.
  intros H. unfold insert. mrun. rewrite H.
  destruct (getVersionId_Done E Name st) as (V & ds & HV).
  mrun. rewrite HV. mrun.
  eexists V, ds, _. split; [reflexivity|]. mrun.
  repeat split; reflexivity.
Qed.

Lemma alter_Some {A} (f : A -> A) (m : gmap string A) i x :
  m !! i = Some x -> alter f i m = <[i := f x]> m.
Proof.
  intros H. apply map_eq. intros j. destruct (decide (i = j)) as [<-|Hne].
  - by rewrite lookup_alter_eq, lookup_insert_eq, H.
  - by rewrite lookup_alter_ne, lookup_insert_ne.
Qed.

(** The attribute merge of [insert] on a symbol that exists. *)
Lemma insertWith_existing Name Ty Vis Omit Used File st Sy B :
  Symtab st !! Name = Some Sy -> Body Sy = Some B ->
  exists st1 S1,
    insertWith E Name Ty Vis Omit Used File st = Done ((Name, false), st1) /\
    Symtab st1 = <[Name := S1]> (Symtab st) /\
    Body S1 = Some B /\ Binding S1 = Binding Sy /\
    Visibility S1 = Z.land (getMinVisibility (Visibility Sy) Vis) 3 /\
    VersionId S1 = VersionId Sy /\
    SymVector st1 = SymVector st /\
    Diagnostics st1 = Diagnostics st ++
      (if negb (Body.Type_ B =? Body.UnknownType) &&
          negb (Bool.eqb (Ty =? STT_TLS) (Body.isTls B))
       then [Error ("TLS attribute mismatch for symbol: " +:+
                    conflictMsg E B File)]
       else []) /\
    sameFiles st st1.
Proof.
  intros HN HB. unfold insertWith. mrun.
  rewrite (insert_existing E Name st Sy HN). mrun. rewrite HN. mrun.
  destruct (negb Omit && _), Used; mrun;
    rewrite ?lookup_alter_eq, ?HN; mrun;
    rewrite ?HB; mrun.
  all: destruct (_ && _); mrun.
  all: eexists _, _; split; [reflexivity|]; mrun.
  all: rewrite ?(alter_Some _ _ _ _ HN), ?alter_insert_eq.
  all: split; [reflexivity|]; mrun; rewrite ?app_nil_r.
  all: by repeat split.
Qed.

Lemma insertWith_fresh Name Ty Vis Omit Used File st :
  Symtab st !! Name = None ->
  exists st1 S1,
    insertWith E Name Ty Vis Omit Used File st = Done ((Name, true), st1) /\
    Symtab st1 = <[Name := S1]> (Symtab st) /\
    Body S1 = None /\ Binding S1 = STB_WEAK /\
    Visibility S1 = Z.land (getMinVisibility STV_DEFAULT Vis) 3 /\
    SymVector st1 = SymVector st ++ [Name] /\
    sameFiles st st1.
Proof.
  intros HN. unfold insertWith. mrun.
  destruct (insert_fresh Name st HN) as (V & ds & st1 & Hrun & HS & HV & HD & HF).
  rewrite Hrun. mrun. rewrite HS, lookup_insert_eq. mrun.
  destruct (negb Omit && _), Used; mrun.
  all: eexists _, _; split; [reflexivity|]; mrun.
  all: rewrite HS, ?alter_insert_eq.
  all: split; [reflexivity|]; mrun.
  all: repeat split; try done; apply HF.
Qed.
End AttributeMerge.

(** ** Shared symbols and visibility *)

Section SharedSymbols.

Variable E : Env.

Implicit Types (st : SymbolTable) (N Name : string) (B : SymbolBody).

Lemma getMinVisibility_default v : getMinVisibility v STV_DEFAULT = v.
Proof.
  unfold getMinVisibility, STV_DEFAULT.
  destruct (v =? 0) eqn:Hv; [apply Z.eqb_eq in Hv; congruence | reflexivity].
Qed.

Lemma land_3_small v : 0 <= v < 4 -> Z.land v 3 = v.
Proof.
  intros H. change 3 with (Z.ones 2). rewrite Z.land_ones by lia.
  apply Z.mod_small. lia.
Qed.

Lemma markUsed_Symtab F st st' :
  markUsed F st = Done (tt, st') -> Symtab st' = Symtab st.
Proof.
  unfold markUsed. mrun. destruct (SharedFiles st !! fp_index F); mrun; [|done].
  by intros [= <-].
Qed.

Lemma insertWith_uninit Name Ty Vis Omit Used File st Sy :
  Symtab st !! Name = Some Sy -> Body Sy = None ->
  insertWith E Name Ty Vis Omit Used File st = Crash.
Proof.
  intros HN HB. unfold insertWith. mrun.
  rewrite (insert_existing E Name st Sy HN). mrun. rewrite HN. mrun.
  destruct (negb Omit && _), Used; mrun;
    rewrite ?lookup_alter_eq, ?HN; mrun; rewrite ?HB; reflexivity.
Qed.

(** What [addShared] does to the index: it writes the slot of [Name] only,
    and the visibility stored there is the visibility merged with
    STV_DEFAULT. *)
Lemma addShared_Symtab F Name Sym Verdef st st' :
  addShared E F Name Sym Verdef st = Done (tt, st') ->
  exists S',
    Symtab st' = <[Name := S']> (Symtab st) /\
    Visibility S' =
      Z.land (getMinVisibility
                (match Symtab st !! Name with
                 | Some Sy => Visibility Sy
                 | None => STV_DEFAULT
                 end) STV_DEFAULT) 3.
Proof.
  unfold addShared. mrun.
  destruct (Symtab st !! Name) as [Sy|] eqn:HN.
  - destruct (Body Sy) as [B|] eqn:HB.
    + destruct (insertWith_existing E Name (getType Sym) STV_DEFAULT true false
                  (Some F) st Sy B HN HB)
        as (st1 & S1 & Hrun & HS & HB1 & Hb1 & HV1 & _).
      rewrite Hrun. mrun.
      destruct (getVisibility Sym =? STV_DEFAULT); mrun;
        rewrite ?HS, ?alter_insert_eq, ?lookup_insert_eq; mrun; rewrite ?HB1; mrun.
      all: destruct (Body.isUndefined B); mrun;
        rewrite ?HS, ?alter_insert_eq, ?lookup_insert_eq; mrun.
      all: try match goal with
             | |- context [isWeak ?s] => destruct (isWeak s); mrun
             end.
      all: try (intros [= <-]; mrun).
      all: try (intros Hm; apply markUsed_Symtab in Hm; revert Hm; mrun; intros ->).
      all: rewrite ?HS, ?alter_insert_eq, ?insert_insert_eq.
      all: try (eexists; split; [reflexivity|]; mrun; exact HV1).
    + rewrite (insertWith_uninit Name _ _ _ _ _ st Sy HN HB). discriminate.
  - destruct (insertWith_fresh E Name (getType Sym) STV_DEFAULT true false
                (Some F) st HN)
      as (st1 & S1 & Hrun & HS & HB1 & Hb1 & HV1 & _).
    rewrite Hrun. mrun.
    destruct (getVisibility Sym =? STV_DEFAULT); mrun;
      rewrite ?HS, ?alter_insert_eq, ?lookup_insert_eq; mrun.
    all: unfold isWeak; mrun; rewrite Hb1; mrun.
    all: intros [= <-]; mrun.
    all: rewrite ?HS, ?alter_insert_eq, ?insert_insert_eq.
    all: eexists; split; [reflexivity|]; mrun; exact HV1.
Qed.

Lemma markUsed_Done F st f :
  SharedFiles st !! fp_index F = Some f ->
  markUsed F st =
    Done (tt, with_SharedFiles
                (fun l => <[fp_index F := set_IsUsed true f]> l) st).
Proof. intros H. unfold markUsed. mrun. by rewrite H. Qed.

(** [addShared] returns on a table whose symbols have bodies and whose
    registry holds the DSO. *)
Lemma addShared_returns F Name Sym Verdef st :
  (forall Sy, Symtab st !! Name = Some Sy -> is_Some (Body Sy)) ->
  is_Some (SharedFiles st !! fp_index F) ->
  exists st', addShared E F Name Sym Verdef st = Done (tt, st').
Proof.
  intros Hbody [f Hf]. unfold addShared.
  destruct (Symtab st !! Name) as [Sy|] eqn:HN.
  - destruct (Hbody Sy eq_refl) as [B HB].
    destruct (insertWith_existing E Name (getType Sym) STV_DEFAULT true false
                (Some F) st Sy B HN HB)
      as (st1 & S1 & Hrun & HS & HB1 & Hb1 & _ & _ & _ & _ & HF1).
    mstep Hrun. mrun.
    assert (Hf1 : SharedFiles st1 !! fp_index F = Some f).
    { destruct HF1 as (_&_&_&->&_). done. }
    destruct (getVisibility Sym =? STV_DEFAULT); mrun;
      rewrite ?HS, ?alter_insert_eq, ?lookup_insert_eq; mrun; rewrite HB1; mrun.
    all: destruct (Body.isUndefined B); mrun; [|by eauto].
    all: rewrite ?HS, ?alter_insert_eq, ?lookup_insert_eq; mrun.
    all: destruct (isWeak _); mrun; [by eauto|].
    all: rewrite (markUsed_Done F _ f) by done; by eauto.
  - destruct (insertWith_fresh E Name (getType Sym) STV_DEFAULT true false
                (Some F) st HN)
      as (st1 & S1 & Hrun & HS & HB1 & Hb1 & _).
    mstep Hrun. mrun.
    destruct (getVisibility Sym =? STV_DEFAULT); mrun;
      rewrite ?HS, ?alter_insert_eq, ?lookup_insert_eq; mrun.
    all: unfold isWeak; mrun; rewrite Hb1; mrun; by eauto.
Qed.
(** Claim C7: a contribution from a shared (DSO) symbol never changes the
    effective visibility of a symbol: after a call of [addShared] every
    symbol of the table has the visibility it had before the call (the
    visibility field is two bits wide); and the call does return on a
    table whose symbols have bodies and whose registry holds the DSO. *)
Theorem addShared_keeps_visibility F Name Sym Verdef st :
  (forall st' N Sy,
     addShared E F Name Sym Verdef st = Done (tt, st') ->
     Symtab st !! N = Some Sy -> 0 <= Visibility Sy < 4 ->
     exists S', Symtab st' !! N = Some S' /\ Visibility S' = Visibility Sy) /\
  ((forall Sy, Symtab st !! Name = Some Sy -> is_Some (Body Sy)) ->
   is_Some (SharedFiles st !! fp_index F) ->
   exists st', addShared E F Name Sym Verdef st = Done (tt, st')).
Proof.
  split; [|apply addShared_returns].
  intros st' N Sy Hrun HN Hvis.
  destruct (addShared_Symtab F Name Sym Verdef st st' Hrun) as (S' & HS & HV).
  rewrite HS. destruct (decide (Name = N)) as [->|Hne].
  - rewrite lookup_insert_eq. eexists; split; [reflexivity|].
    rewrite HV, HN, getMinVisibility_default. by apply land_3_small.
  - rewrite lookup_insert_ne by done. eauto.
Qed.

End SharedSymbols.

(** ** Defined symbols: the precedence verdict and [addRegular] *)

Section Definitions_.

Variable E : Env.

Implicit Types (st : SymbolTable) (N Name : string) (B : SymbolBody).

Lemma compareDefined_fresh N b st : compareDefined N true b st = Done (1, st).
Proof. reflexivity. Qed.

Lemma compareDefined_existing N b st Sy B :
  Symtab st !! N = Some Sy -> Body Sy = Some B ->
  compareDefined N false b st = Done (definedVerdict Sy B b, st).
Proof.
  intros HN HB. unfold compareDefined, definedVerdict. mrun.
  rewrite HN. mrun. rewrite HB. mrun.
  destruct (_ || _); mrun; [done|].
  destruct (b =? STB_WEAK); mrun; [done|].
  rewrite HN. mrun. by destruct (isWeak Sy).
Qed.

Lemma compareDefinedNonCommon_fresh N b st Sy :
  Symtab st !! N = Some Sy ->
  compareDefinedNonCommon E N true b st =
    Done (1, with_Symtab (fun m => <[N := set_Binding b Sy]> m) st).
Proof.
  intros HN. unfold compareDefinedNonCommon. mrun.
  by rewrite (alter_Some _ _ _ _ HN).
Qed.

Lemma compareDefinedNonCommon_existing N b st Sy B :
  Symtab st !! N = Some Sy -> Body Sy = Some B ->
  exists st1 S1,
    compareDefinedNonCommon E N false b st =
      Done (nonCommonVerdict Sy B b, st1) /\
    Symtab st1 = <[N := S1]> (Symtab st) /\
    Body S1 = Some B /\
    Binding S1 = (if definedVerdict Sy B b >? 0 then b else Binding Sy) /\
    Visibility S1 = Visibility Sy /\
    SymVector st1 = SymVector st /\
    Diagnostics st1 = Diagnostics st ++
      (if (definedVerdict Sy B b =? 0) && Body.isCommon B &&
          Config.WarnCommon (Config E)
       then [Warning ("common " +:+ Body.getName B +:+ " is overridden")]
       else []) /\
    sameFiles st st1.
Proof.
  intros HN HB. unfold compareDefinedNonCommon, nonCommonVerdict.
  mstep (compareDefined_existing N b st Sy B HN HB). mrun.
  destruct (definedVerdict Sy B b =? 0) eqn:H0; mrun.
  - apply Z.eqb_eq in H0. rewrite H0. mrun. rewrite HN. mrun. rewrite HB. mrun.
    destruct (Body.isCommon B); mrun.
    + destruct (Config.WarnCommon (Config E)); mrun.
      all: eexists _, Sy; split; [reflexivity|]; mrun.
      all: rewrite ?app_nil_r, (insert_id _ _ _ HN); by repeat split.
    + eexists _, Sy; split; [reflexivity|].
      rewrite ?app_nil_r, (insert_id _ _ _ HN); by repeat split.
  - destruct (definedVerdict Sy B b >? 0) eqn:Hpos; mrun.
    + eexists _, _; split; [reflexivity|]; mrun.
      rewrite (alter_Some _ _ _ _ HN), ?app_nil_r. by repeat split.
    + eexists _, Sy; split; [reflexivity|].
      rewrite ?app_nil_r, (insert_id _ _ _ HN); by repeat split.
Qed.

Lemma reportDuplicate_Done B NewFile st :
  reportDuplicate E B NewFile st =
    Done (tt, with_Diagnostics (fun d => d ++ [duplicateSymbol E B NewFile]) st).
Proof.
  unfold reportDuplicate, duplicateSymbol.
  by destruct (Config.AllowMultipleDefinition (Config E)).
Qed.

Lemma addRegular_fresh N Sym Sec st :
  Symtab st !! N = None ->
  exists st' S',
    addRegular E N Sym Sec st = Done (N, st') /\
    Symtab st' = <[N := S']> (Symtab st) /\
    Body S' = Some (mkDefinedRegular N Sym Sec) /\
    Binding S' = getBinding Sym.
Proof.
  intros HN. unfold addRegular.
  destruct (insertWith_fresh E N (getType Sym) (getVisibility Sym) false true
              (sectionFile Sec) st HN)
    as (st1 & S1 & Hrun & HS & HB1 & Hb1 & HV1 & _).
  mstep Hrun.
  assert (HN1 : Symtab st1 !! N = Some S1) by (by rewrite HS, lookup_insert_eq).
  mstep (compareDefinedNonCommon_fresh N (getBinding Sym) st1 S1 HN1). mrun.
  eexists _, _; split; [reflexivity|]. mrun.
  rewrite alter_insert_eq, HS, insert_insert_eq. by repeat split.
Qed.

Lemma addRegular_uninit N Sym Sec st Sy :
  Symtab st !! N = Some Sy -> Body Sy = None ->
  addRegular E N Sym Sec st = Crash.
Proof.
  intros HN HB. unfold addRegular. unfold bind at 1.
  by rewrite (insertWith_uninit E N _ _ _ _ _ st Sy HN HB).
Qed.

(** [addRegular] on a symbol that exists, when the verdict is not a
    conflict or the section is not null. *)
Lemma addRegular_existing N Sym Sec st Sy B :
  Symtab st !! N = Some Sy -> Body Sy = Some B ->
  (nonCommonVerdict Sy B (getBinding Sym) = 0 -> is_Some Sec) ->
  exists st' S',
    addRegular E N Sym Sec st = Done (N, st') /\
    Symtab st' = <[N := S']> (Symtab st) /\
    Body S' =
      Some (if nonCommonVerdict Sy B (getBinding Sym) >? 0
            then mkDefinedRegular N Sym Sec else B) /\
    Binding S' =
      (if definedVerdict Sy B (getBinding Sym) >? 0
       then getBinding Sym else Binding Sy) /\
    Diagnostics st' = Diagnostics st ++
      tlsMismatch E B (getType Sym) (sectionFile Sec) ++
      commonOverridden E Sy B (getBinding Sym) ++
      (if nonCommonVerdict Sy B (getBinding Sym) =? 0
       then [duplicateSymbol E B (sectionFile Sec)] else []) /\
    sameFiles st st'.
Proof.
  intros HN HB HSec. unfold addRegular.
  destruct (insertWith_existing E N (getType Sym) (getVisibility Sym) false true
              (sectionFile Sec) st Sy B HN HB)
    as (st1 & S1 & Hrun & HS & HB1 & Hb1 & HV1 & _ & _ & HD1 & HF1).
  mstep Hrun.
  assert (HN1 : Symtab st1 !! N = Some S1) by (by rewrite HS, lookup_insert_eq).
  destruct (compareDefinedNonCommon_existing N (getBinding Sym) st1 S1 B HN1 HB1)
    as (st2 & S2 & Hrun2 & HS2 & HB2 & Hb2 & HV2 & _ & HD2 & HF2).
  assert (Hd : definedVerdict S1 B (getBinding Sym) =
               definedVerdict Sy B (getBinding Sym)).
  { unfold definedVerdict, isWeak. by rewrite Hb1. }
  assert (Hn : nonCommonVerdict S1 B (getBinding Sym) =
               nonCommonVerdict Sy B (getBinding Sym)).
  { unfold nonCommonVerdict. by rewrite Hd. }
  rewrite Hn in Hrun2. rewrite Hd in Hb2, HD2.
  mstep Hrun2. mrun.
  assert (HN2 : Symtab st2 !! N = Some S2) by (by rewrite HS2, lookup_insert_eq).
  fold (tlsMismatch E B (getType Sym) (sectionFile Sec)) in HD1.
  fold (commonOverridden E Sy B (getBinding Sym)) in HD2.
  destruct (nonCommonVerdict Sy B (getBinding Sym) >? 0) eqn:Hpos; mrun.
  - assert ((nonCommonVerdict Sy B (getBinding Sym) =? 0) = false) as ->
      by (apply Z.eqb_neq; apply Z.gtb_lt in Hpos; lia).
    eexists _, _; split; [reflexivity|]. mrun.
    split; [by rewrite (alter_Some _ _ _ _ HN2), HS2, HS, !insert_insert_eq|].
    mrun. rewrite HD2, HD1, app_nil_r, <- app_assoc, Hb2, Hb1.
    conjs; try done; files.
  - destruct (nonCommonVerdict Sy B (getBinding Sym) =? 0) eqn:H0; mrun.
    + rewrite HN2. mrun. rewrite HB2. mrun.
      apply Z.eqb_eq in H0. destruct (HSec H0) as [Sec' ->]. mrun.
      rewrite reportDuplicate_Done. mrun.
      eexists _, S2; split; [reflexivity|]. mrun.
      rewrite HS2, HS, !insert_insert_eq, HD2, HD1, <- !app_assoc, Hb2, Hb1.
      conjs; try done; files.
    + eexists _, S2; split; [reflexivity|].
      rewrite HS2, HS, !insert_insert_eq, HD2, HD1, app_nil_r, <- !app_assoc,
        Hb2, Hb1.
      conjs; try done; files.
Qed.

(** A conflicting definition without a section: the call dereferences the
    null section pointer. *)
Lemma addRegular_conflict_null N Sym st Sy B :
  Symtab st !! N = Some Sy -> Body Sy = Some B ->
  nonCommonVerdict Sy B (getBinding Sym) = 0 ->
  addRegular E N Sym None st = Crash.
Proof.
  intros HN HB H0. unfold addRegular.
  destruct (insertWith_existing E N (getType Sym) (getVisibility Sym) false true
              None st Sy B HN HB)
    as (st1 & S1 & Hrun & HS & HB1 & Hb1 & HV1 & _ & _ & HD1 & HF1).
  mstep Hrun.
  assert (HN1 : Symtab st1 !! N = Some S1) by (by rewrite HS, lookup_insert_eq).
  destruct (compareDefinedNonCommon_existing N (getBinding Sym) st1 S1 B HN1 HB1)
    as (st2 & S2 & Hrun2 & HS2 & HB2 & Hb2 & HV2 & _ & HD2 & HF2).
  assert (Hn : nonCommonVerdict S1 B (getBinding Sym) = 0).
  { rewrite <- H0. unfold nonCommonVerdict, definedVerdict, isWeak. by rewrite Hb1. }
  rewrite Hn in Hrun2. mstep Hrun2. mrun.
  rewrite HS2, lookup_insert_eq. mrun. by rewrite HB2.
Qed.

Lemma definedVerdict_ext S1 S2 B b :
  Binding S1 = Binding S2 -> definedVerdict S1 B b = definedVerdict S2 B b.
Proof. intros H. unfold definedVerdict, isWeak. by rewrite H. Qed.

Lemma nonCommonVerdict_ext S1 S2 B b :
  Binding S1 = Binding S2 -> nonCommonVerdict S1 B b = nonCommonVerdict S2 B b.
Proof.
  intros H. unfold nonCommonVerdict. by rewrite (definedVerdict_ext S1 S2 B b H).
Qed.

(** The slot of [N] after [addRegular] on a symbol that exists: either the
    call runs into the null section of a conflicting definition, or it
    returns with the body and the binding the verdict selects. *)
Lemma addRegular_slot N Sym Sec st Sy B :
  Symtab st !! N = Some Sy -> Body Sy = Some B ->
  (nonCommonVerdict Sy B (getBinding Sym) = 0 /\ Sec = None /\
   addRegular E N Sym Sec st = Crash) \/
  (exists st' S',
     addRegular E N Sym Sec st = Done (N, st') /\
     Symtab st' !! N = Some S' /\
     Body S' =
       Some (if nonCommonVerdict Sy B (getBinding Sym) >? 0
             then mkDefinedRegular N Sym Sec else B) /\
     Binding S' =
       (if definedVerdict Sy B (getBinding Sym) >? 0
        then getBinding Sym else Binding Sy)).
Proof.
  intros HN HB.
  destruct (decide (nonCommonVerdict Sy B (getBinding Sym) = 0)) as [H0|H0];
    [destruct Sec as [Sec|]|].
  - right.
    destruct (addRegular_existing N Sym (Some Sec) st Sy B HN HB)
      as (st' & S' & Hrun & HS & HB' & Hb' & _); [eauto|].
    exists st', S'. by rewrite HS, lookup_insert_eq.
  - left. eauto using addRegular_conflict_null.
  - right.
    destruct (addRegular_existing N Sym Sec st Sy B HN HB)
      as (st' & S' & Hrun & HS & HB' & Hb' & _); [done|].
    exists st', S'. by rewrite HS, lookup_insert_eq.
Qed.

Lemma regular_not_fetching N Sym Sec :
  Body.isLazy (mkDefinedRegular N Sym Sec) ||
  Body.isUndefined (mkDefinedRegular N Sym Sec) ||
  Body.isShared (mkDefinedRegular N Sym Sec) = false.
Proof. reflexivity. Qed.

(** A weak definition never displaces a definition. *)
Lemma nonCommonVerdict_weak Sy B :
  Body.isLazy B || Body.isUndefined B || Body.isShared B = false ->
  nonCommonVerdict Sy B STB_WEAK = -1 /\ definedVerdict Sy B STB_WEAK = -1.
Proof. intros H. unfold nonCommonVerdict, definedVerdict. by rewrite H. Qed.

Lemma payload_bind {X Y} N (m : M X) (k : X -> M Y) st a st1 :
  m st = Done (a, st1) -> payload N (bind m k st) = payload N (k a st1).
Proof. intros H. by rewrite (bind_Done _ _ _ _ _ H). Qed.

Lemma payload_bind_Crash {X Y} N (m : M X) (k : X -> M Y) st :
  m st = Crash -> payload N (bind m k st) = Crash.
Proof. intros H. unfold bind. by rewrite H. Qed.

(** Claim C2: a strong definition of A from one file and a weak definition
    of A from another leave the same payload in the slot of A whichever of
    the two is inserted first; on a table that does not know A yet that
    payload is the strong definition. *)
Theorem weak_strong_order_independent A Sym1 Sec1 Sym2 Sec2 st :
  getBinding Sym1 <> STB_WEAK -> getBinding Sym2 = STB_WEAK ->
  payload A ((addRegular E A Sym1 Sec1 ;; addRegular E A Sym2 Sec2) st) =
  payload A ((addRegular E A Sym2 Sec2 ;; addRegular E A Sym1 Sec1) st) /\
  (Symtab st !! A = None ->
   payload A ((addRegular E A Sym1 Sec1 ;; addRegular E A Sym2 Sec2) st) =
   Done (Some (Some (mkDefinedRegular A Sym1 Sec1)))).
Proof.
  intros Hstrong Hweak.
  assert (Hs : (getBinding Sym1 =? STB_WEAK) = false) by by apply Z.eqb_neq.
  destruct (Symtab st !! A) as [Sy|] eqn:HA.
  - split; [|done].
    destruct (Body Sy) as [B|] eqn:HB.
    2: { rewrite !(payload_bind_Crash A); eauto using addRegular_uninit. }
    destruct (Body.isLazy B || Body.isUndefined B || Body.isShared B) eqn:HLUS.
    + (* the record is a reference or a promise: both definitions win *)
      assert (Hd : forall b, definedVerdict Sy B b = 1)
        by (intros b; unfold definedVerdict; by rewrite HLUS).
      assert (Hn : forall b, nonCommonVerdict Sy B b = 1)
        by (intros b; unfold nonCommonVerdict; by rewrite Hd).
      destruct (addRegular_slot A Sym1 Sec1 st Sy B HA HB)
        as [(H0 & _)|(st1 & S1 & Hrun1 & HS1 & HB1 & Hb1)];
        [rewrite Hn in H0; done|].
      destruct (addRegular_slot A Sym2 Sec2 st Sy B HA HB)
        as [(H0 & _)|(st2 & S2 & Hrun2 & HS2 & HB2 & Hb2)];
        [rewrite Hn in H0; done|].
      rewrite Hn in HB1, HB2. rewrite Hd in Hb1, Hb2. simpl in HB1, HB2, Hb1, Hb2.
      rewrite (payload_bind A _ _ _ _ _ Hrun1), (payload_bind A _ _ _ _ _ Hrun2).
      destruct (nonCommonVerdict_weak S1 (mkDefinedRegular A Sym1 Sec1)
                  (regular_not_fetching _ _ _)) as [Hn1 Hd1].
      destruct (addRegular_slot A Sym2 Sec2 st1 S1 _ HS1 HB1)
        as [(H0 & _)|(st1' & S1' & Hrun1' & HS1' & HB1' & _)];
        [rewrite Hweak, Hn1 in H0; done|].
      rewrite Hweak, Hn1 in HB1'. simpl in HB1'.
      assert (Hn2 : nonCommonVerdict S2 (mkDefinedRegular A Sym2 Sec2)
                      (getBinding Sym1) = 1).
      { unfold nonCommonVerdict, definedVerdict, isWeak.
        rewrite regular_not_fetching, Hs, Hb2, Hweak. reflexivity. }
      destruct (addRegular_slot A Sym1 Sec1 st2 S2 _ HS2 HB2)
        as [(H0 & _)|(st2' & S2' & Hrun2' & HS2' & HB2' & _)];
        [rewrite Hn2 in H0; done|].
      rewrite Hn2 in HB2'. simpl in HB2'.
      rewrite Hrun1', Hrun2'. simpl. rewrite HS1', HS2'. simpl.
      by rewrite HB1', HB2'.
    + (* the record is a definition: the weak one is discarded *)
      destruct (nonCommonVerdict_weak Sy B HLUS) as [Hnw Hdw].
      destruct (addRegular_slot A Sym2 Sec2 st Sy B HA HB)
        as [(H0 & _)|(st2 & S2 & Hrun2 & HS2 & HB2 & Hb2)];
        [rewrite Hweak, Hnw in H0; done|].
      rewrite Hweak, Hnw in HB2. rewrite Hweak, Hdw in Hb2.
      simpl in HB2, Hb2.
      rewrite (payload_bind A _ _ _ _ _ Hrun2).
      destruct (addRegular_slot A Sym1 Sec1 st Sy B HA HB)
        as [(H0 & HSec & Hrun1)|(st1 & S1 & Hrun1 & HS1 & HB1 & Hb1)];
        destruct (addRegular_slot A Sym1 Sec1 st2 S2 B HS2 HB2)
        as [(H0' & HSec' & Hrun2')|(st2' & S2' & Hrun2' & HS2' & HB2' & Hb2')];
        rewrite ?(nonCommonVerdict_ext S2 Sy B _ Hb2) in *.
      * rewrite (payload_bind_Crash A _ _ _ Hrun1). by rewrite Hrun2'.
      * subst Sec1.
        rewrite (addRegular_conflict_null A Sym1 st2 S2 B HS2 HB2) in Hrun2';
          [done|by rewrite (nonCommonVerdict_ext S2 Sy B _ Hb2)].
      * subst Sec1.
        rewrite (addRegular_conflict_null A Sym1 st Sy B HA HB H0') in Hrun1.
        done.
      * rewrite (payload_bind A _ _ _ _ _ Hrun1), Hrun2'. simpl.
        rewrite HS2'. simpl. rewrite HB2'.
        assert (HLUS1 :
          Body.isLazy (if nonCommonVerdict Sy B (getBinding Sym1) >? 0
                       then mkDefinedRegular A Sym1 Sec1 else B) ||
          Body.isUndefined (if nonCommonVerdict Sy B (getBinding Sym1) >? 0
                            then mkDefinedRegular A Sym1 Sec1 else B) ||
          Body.isShared (if nonCommonVerdict Sy B (getBinding Sym1) >? 0
                         then mkDefinedRegular A Sym1 Sec1 else B) = false).
        { by destruct (_ >? 0). }
        destruct (nonCommonVerdict_weak S1 _ HLUS1) as [Hn1 Hd1].
        destruct (addRegular_slot A Sym2 Sec2 st1 S1 _ HS1 HB1)
          as [(H0 & _)|(st1' & S1' & Hrun1' & HS1' & HB1' & _)];
          [rewrite Hweak, Hn1 in H0; done|].
        rewrite Hweak, Hn1 in HB1'. simpl in HB1'.
        rewrite Hrun1'. simpl. rewrite HS1'. simpl. by rewrite HB1'.
  - destruct (addRegular_fresh A Sym1 Sec1 st HA)
      as (st1 & S1 & Hrun1 & HS1 & HB1 & Hb1).
    destruct (addRegular_fresh A Sym2 Sec2 st HA)
      as (st2 & S2 & Hrun2 & HS2 & HB2 & Hb2).
    assert (HN1 : Symtab st1 !! A = Some S1) by by rewrite HS1, lookup_insert_eq.
    assert (HN2 : Symtab st2 !! A = Some S2) by by rewrite HS2, lookup_insert_eq.
    rewrite (payload_bind A _ _ _ _ _ Hrun1), (payload_bind A _ _ _ _ _ Hrun2).
    destruct (nonCommonVerdict_weak S1 (mkDefinedRegular A Sym1 Sec1)
                (regular_not_fetching _ _ _)) as [Hn1 Hd1].
    destruct (addRegular_slot A Sym2 Sec2 st1 S1 _ HN1 HB1)
      as [(H0 & _)|(st1' & S1' & Hrun1' & HS1' & HB1' & _)];
      [rewrite Hweak, Hn1 in H0; done|].
    rewrite Hweak, Hn1 in HB1'. simpl in HB1'.
    assert (Hn2 : nonCommonVerdict S2 (mkDefinedRegular A Sym2 Sec2)
                    (getBinding Sym1) = 1).
    { unfold nonCommonVerdict, definedVerdict, isWeak.
      rewrite regular_not_fetching, Hs, Hb2, Hweak. reflexivity. }
    destruct (addRegular_slot A Sym1 Sec1 st2 S2 _ HN2 HB2)
      as [(H0 & _)|(st2' & S2' & Hrun2' & HS2' & HB2' & _)];
      [rewrite Hn2 in H0; done|].
    rewrite Hn2 in HB2'. simpl in HB2'.
    rewrite Hrun1', Hrun2'. simpl. rewrite HS1', HS2'. simpl.
    by rewrite HB1', HB2'.
Qed.

End Definitions_.

(** ** Duplicate definitions *)

Section Duplicates.

Variable E : Env.

Implicit Types (st : SymbolTable) (N Name : string) (B : SymbolBody).

Lemma nonCommonVerdict_conflict Sy B b :
  nonCommonVerdict Sy B b = 0 <->
  Body.isLazy B || Body.isUndefined B || Body.isShared B = false /\
  b <> STB_WEAK /\ isWeak Sy = false /\ Body.isCommon B = false.
Proof.
  unfold nonCommonVerdict, definedVerdict.
  destruct (_ || _); [simpl; split; [done|by intros (?&_)]|].
  destruct (b =? STB_WEAK) eqn:Hb;
    [apply Z.eqb_eq in Hb; simpl; split; [done|by intros (_&?&_)]|].
  apply Z.eqb_neq in Hb.
  destruct (isWeak Sy); [simpl; split; [done|by intros (_&_&?&_)]|].
  simpl. destruct (Body.isCommon B); split; try done. by intros (_&_&_&?).
Qed.

(** Two strong non-common definitions, the second one bound to a section:
    the diagnostic is emitted and the first definition stays. *)
Lemma addRegular_duplicate N Sym Sec st Sy B :
  Symtab st !! N = Some Sy -> Body Sy = Some B ->
  nonCommonVerdict Sy B (getBinding Sym) = 0 ->
  exists st' S',
    addRegular E N Sym (Some Sec) st = Done (N, st') /\
    Symtab st' !! N = Some S' /\
    Body S' = Some B /\ Binding S' = Binding Sy /\
    Diagnostics st' = Diagnostics st ++
      tlsMismatch E B (getType Sym) (Some (sec_file Sec)) ++
      [if Config.AllowMultipleDefinition (Config E)
       then Warning ("duplicate symbol: " +:+ demangle E (Body.getName B) +:+
                     " in " +:+ getFilename E (Body.getSourceFile B) +:+
                     " and " +:+ getFilename E (Some (sec_file Sec)))
       else Error ("duplicate symbol: " +:+ demangle E (Body.getName B) +:+
                   " in " +:+ getFilename E (Body.getSourceFile B) +:+
                   " and " +:+ getFilename E (Some (sec_file Sec)))].
Proof.
  intros HN HB H0.
  destruct (addRegular_existing E N Sym (Some Sec) st Sy B HN HB)
    as (st' & S' & Hrun & HS & HB' & Hb' & HD & _); [eauto|].
  exists st', S'. rewrite HS, lookup_insert_eq, HB', Hb', HD, H0.
  assert (Hd : definedVerdict Sy B (getBinding Sym) = 0).
  { revert H0. unfold nonCommonVerdict.
    destruct (definedVerdict Sy B (getBinding Sym) =? 0) eqn:Hz;
      [by apply Z.eqb_eq in Hz|by apply Z.eqb_neq in Hz]. }
  apply nonCommonVerdict_conflict in H0 as (_ & _ & _ & Hc).
  unfold commonOverridden, duplicateSymbol, conflictMsg.
  rewrite Hd, Hc. simpl.
  by conjs.
Qed.
End Duplicates.

(** Claim C1, at the failing input: a second strong definition of [bar]
    that has no section (an absolute symbol) does not report the
    duplicate, the call dereferences the null section. *)
Theorem duplicate_absolute_symbol_crashes :
  addRegular Examples.env "bar" Examples.strong None
    (Examples.after
       (addRegular Examples.env "bar" Examples.strong (Some Examples.sec1))) =
  Crash.
Proof. vm_compute. reflexivity. Qed.

Lemma duplicate_with_section_reports :
  Diagnostics
    (Examples.after
       (addRegular Examples.env "bar" Examples.strong (Some Examples.sec1) ;;
        addRegular Examples.env "bar" Examples.strong (Some Examples.sec2))) =
  [Error "duplicate symbol: bar in F1 and F2"].
Proof. vm_compute. reflexivity. Qed.

(** ** Common symbols *)

Section Commons.

Variable E : Env.

Implicit Types (st : SymbolTable) (N Name : string) (B : SymbolBody).

(** Two non-weak commons merge: the larger size and the larger alignment
    are kept. *)
Lemma addCommon_merge N Size Alignment b StOther Ty File st Sy
    CN CSize CAlignment CStOther CType :
  Symtab st !! N = Some Sy ->
  Body Sy = Some (DefinedCommon CN CSize CAlignment CStOther CType) ->
  isWeak Sy = false -> b <> STB_WEAK ->
  exists st' S',
    addCommon E N Size Alignment b StOther Ty File st = Done (N, st') /\
    Symtab st' = <[N := S']> (Symtab st) /\
    Body S' = Some (DefinedCommon CN (Z.max CSize Size)
                      (Z.max CAlignment Alignment) CStOther CType) /\
    Binding S' = Binding Sy.
Proof.
  intros HN HB Hw Hb. unfold addCommon.
  destruct (insertWith_existing E N Ty (Z.land StOther 3) false true File
              st Sy _ HN HB)
    as (st1 & S1 & Hrun & HS & HB1 & Hb1 & _).
  mstep Hrun.
  assert (HN1 : Symtab st1 !! N = Some S1) by (by rewrite HS, lookup_insert_eq).
  mstep (compareDefined_existing N b st1 S1 _ HN1 HB1).
  assert (Hd : definedVerdict S1 (DefinedCommon CN CSize CAlignment CStOther CType) b = 0).
  { unfold definedVerdict, isWeak in *. simpl. rewrite Hb1, Hw.
    by apply Z.eqb_neq in Hb as ->. }
  rewrite Hd. mrun. rewrite HN1. mrun. rewrite HB1. mrun.
  destruct (Config.WarnCommon (Config E)); mrun.
  all: eexists _, _; split; [reflexivity|]; mrun.
  all: split; [by rewrite (alter_Some _ _ _ _ HN1), HS, insert_insert_eq|].
  all: by mrun.
Qed.

(** A weak common never changes a common that is there. *)
Lemma addCommon_weak_discarded N Size Alignment StOther Ty File st Sy
    CN CSize CAlignment CStOther CType :
  Symtab st !! N = Some Sy ->
  Body Sy = Some (DefinedCommon CN CSize CAlignment CStOther CType) ->
  exists st' S',
    addCommon E N Size Alignment STB_WEAK StOther Ty File st = Done (N, st') /\
    Symtab st' = <[N := S']> (Symtab st) /\
    Body S' = Some (DefinedCommon CN CSize CAlignment CStOther CType) /\
    Binding S' = Binding Sy.
Proof.
  intros HN HB. unfold addCommon.
  destruct (insertWith_existing E N Ty (Z.land StOther 3) false true File
              st Sy _ HN HB)
    as (st1 & S1 & Hrun & HS & HB1 & Hb1 & _).
  mstep Hrun.
  assert (HN1 : Symtab st1 !! N = Some S1) by (by rewrite HS, lookup_insert_eq).
  mstep (compareDefined_existing N STB_WEAK st1 S1 _ HN1 HB1). mrun.
  by exists st1, S1.
Qed.

(** A non-weak common replaces the common of a weak symbol. *)
Lemma addCommon_replaces_weak N Size Alignment b StOther Ty File st Sy
    CN CSize CAlignment CStOther CType :
  Symtab st !! N = Some Sy ->
  Body Sy = Some (DefinedCommon CN CSize CAlignment CStOther CType) ->
  isWeak Sy = true -> b <> STB_WEAK ->
  exists st' S',
    addCommon E N Size Alignment b StOther Ty File st = Done (N, st') /\
    Symtab st' = <[N := S']> (Symtab st) /\
    Body S' = Some (DefinedCommon N Size Alignment StOther Ty) /\
    Binding S' = b.
Proof.
  intros HN HB Hw Hb. unfold addCommon.
  destruct (insertWith_existing E N Ty (Z.land StOther 3) false true File
              st Sy _ HN HB)
    as (st1 & S1 & Hrun & HS & HB1 & Hb1 & _).
  mstep Hrun.
  assert (HN1 : Symtab st1 !! N = Some S1) by (by rewrite HS, lookup_insert_eq).
  mstep (compareDefined_existing N b st1 S1 _ HN1 HB1).
  assert (Hd : definedVerdict S1 (DefinedCommon CN CSize CAlignment CStOther CType) b = 1).
  { unfold definedVerdict, isWeak in *. simpl. rewrite Hb1, Hw.
    by apply Z.eqb_neq in Hb as ->. }
  rewrite Hd. mrun.
  eexists _, _; split; [reflexivity|]; mrun.
  split; [by rewrite (alter_Some _ _ _ _ HN1), alter_insert_eq, HS, insert_insert_eq|].
  by mrun.
Qed.

(** Claim C4 (amended): on a symbol that holds a Common and is not weak, a
    Common with a non-weak binding is merged, the stored size becomes the
    maximum of the two sizes and the stored alignment the maximum of the
    two alignments; consequently, over any sequence of non-weak Common
    contributions the symbol keeps the maximum size and the maximum
    alignment seen. *)
Theorem common_merge_keeps_maximum N (l : list CommonContribution) st Sy
    CN CSize CAlignment CStOther CType :
  Symtab st !! N = Some Sy ->
  Body Sy = Some (DefinedCommon CN CSize CAlignment CStOther CType) ->
  isWeak Sy = false ->
  Forall (fun c => cc_binding c <> STB_WEAK) l ->
  exists st' S',
    addCommons E N l st = Done (tt, st') /\
    Symtab st' !! N = Some S' /\
    Body S' =
      Some (DefinedCommon CN
              (fold_left Z.max (map cc_size l) CSize)
              (fold_left Z.max (map cc_alignment l) CAlignment)
              CStOther CType) /\
    Binding S' = Binding Sy.
Proof.
  intros HN HB Hw Hl. revert st Sy CSize CAlignment HN HB Hw.
  induction Hl as [|c l Hc Hl IH]; intros st Sy CSize CAlignment HN HB Hw.
  - exists st, Sy. by conjs.
  - destruct (addCommon_merge N (cc_size c) (cc_alignment c) (cc_binding c)
                (cc_other c) (cc_type c) (cc_file c) st Sy
                CN CSize CAlignment CStOther CType HN HB Hw Hc)
      as (st1 & S1 & Hrun & HS & HB1 & Hb1).
    assert (HN1 : Symtab st1 !! N = Some S1) by (by rewrite HS, lookup_insert_eq).
    assert (Hw1 : isWeak S1 = false) by (unfold isWeak in *; by rewrite Hb1).
    destruct (IH st1 S1 _ _ HN1 HB1 Hw1) as (st' & S' & Hrun' & HN' & HB' & Hb').
    exists st', S'. unfold addCommons in *. cbn [forEach].
    mstep (bind_Done _ (fun _ => ret tt) _ _ _ Hrun). mrun.
    rewrite Hrun'. conjs; try done. congruence.
Qed.

End Commons.

(** Claim C4, as stated, fails on a weak contribution: a weak Common of
    size 8 and alignment 8 that arrives at a Common of size 4 and alignment
    4 is discarded, the stored size and alignment stay 4. *)
Lemma weak_common_is_not_merged :
  exists st',
    addCommon Examples.env "c" 8 8 STB_WEAK 0 1 (Some Examples.F2)
      (Examples.after
         (addCommon Examples.env "c" 4 4 STB_GLOBAL 0 1 (Some Examples.F1))) =
      Done ("c", st') /\
    Body <$> Symtab st' !! "c" = Some (Some (DefinedCommon "c" 4 4 0 1)) /\
    Z.max 4 8 <> 4.
Proof. eexists. split; [vm_compute; reflexivity|]. split; [reflexivity|done]. Qed.

(** ** A symbol that holds a shared record *)

Section SharedRecord.

Variable E : Env.

Implicit Types (st : SymbolTable) (N Name : string) (B : SymbolBody).

(** An undefined reference never replaces a shared record; a non-weak one
    takes over the binding and marks the DSO as used. *)
Lemma addUndefined_on_shared load N b StOther Ty Omit File st Sy
    F0 N0 Sym0 V0 f0 :
  Symtab st !! N = Some Sy ->
  Body Sy = Some (SharedSymbol F0 N0 Sym0 V0) ->
  SharedFiles st !! fp_index F0 = Some f0 ->
  exists st' S',
    addUndefined E load N b StOther Ty Omit File st = Done (N, st') /\
    Symtab st' = <[N := S']> (Symtab st) /\
    Body S' = Some (SharedSymbol F0 N0 Sym0 V0) /\
    Binding S' = (if b =? STB_WEAK then Binding Sy else b).
Proof.
  intros HN HB HF0. unfold addUndefined.
  destruct (insertWith_existing E N Ty (Z.land StOther 3) Omit
              (isNull File || negb (isaBitcodeFile File)) File st Sy _ HN HB)
    as (st1 & S1 & Hrun & HS & HB1 & Hb1 & _ & _ & _ & _ & HF1).
  mstep Hrun.
  assert (HN1 : Symtab st1 !! N = Some S1) by (by rewrite HS, lookup_insert_eq).
  assert (HF0' : SharedFiles st1 !! fp_index F0 = Some f0).
  { destruct HF1 as (_&_&_&->&_). done. }
  destruct (b =? STB_WEAK); mrun.
  - rewrite HN1. mrun. rewrite HB1. mrun. by exists st1, S1.
  - rewrite HN1. mrun. rewrite HB1. mrun.
    rewrite (markUsed_Done F0 _ f0) by done. mrun.
    rewrite lookup_alter_eq, HN1. mrun. rewrite HB1. mrun.
    eexists _, _; split; [reflexivity|]. mrun.
    split; [by rewrite (alter_Some _ _ _ _ HN1), HS, insert_insert_eq|].
    by mrun.
Qed.

(** A shared symbol never replaces a record that is not an undefined
    reference. *)
Lemma addShared_discarded F N Sym Verdef st Sy B :
  Symtab st !! N = Some Sy -> Body Sy = Some B ->
  Body.isUndefined B = false ->
  exists st' S',
    addShared E F N Sym Verdef st = Done (tt, st') /\
    Symtab st' = <[N := S']> (Symtab st) /\
    Body S' = Some B /\ Binding S' = Binding Sy.
Proof.
  intros HN HB HU. unfold addShared.
  destruct (insertWith_existing E N (getType Sym) STV_DEFAULT true false
              (Some F) st Sy B HN HB)
    as (st1 & S1 & Hrun & HS & HB1 & Hb1 & _).
  mstep Hrun. mrun.
  destruct (getVisibility Sym =? STV_DEFAULT); mrun;
    rewrite ?HS, ?alter_insert_eq, ?lookup_insert_eq; mrun; rewrite HB1; mrun;
    rewrite HU; mrun.
  all: eexists _, _; split; [reflexivity|]; mrun.
  all: rewrite ?HS, ?alter_insert_eq, ?insert_insert_eq.
  all: by conjs.
Qed.

(** A lazy symbol is dropped when the name holds anything but an undefined
    reference. *)
Lemma addLazyArchive_discarded load F Sym st Sy B :
  Symtab st !! as_name Sym = Some Sy -> Body Sy = Some B ->
  Body.isUndefined B = false ->
  addLazyArchive E load F Sym st = Done (tt, st).
Proof.
  intros HN HB HU. unfold addLazyArchive.
  mstep (insert_existing E _ st Sy HN). mrun.
  rewrite HN. mrun. rewrite HB. mrun. by rewrite HU.
Qed.

Lemma addLazyObject_discarded load N Obj st Sy B :
  Symtab st !! N = Some Sy -> Body Sy = Some B ->
  Body.isUndefined B = false ->
  addLazyObject E load N Obj st = Done (tt, st).
Proof.
  intros HN HB HU. unfold addLazyObject.
  mstep (insert_existing E _ st Sy HN). mrun.
  rewrite HN. mrun. rewrite HB. mrun. by rewrite HU.
Qed.

(** Claim C6: on a symbol whose record is Shared, an incoming weak
    definition gets the verdict +1 and replaces the record, while an
    incoming undefined reference, an incoming shared symbol and an incoming
    lazy symbol leave the record in place. *)
Theorem shared_record_precedence load N st Sy F0 N0 Sym0 V0 f0 :
  Symtab st !! N = Some Sy ->
  Body Sy = Some (SharedSymbol F0 N0 Sym0 V0) ->
  SharedFiles st !! fp_index F0 = Some f0 ->
  (* weak definition *)
  compareDefined N false STB_WEAK st = Done (1, st) /\
  (forall Sym Sec, getBinding Sym = STB_WEAK ->
     payload N (addRegular E N Sym Sec st) =
       Done (Some (Some (mkDefinedRegular N Sym Sec)))) /\
  (* undefined reference *)
  (forall b StOther Ty Omit File,
     payload N (addUndefined E load N b StOther Ty Omit File st) =
       Done (Some (Some (SharedSymbol F0 N0 Sym0 V0)))) /\
  (* shared symbol *)
  (forall F Sym Verdef,
     payload N (addShared E F N Sym Verdef st) =
       Done (Some (Some (SharedSymbol F0 N0 Sym0 V0)))) /\
  (* lazy symbol *)
  (forall F Sym, as_name Sym = N ->
     addLazyArchive E load F Sym st = Done (tt, st)) /\
  (forall Obj, addLazyObject E load N Obj st = Done (tt, st)).
Proof.
  intros HN HB HF0. conjs.
  - by rewrite (compareDefined_existing N STB_WEAK st Sy _ HN HB).
  - intros Sym Sec Hw.
    destruct (addRegular_existing E N Sym Sec st Sy _ HN HB)
      as (st' & S' & Hrun & HS & HB' & _); [by rewrite Hw|].
    rewrite Hrun. simpl. rewrite HS, lookup_insert_eq. simpl.
    by rewrite HB', Hw.
  - intros b StOther Ty Omit File.
    destruct (addUndefined_on_shared load N b StOther Ty Omit File st Sy
                F0 N0 Sym0 V0 f0 HN HB HF0) as (st' & S' & Hrun & HS & HB' & _).
    rewrite Hrun. simpl. rewrite HS, lookup_insert_eq. simpl. by rewrite HB'.
  - intros F Sym Verdef.
    destruct (addShared_discarded F N Sym Verdef st Sy _ HN HB)
      as (st' & S' & Hrun & HS & HB' & _); [done|].
    rewrite Hrun. simpl. rewrite HS, lookup_insert_eq. simpl. by rewrite HB'.
  - intros F Sym <-. eapply addLazyArchive_discarded; eauto.
  - intros Obj. eapply addLazyObject_discarded; eauto.
Qed.

End SharedRecord.

(** ** Lazy symbols and undefined references *)

Section LazySymbols.

Variable E : Env.

Implicit Types (st : SymbolTable) (N Name : string) (B : SymbolBody).

(** [Lazy::getFile] touches the registries only. *)
Lemma Lazy_getFile_Symtab L st F st' :
  Lazy_getFile E L st = Done (F, st') ->
  Symtab st' = Symtab st /\ Diagnostics st' = Diagnostics st.
Proof.
  destruct L; try discriminate; unfold Lazy_getFile,
    ArchiveFile_getMember, LazyObjectFile_getBuffer; mrun.
  - destruct (ArchiveFiles st !! _); mrun; [|done].
    destruct (getMember E _ _) as [MBRef Ar']. mrun.
    destruct (isEmpty MBRef); mrun; by intros [= _ <-].
  - destruct (LazyObjectFiles st !! _); mrun; [|done].
    destruct (getBuffer E _) as [MBRef Obj']. mrun.
    destruct (isEmpty MBRef); mrun; by intros [= _ <-].
Qed.

(** The member of a LazyArchive: [getMember] is asked for the symbol, an
    empty buffer gives no file. *)
Lemma Lazy_getFile_archive F Sym Ty st Ar MBRef Ar' :
  ArchiveFiles st !! fp_index F = Some Ar ->
  getMember E Ar Sym = (MBRef, Ar') ->
  Lazy_getFile E (LazyArchive F Sym Ty) st =
    Done (if isEmpty MBRef then None
          else Some (createObjectFile E MBRef (fp_name F)),
          with_ArchiveFiles (fun l => <[fp_index F := Ar']> l) st).
Proof.
  intros HF HM. unfold Lazy_getFile, ArchiveFile_getMember. mrun.
  rewrite HF. mrun. rewrite HM. mrun. by destruct (isEmpty MBRef).
Qed.

(** The buffered object of a LazyObject. *)
Lemma Lazy_getFile_object N F Ty st Obj MBRef Obj' :
  LazyObjectFiles st !! fp_index F = Some Obj ->
  getBuffer E Obj = (MBRef, Obj') ->
  Lazy_getFile E (LazyObject N F Ty) st =
    Done (if isEmpty MBRef then None
          else Some (createObjectFile E MBRef ""),
          with_LazyObjectFiles (fun l => <[fp_index F := Obj']> l) st).
Proof.
  intros HF HM. unfold Lazy_getFile, LazyObjectFile_getBuffer. mrun.
  rewrite HF. mrun. rewrite HM. mrun. by destruct (isEmpty MBRef).
Qed.

(** Claim C3 (amended): on a symbol that holds a lazy record, a non-weak
    undefined reference takes over the binding and loads the file
    [Lazy::getFile] returns for the record, the member of the archive or
    the buffered object (nothing is loaded when the buffer is empty); a
    weak undefined reference to a symbol whose binding is weak keeps the
    lazy record and copies the type of the reference into it. *)
Theorem undefined_reference_to_lazy load N b StOther Ty Omit File st Sy L :
  Symtab st !! N = Some Sy -> Body Sy = Some L -> Body.isLazy L = true ->
  exists st1 S1,
    insertWith E N Ty (Z.land StOther 3) Omit
      (isNull File || negb (isaBitcodeFile File)) File st =
      Done ((N, false), st1) /\
    Symtab st1 !! N = Some S1 /\ Body S1 = Some L /\
    Binding S1 = Binding Sy /\
    (b <> STB_WEAK ->
     addUndefined E load N b StOther Ty Omit File st =
       (F <- Lazy_getFile E L ;;
        match F with
        | Some File' => load File'
        | None => ret tt
        end ;;
        ret N)
         (with_Symtab (fun m => <[N := set_Binding b S1]> m) st1)) /\
    (b <> STB_WEAK -> forall st2,
     Lazy_getFile E L
       (with_Symtab (fun m => <[N := set_Binding b S1]> m) st1) =
       Done (None, st2) ->
     addUndefined E load N b StOther Ty Omit File st = Done (N, st2) /\
     Symtab st2 = <[N := set_Binding b S1]> (Symtab st1)) /\
    (b = STB_WEAK -> isWeak Sy = true ->
     addUndefined E load N b StOther Ty Omit File st =
       Done (N, with_Symtab
                  (fun m => <[N := set_Body (Some (Body.setLazyType Ty L)) S1]> m)
                  st1)).
Proof.
  intros HN HB HL.
  destruct (insertWith_existing E N Ty (Z.land StOther 3) Omit
              (isNull File || negb (isaBitcodeFile File)) File st Sy _ HN HB)
    as (st1 & S1 & Hrun & HS & HB1 & Hb1 & _).
  assert (HN1 : Symtab st1 !! N = Some S1) by (by rewrite HS, lookup_insert_eq).
  assert (Hfetch : b <> STB_WEAK ->
     addUndefined E load N b StOther Ty Omit File st =
       (F <- Lazy_getFile E L ;;
        match F with
        | Some File' => load File'
        | None => ret tt
        end ;;
        ret N)
         (with_Symtab (fun m => <[N := set_Binding b S1]> m) st1)).
  { intros Hb. apply Z.eqb_neq in Hb. unfold addUndefined.
    mstep Hrun. rewrite Hb. mrun. rewrite HN1. mrun. rewrite HB1. mrun.
    rewrite HL, orb_true_r. mrun.
    assert (Hcase : forall st0,
      match L with SharedSymbol F _ _ _ => markUsed F | _ => ret tt end st0 =
      Done (tt, st0)) by (by destruct L).
    rewrite Hcase. mrun. rewrite lookup_alter_eq, HN1. mrun.
    rewrite HB1. mrun. rewrite HL. mrun. rewrite lookup_alter_eq, HN1. mrun.
    unfold isWeak. mrun. rewrite Hb. mrun.
    rewrite (alter_Some _ _ _ _ HN1).
    by destruct (Lazy_getFile E L _) as [[? ?]| |]. }
  exists st1, S1. conjs; try done.
  - intros Hb st2 Hget. rewrite (Hfetch Hb). mstep Hget. mrun.
    split; [done|]. by destruct (Lazy_getFile_Symtab _ _ _ _ Hget) as [-> _].
  - intros -> Hw. unfold addUndefined. mstep Hrun. mrun.
    rewrite HN1. mrun. rewrite HB1. mrun. rewrite HL. mrun. rewrite HN1. mrun.
    unfold isWeak in *. rewrite Hb1, Hw. mrun.
    by rewrite (alter_Some _ _ _ _ HN1).
Qed.

(** A load runs the body of [addFile] with one unit of fuel less for the
    loads nested in it. *)
Lemma addFile_unfold fuel File st :
  addFile E (S fuel) File st = addFileBody E (addFile E fuel) File st.
Proof. reflexivity. Qed.

End LazySymbols.

(** Scenario "lazy fetch via undefined": the archive is inserted, then a
    strong reference to [baz] pulls the member in; the payload of [baz] is
    the Regular definition of the member and the registry holds the archive
    and the member. *)
Example lazy_fetch_via_undefined :
  let load := addFile Examples.env 2 in
  let st :=
    Examples.after
      (load (ArchiveF Examples.archive) ;;
       addUndefined Examples.env load "baz" STB_GLOBAL 0 0 false
         (Some Examples.F1)) in
  Body <$> Symtab st !! "baz" =
    Some (Some (DefinedRegular "baz" 0 0 0x20 4
                  (Some (mkInputSection
                           (mkFilePtr ObjectKind 0 "m.o" "liba.a") 0)))) /\
  length (ArchiveFiles st) = 1%nat /\ length (ObjectFiles st) = 1%nat.
Proof. vm_compute. by conjs. Qed.

(** Claim C3, as stated, fails when the binding of the symbol is no longer
    weak: [qux] is a lazy symbol whose member is an empty buffer; after a
    strong reference (which loads nothing) a weak undefined reference of
    type 2 leaves the lazy record as it is, the type is not copied. *)
Lemma weak_reference_to_strong_lazy :
  let load := addFile Examples.env 2 in
  let st :=
    Examples.after
      (load (ArchiveF Examples.archive) ;;
       addUndefined Examples.env load "qux" STB_GLOBAL 0 0 false None) in
  exists L,
    Body <$> Symtab st !! "qux" = Some (Some L) /\
    Body.isLazy L = true /\
    payload "qux"
      (addUndefined Examples.env load "qux" STB_WEAK 0 2 false None st) =
      Done (Some (Some L)) /\
    Body.setLazyType 2 L <> L.
Proof.
  eexists. split; [vm_compute; reflexivity|].
  split; [reflexivity|]. split; [vm_compute; reflexivity|]. discriminate.
Qed.

(** ** The --wrap pass *)

Section Wrap.

Variable E : Env.

Implicit Types (st : SymbolTable) (N Name : string) (B : SymbolBody).









(** Claim C10: when the name is not in the index the pass does nothing: no
    symbol is created for __real_NAME or __wrap_NAME and the table is
    unchanged. *)
Theorem wrap_unknown_name load Name st :
  Symtab st !! Name = None -> wrap E load Name st = Done (tt, st).
Proof. intros H. unfold wrap, find. mrun. by rewrite H. Qed.

End Wrap.


(** ** Version ids *)

Section VersionIds.

Variable E : Env.

Implicit Types (st : SymbolTable) (N Name : string) (B : SymbolBody).

Lemma append_cons c s t : String c s +:+ t = String c (s +:+ t).
Proof. reflexivity. Qed.

Lemma find_at_app base rest :
  StringRef.find "@" base = None ->
  StringRef.find "@" (base +:+ String "@" rest) = Some (String.length base).
Proof.
  induction base as [|c base IH].
  - done.
  - rewrite append_cons. cbn [StringRef.find String.length].
    destruct (Ascii.eqb c "@"); [done|].
    destruct (StringRef.find "@" base); [done|]. intros _. by rewrite IH.
Qed.

Lemma drop_front_app base rest :
  StringRef.drop_front (String.length base + 1) (base +:+ String "@" rest) = rest.
Proof.
  induction base as [|c base IH].
  - done.
  - rewrite append_cons. exact IH.
Qed.


Lemma startswith_at rest : StringRef.startswith "@" (String "@" rest) = true.
Proof. unfold StringRef.startswith. cbn. by destruct rest. Qed.




End VersionIds.

(** Scenario "version script": the globals [foo*] of the first declared
    version get its id, 2; [bar] keeps the id it was created with. *)
Example version_script_assigns_ids :
  let st :=
    Examples.after
      (addRegular Examples.env "foo1" Examples.strong (Some Examples.sec1) ;;
       addRegular Examples.env "foo2" Examples.strong (Some Examples.sec1) ;;
       addRegular Examples.env "bar" Examples.strong (Some Examples.sec1) ;;
       scanVersionScript Examples.env) in
  VersionId <$> Symtab st !! "foo1" = Some 2 /\
  VersionId <$> Symtab st !! "foo2" = Some 2 /\
  VersionId <$> Symtab st !! "bar" = Some 1.
Proof. vm_compute. by conjs. Qed.


(** ** DSO files are uniquified by soname *)

Section Sonames.

Variable E : Env.

Implicit Types (st : SymbolTable) (N Name : string) (B : SymbolBody).

Lemma preserves_ret {X} I (a : X) : preserves I (ret a).
Proof. by apply hoare_ret. Qed.

Lemma preserves_bind {X Y} I (m : M X) (k : X -> M Y) :
  preserves I m -> (forall a, preserves I (k a)) -> preserves I (bind m k).
Proof. intros Hm Hk. eapply hoare_bind; [exact Hm|exact Hk]. Qed.

Lemma preserves_get I : preserves I get.
Proof. eapply hoare_conseq; [apply hoare_get|done|]. by intros ? ? [_ ?]. Qed.

Lemma preserves_crash {X} I : preserves I (@crash X).
Proof. apply hoare_crash. Qed.

Lemma preserves_deref {X} I (o : option X) : preserves I (deref o).
Proof. eapply hoare_conseq; [apply hoare_deref|done|]. by intros ? ? [_ ?]. Qed.

Lemma preserves_modify I f :
  (forall st, I st -> I (f st)) -> preserves I (modify f).
Proof. apply hoare_modify. Qed.

Lemma preserves_when I b m : preserves I m -> preserves I (when b m).
Proof. intros H. apply hoare_when. auto. Qed.

Lemma preserves_forEach {X} I (f : X -> M unit) l :
  (forall x, preserves I (f x)) -> preserves I (forEach f l).
Proof. intros H. apply hoare_forEach. intros x _. apply H. Qed.

(** Writes that do not touch the DSOs and the sonames. *)
Ltac frame_write :=
  apply preserves_modify; intros ? H; exact H.

Create HintDb sonames.

Ltac pres :=
  repeat first
    [ solve [auto 2 with sonames nocore]
    | apply preserves_ret
    | apply preserves_crash
    | apply preserves_get
    | apply preserves_deref
    | apply preserves_bind; [|intros ?]
    | apply preserves_when
    | apply preserves_forEach; intros ?
    | frame_write
    | assumption
    | match goal with
      | |- preserves _ (if ?b then _ else _) => destruct b
      | |- preserves _ (match ?x with _ => _ end) => destruct x
      | |- preserves _ (let _ := _ in _) => cbv zeta
      end ].

Lemma markUsed_sonameInv F : preserves sonameInv (markUsed F).
Proof.
  intros st [] st' [Hnd Hin]. unfold markUsed. mrun.
  destruct (SharedFiles st !! fp_index F) as [f|] eqn:Hf; mrun; [|done].
  intros [= <-]. unfold sonameInv. mrun.
  assert (Hmap : SoName <$> <[fp_index F:=set_IsUsed true f]> (SharedFiles st) =
                 SoName <$> SharedFiles st).
  { rewrite list_fmap_insert. apply list_insert_id.
    by rewrite list_lookup_fmap, Hf. }
  split; [by rewrite Hmap|].
  intros F' HF'. apply list_elem_of_lookup in HF' as [i Hi].
  destruct (decide (i = fp_index F)) as [->|Hne].
  - rewrite list_lookup_insert_eq in Hi by (by eapply lookup_lt_Some).
    injection Hi as <-. apply (Hin f). by eapply list_elem_of_lookup_2.
  - rewrite list_lookup_insert_ne in Hi by done.
    apply Hin. by eapply list_elem_of_lookup_2.
Qed.
#[local] Hint Resolve markUsed_sonameInv : sonames.

Lemma isCompatible_sonameInv File : preserves sonameInv (isCompatible E File).
Proof.
  unfold isCompatible, error.
  destruct File; pres.
Qed.
#[local] Hint Resolve isCompatible_sonameInv : sonames.

Lemma getVersionId_sonameInv Name : preserves sonameInv (getVersionId E Name).
Proof. unfold getVersionId, error. pres. Qed.
#[local] Hint Resolve getVersionId_sonameInv : sonames.

Lemma insert_sonameInv Name : preserves sonameInv (insert E Name).
Proof. unfold insert. pres. Qed.
#[local] Hint Resolve insert_sonameInv : sonames.

Lemma insertWith_sonameInv Name Ty Vis Omit Used File :
  preserves sonameInv (insertWith E Name Ty Vis Omit Used File).
Proof.
  unfold insertWith, getSymbol, body, modifySymbol, error. pres.
Qed.
#[local] Hint Resolve insertWith_sonameInv : sonames.

Lemma compareDefined_sonameInv S W b : preserves sonameInv (compareDefined S W b).
Proof. unfold compareDefined, body, getSymbol. pres. Qed.
#[local] Hint Resolve compareDefined_sonameInv : sonames.

Lemma compareDefinedNonCommon_sonameInv S W b :
  preserves sonameInv (compareDefinedNonCommon E S W b).
Proof.
  unfold compareDefinedNonCommon, body, getSymbol, modifySymbol, warning.
  pres.
Qed.
#[local] Hint Resolve compareDefinedNonCommon_sonameInv : sonames.

Lemma addCommon_sonameInv N Sz Al b o t File :
  preserves sonameInv (addCommon E N Sz Al b o t File).
Proof.
  unfold addCommon, body, getSymbol, modifySymbol, warning.
  pres.
Qed.
#[local] Hint Resolve addCommon_sonameInv : sonames.

Lemma reportDuplicate_sonameInv B F : preserves sonameInv (reportDuplicate E B F).
Proof. unfold reportDuplicate, warning, error. pres. Qed.
#[local] Hint Resolve reportDuplicate_sonameInv : sonames.

Lemma addRegular_sonameInv N Sym Sec : preserves sonameInv (addRegular E N Sym Sec).
Proof.
  unfold addRegular, Section_getFile, body, getSymbol, modifySymbol.
  pres.
Qed.
#[local] Hint Resolve addRegular_sonameInv : sonames.

Lemma addBitcode_sonameInv N W o t Omit F :
  preserves sonameInv (addBitcode E N W o t Omit F).
Proof.
  unfold addBitcode, body, getSymbol, modifySymbol.
  pres.
Qed.
#[local] Hint Resolve addBitcode_sonameInv : sonames.

Lemma addShared_sonameInv F N Sym Verdef :
  preserves sonameInv (addShared E F N Sym Verdef).
Proof.
  unfold addShared, body, getSymbol, modifySymbol.
  pres.
Qed.
#[local] Hint Resolve addShared_sonameInv : sonames.

Lemma Lazy_getFile_sonameInv L : preserves sonameInv (Lazy_getFile E L).
Proof.
  unfold Lazy_getFile, ArchiveFile_getMember, LazyObjectFile_getBuffer.
  destruct L; pres.
Qed.
#[local] Hint Resolve Lazy_getFile_sonameInv : sonames.

Section Loads.

Variable load : InputFile -> M unit.
Hypothesis load_sonameInv : forall File, preserves sonameInv (load File).
#[local] Hint Resolve load_sonameInv : sonames.

Lemma addUndefined_sonameInv N b o t Omit File :
  preserves sonameInv (addUndefined E load N b o t Omit File).
Proof.
  unfold addUndefined, body, getSymbol, modifySymbol.
  pres.
Qed.
#[local] Hint Resolve addUndefined_sonameInv : sonames.

Lemma addLazyArchive_sonameInv F Sym :
  preserves sonameInv (addLazyArchive E load F Sym).
Proof.
  unfold addLazyArchive, ArchiveFile_getMember, body, getSymbol, modifySymbol.
  pres.
Qed.
#[local] Hint Resolve addLazyArchive_sonameInv : sonames.

Lemma addLazyObject_sonameInv N Obj :
  preserves sonameInv (addLazyObject E load N Obj).
Proof.
  unfold addLazyObject, LazyObjectFile_getBuffer, body, getSymbol, modifySymbol.
  pres.
Qed.
#[local] Hint Resolve addLazyObject_sonameInv : sonames.

Lemma ObjectFile_parse_sonameInv this F :
  preserves sonameInv (ObjectFile_parse E load this F).
Proof. unfold ObjectFile_parse. pres. Qed.
#[local] Hint Resolve ObjectFile_parse_sonameInv : sonames.

Lemma BitcodeFile_parse_sonameInv this F :
  preserves sonameInv (BitcodeFile_parse E load this F).
Proof. unfold BitcodeFile_parse. pres. Qed.
#[local] Hint Resolve BitcodeFile_parse_sonameInv : sonames.

Lemma SharedFile_parseRest_sonameInv this F :
  preserves sonameInv (SharedFile_parseRest E this F).
Proof. unfold SharedFile_parseRest. pres. Qed.
#[local] Hint Resolve SharedFile_parseRest_sonameInv : sonames.

Lemma ArchiveFile_parse_sonameInv this F :
  preserves sonameInv (ArchiveFile_parse E load this F).
Proof. unfold ArchiveFile_parse. pres. Qed.
#[local] Hint Resolve ArchiveFile_parse_sonameInv : sonames.

Lemma LazyObjectFile_parse_sonameInv this F :
  preserves sonameInv (LazyObjectFile_parse E load this F).
Proof. unfold LazyObjectFile_parse. pres. Qed.
#[local] Hint Resolve LazyObjectFile_parse_sonameInv : sonames.

(** Admitting a DSO whose soname is new keeps the sonames distinct. *)
Lemma admit_sonameInv F st :
  sonameInv st -> SoName F ∉ SoNames st ->
  sonameInv
    (with_SharedFiles (fun l => l ++ [F])
       (with_SoNames (fun s => {[SoName F]} ∪ s) st)).
Proof.
  intros [Hnd Hin] Hnew. unfold sonameInv. mrun. split.
  - rewrite fmap_app. apply NoDup_app. split; [done|]. split.
    + intros x Hx. cbn. intros ->%list_elem_of_singleton.
      apply Hnew. apply list_elem_of_fmap in Hx as (F' & -> & HF'). auto.
    + cbn. apply NoDup_singleton.
  - intros F' [HF'| ->%list_elem_of_singleton]%elem_of_app; set_solver.
Qed.

Lemma addFileBody_sonameInv File : preserves sonameInv (addFileBody E load File).
Proof.
  unfold addFileBody. apply preserves_bind; [pres|]. intros ok.
  destruct ok; cbn [negb]; [|pres].
  destruct File as [F|F|F|F|F];
    [unfold outs; pres|unfold outs; pres| |unfold outs; pres|unfold outs; pres].
  (* the DSO *)
  intros st [] st' HI. mrun.
  destruct (Config.Trace (Config E)); mrun.
  all: destruct (bool_decide (SoName F ∈ SoNames st)) eqn:Hd; mrun;
    [intros [= <-]; exact HI|].
  all: apply bool_decide_eq_false in Hd.
  all: intros Hrun;
    eapply (SharedFile_parseRest_sonameInv _ F); [|exact Hrun].
  all: by apply (admit_sonameInv F _ HI).
Qed.

End Loads.

Lemma addFile_sonameInv fuel File : preserves sonameInv (addFile E fuel File).
Proof.
  revert File. induction fuel as [|n IH]; intros File.
  - by intros st a st' _.
  - cbn [addFile]. by apply addFileBody_sonameInv.
Qed.

(** A DSO whose soname was seen before is dropped: nothing is parsed, the
    table is unchanged but for the trace output. *)
Lemma addFile_known_soname fuel F st :
  SoName F ∈ SoNames st ->
  so_ekind F = Config.EKind (Config E) ->
  so_emachine F = Config.EMachine (Config E) ->
  addFile E (S fuel) (SharedF F) st =
    Done (tt,
          if Config.Trace (Config E)
          then with_Diagnostics
                 (fun d => d ++
                    [Output (getFilename E
                               (Some (mkFilePtr SharedKind
                                        (length (SharedFiles st))
                                        (so_name F) "")) +:+ "
")]) st
          else st).
Proof.
  intros Hin Hk Hm. cbn [addFile]. unfold addFileBody, isCompatible. mrun.
  rewrite Hk, Hm, !Z.eqb_refl. mrun.
  destruct (Config.Trace (Config E)); mrun; by rewrite bool_decide_eq_true_2.
Qed.

(** Claim C8: at most one shared file per soname is retained.  Whatever the
    sequence of files handed to [addFile], the DSOs of the registry have
    pairwise different sonames; and a shared file whose soname is already
    recorded is dropped before its symbols are parsed: the index, the
    registry and the diagnostics are as before (the trace line apart, when
    tracing is on). *)
Theorem one_shared_file_per_soname fuel :
  (forall Files st',
     forEach (addFile E fuel) Files emptyTable = Done (tt, st') ->
     NoDup (SoName <$> SharedFiles st')) /\
  (forall File st st',
     sonameInv st -> addFile E fuel File st = Done (tt, st') -> sonameInv st') /\
  (forall F st,
     SoName F ∈ SoNames st ->
     so_ekind F = Config.EKind (Config E) ->
     so_emachine F = Config.EMachine (Config E) ->
     exists st',
       addFile E (S fuel) (SharedF F) st = Done (tt, st') /\
       Symtab st' = Symtab st /\ SymVector st' = SymVector st /\
       sameFiles st st' /\
       (forall d, d ∈ Diagnostics st' ->
          d ∈ Diagnostics st \/ exists Msg, d = Output Msg)).
Proof.
  conjs.
  - intros Files st' Hrun.
    assert (H0 : sonameInv emptyTable).
    { split; [apply NoDup_nil_2|]. intros F HF. by apply elem_of_nil in HF. }
    assert (Hpres : preserves sonameInv (forEach (addFile E fuel) Files)).
    { apply preserves_forEach. intros File. apply addFile_sonameInv. }
    by destruct (Hpres _ _ _ H0 Hrun).
  - intros File st st' HI Hrun. by eapply (addFile_sonameInv fuel File).
  - intros F st Hin Hk Hm. eexists. split; [by apply addFile_known_soname|].
    destruct (Config.Trace (Config E)); mrun.
    + conjs; try done; try apply sameFiles_refl.
      intros d [Hd| ->%list_elem_of_singleton]%elem_of_app; eauto.
    + conjs; try done; try apply sameFiles_refl. auto.
Qed.

End Sonames.

(** Scenario "DSO soname uniquification": two shared inputs with the soname
    libz.so.1; only the first is kept and only its symbols are in the
    index. *)
Example soname_uniquification :
  let st :=
    Examples.after
      (addFile Examples.env 1 (SharedF (Examples.libz "a/libz.so")) ;;
       addFile Examples.env 1 (SharedF (Examples.libz "b/libz.so"))) in
  so_name <$> SharedFiles st = ["a/libz.so"] /\
  Body <$> Symtab st !! "deflate" =
    Some (Some (SharedSymbol (mkFilePtr SharedKind 0 "a/libz.so" "")
                  "deflate" Examples.strong None)) /\
  Diagnostics st = [].
Proof. vm_compute. by conjs. Qed.

(** ** The theorems on the concrete inputs *)

Import Examples.

Lemma wrap_unknown_name_witness :
  Symtab emptyTable !! "foo" = None /\
  wrap env (addFile env 1) "foo" emptyTable = Done (tt, emptyTable).
Proof.
  split; [reflexivity|].
  apply (wrap_unknown_name env (addFile env 1) "foo" emptyTable). reflexivity.
Defined.

Lemma addShared_keeps_visibility_witness :
  addShared env DSO "deflate" strong None hiddenTable =
    Done (tt, after (addRegularAbsolute env "deflate" STB_GLOBAL STV_HIDDEN ;;
                     addShared env DSO "deflate" strong None)) /\
  Symtab hiddenTable !! "deflate" = Some hiddenSymbol /\
  0 <= Visibility hiddenSymbol < 4 /\
  exists S',
    Symtab (after (addRegularAbsolute env "deflate" STB_GLOBAL STV_HIDDEN ;;
                   addShared env DSO "deflate" strong None)) !! "deflate" =
      Some S' /\
    Visibility S' = Visibility hiddenSymbol.
Proof.
  assert (H1 : addShared env DSO "deflate" strong None hiddenTable =
    Done (tt, after (addRegularAbsolute env "deflate" STB_GLOBAL STV_HIDDEN ;;
                     addShared env DSO "deflate" strong None)))
    by (vm_compute; reflexivity).
  assert (H2 : Symtab hiddenTable !! "deflate" = Some hiddenSymbol)
    by (vm_compute; reflexivity).
  assert (H3 : 0 <= Visibility hiddenSymbol < 4) by (simpl; unfold STV_HIDDEN; lia).
  split; [exact H1|]. split; [exact H2|]. split; [exact H3|].
  exact (proj1 (addShared_keeps_visibility env DSO "deflate" strong None
                  hiddenTable) _ "deflate" hiddenSymbol H1 H2 H3).
Defined.

Lemma weak_strong_order_independent_witness :
  getBinding strong <> STB_WEAK /\ getBinding weak = STB_WEAK /\
  payload "foo" ((addRegular env "foo" strong (Some sec1) ;;
                  addRegular env "foo" weak (Some sec2)) emptyTable) =
  payload "foo" ((addRegular env "foo" weak (Some sec2) ;;
                  addRegular env "foo" strong (Some sec1)) emptyTable) /\
  (Symtab emptyTable !! "foo" = None ->
   payload "foo" ((addRegular env "foo" strong (Some sec1) ;;
                   addRegular env "foo" weak (Some sec2)) emptyTable) =
   Done (Some (Some (mkDefinedRegular "foo" strong (Some sec1))))).
Proof.
  assert (H1 : getBinding strong <> STB_WEAK) by (vm_compute; discriminate).
  assert (H2 : getBinding weak = STB_WEAK) by reflexivity.
  split; [exact H1|]. split; [exact H2|].
  exact (weak_strong_order_independent env "foo" strong (Some sec1) weak
           (Some sec2) emptyTable H1 H2).
Defined.

Lemma undefined_reference_to_lazy_witness :
  Symtab lazyTable !! "qux" = Some lazySymbol /\
  Body lazySymbol = Some lazyBody /\
  Body.isLazy lazyBody = true /\
  addUndefined env (addFile env 1) "qux" STB_WEAK 0 2 false (Some F1) lazyTable =
    Done ("qux",
          with_Symtab
            (fun m => <["qux" := set_Body (Some (Body.setLazyType 2 lazyBody))
                                   (set_IsUsedInRegularObj true lazySymbol)]> m)
            lazyTable).
Proof.
  assert (H1 : Symtab lazyTable !! "qux" = Some lazySymbol)
    by (vm_compute; reflexivity).
  assert (H2 : Body lazySymbol = Some lazyBody) by reflexivity.
  assert (H3 : Body.isLazy lazyBody = true) by reflexivity.
  split; [exact H1|]. split; [exact H2|]. split; [exact H3|].
  destruct (undefined_reference_to_lazy env (addFile env 1) "qux" STB_WEAK 0 2
              false (Some F1) lazyTable lazySymbol lazyBody H1 H2 H3)
    as (st1 & S1 & Hins & HN1 & HB1 & Hb1 & _ & _ & Hweak).
  rewrite (Hweak eq_refl eq_refl).
  vm_compute in Hins. injection Hins as <-.
  vm_compute in HN1. injection HN1 as <-.
  vm_compute. reflexivity.
Defined.

Lemma common_merge_keeps_maximum_witness :
  Symtab commonTable !! "c" = Some commonSymbol /\
  Body commonSymbol = Some (DefinedCommon "c" 4 4 0 1) /\
  isWeak commonSymbol = false /\
  Forall (fun c => cc_binding c <> STB_WEAK) commons /\
  exists st' S',
    addCommons env "c" commons commonTable = Done (tt, st') /\
    Symtab st' !! "c" = Some S' /\
    Body S' = Some (DefinedCommon "c" 8 16 0 1) /\
    Binding S' = Binding commonSymbol.
Proof.
  assert (H1 : Symtab commonTable !! "c" = Some commonSymbol)
    by (vm_compute; reflexivity).
  assert (H2 : Body commonSymbol = Some (DefinedCommon "c" 4 4 0 1))
    by reflexivity.
  assert (H3 : isWeak commonSymbol = false) by reflexivity.
  assert (H4 : Forall (fun c => cc_binding c <> STB_WEAK) commons)
    by (repeat constructor; discriminate).
  split; [exact H1|]. split; [exact H2|]. split; [exact H3|].
  split; [exact H4|].
  exact (common_merge_keeps_maximum env "c" commons commonTable commonSymbol
           "c" 4 4 0 1 H1 H2 H3 H4).
Defined.


Lemma shared_record_precedence_witness :
  Symtab sharedTable !! "deflate" = Some sharedSymbol /\
  Body sharedSymbol = Some sharedBody /\
  SharedFiles sharedTable !! fp_index DSO = Some (libz "libz.so") /\
  compareDefined "deflate" false STB_WEAK sharedTable = Done (1, sharedTable) /\
  payload "deflate"
    (addUndefined env (addFile env 1) "deflate" STB_GLOBAL 0 0 false (Some F1)
       sharedTable) = Done (Some (Some sharedBody)).
Proof.
  assert (H1 : Symtab sharedTable !! "deflate" = Some sharedSymbol)
    by (vm_compute; reflexivity).
  assert (H2 : Body sharedSymbol = Some sharedBody) by reflexivity.
  assert (H3 : SharedFiles sharedTable !! fp_index DSO = Some (libz "libz.so"))
    by (vm_compute; reflexivity).
  destruct (shared_record_precedence env (addFile env 1) "deflate" sharedTable
              sharedSymbol DSO "deflate" strong None (libz "libz.so") H1 H2 H3)
    as (Hc & _ & Hu & _).
  split; [exact H1|]. split; [exact H2|]. split; [exact H3|].
  split; [exact Hc|]. apply Hu.
Defined.

Lemma one_shared_file_per_soname_witness :
  SoName (libz "b/libz.so") ∈ SoNames sharedTable /\
  exists st',
    addFile env 1 (SharedF (libz "b/libz.so")) sharedTable = Done (tt, st') /\
    Symtab st' = Symtab sharedTable /\ SymVector st' = SymVector sharedTable /\
    sameFiles sharedTable st'.
Proof.
  assert (H1 : SoName (libz "b/libz.so") ∈ SoNames sharedTable).
  { apply (bool_decide_unpack
             (SoName (libz "b/libz.so") ∈ SoNames sharedTable)).
    vm_compute. exact I. }
  split; [exact H1|].
  destruct (one_shared_file_per_soname env O) as (_ & _ & Hdrop).
  destruct (Hdrop (libz "b/libz.so") sharedTable H1 eq_refl eq_refl)
    as (st' & Hrun & HS & HV & HF & _).
  exists st'. split; [exact Hrun|]. split; [exact HS|]. split; [exact HV|].
  exact HF.
Defined.


(** * Further properties of the table *)

Section MergeOrder.
Variable E : Env.
Implicit Types (st : SymbolTable) (N Name : string) (B : SymbolBody).

Lemma getMinVisibility_comm a b : getMinVisibility a b = getMinVisibility b a.
Proof.
  unfold getMinVisibility, STV_DEFAULT.
  destruct (a =? 0) eqn:Ha, (b =? 0) eqn:Hb; try reflexivity.
  - apply Z.eqb_eq in Ha, Hb. congruence.
  - apply Z.min_comm.
Qed.

Lemma getMinVisibility_assoc a b c :
  getMinVisibility (getMinVisibility a b) c =
  getMinVisibility a (getMinVisibility b c).
Proof.
  unfold getMinVisibility, STV_DEFAULT.
  destruct (Z.eqb_spec a 0) as [Ha|Ha], (Z.eqb_spec b 0) as [Hb|Hb],
    (Z.eqb_spec c 0) as [Hc|Hc]; subst; simpl;
    repeat match goal with
           | |- context [?x =? 0] => destruct (Z.eqb_spec x 0)
           end; lia.
Qed.

Lemma getMinVisibility_range a b :
  0 <= a < 4 -> 0 <= b < 4 -> 0 <= getMinVisibility a b < 4.
Proof.
  unfold getMinVisibility, STV_DEFAULT. intros Ha Hb.
  destruct (a =? 0), (b =? 0); lia.
Qed.

End MergeOrder.

Section Merge.
Variable E : Env.
Implicit Types (st : SymbolTable) (N Name : string) (B : SymbolBody).

Lemma insertWith_existing_eq Name Ty Vis Omit Used File st Sy B :
  Symtab st !! Name = Some Sy -> Body Sy = Some B ->
  insertWith E Name Ty Vis Omit Used File st =
    Done ((Name, false),
          with_Diagnostics (fun d => d ++ tlsMismatch E B Ty File)
            (with_Symtab (fun m => <[Name := merged E Sy Vis Omit Used]> m) st)).
Proof.
  intros HN HB. unfold insertWith, tlsMismatch, merged. mrun.
  rewrite (insert_existing E Name st Sy HN). mrun. rewrite HN. mrun.
  destruct (negb Omit && _), Used; mrun;
    rewrite ?lookup_alter_eq, ?HN; mrun;
    rewrite ?HB; mrun.
  all: destruct (_ && _); mrun.
  all: rewrite ?(alter_Some _ _ _ _ HN), ?alter_insert_eq.
  all: destruct Sy; simpl in *; subst;
    rewrite ?orb_true_r, ?orb_false_r, ?app_nil_r.
  all: reflexivity.
Qed.

Lemma getVersionId_eq Name st :
  getVersionId E Name st =
    Done ((versionOf E Name).1,
          with_Diagnostics (fun d => d ++ (versionOf E Name).2) st).
Proof.
  unfold versionOf, getVersionId.
  destruct (StringRef.find _ _); [destruct (findVersion _ _ _)|]; mrun.
  all: destruct st; simpl; by rewrite ?app_nil_r.
Qed.

Lemma insertWith_fresh_eq Name Ty Vis Omit Used File st :
  Symtab st !! Name = None ->
  insertWith E Name Ty Vis Omit Used File st =
    Done ((Name, true),
          entered E Name (merged E (created E Name) Vis Omit Used) st).
Proof.
  intros HN. unfold insertWith, insert, merged, created, entered. mrun.
  rewrite HN. mrun. rewrite getVersionId_eq. mrun.
  rewrite lookup_insert_eq. mrun.
  destruct (negb Omit && _), Used; mrun.
  all: rewrite ?alter_insert_eq; reflexivity.
Qed.

End Merge.

Section DefinedInsertions.
Variable E : Env.
Implicit Types (st : SymbolTable) (N Name : string) (B : SymbolBody).

Lemma compareDefinedNonCommon_existing_eq N b st Sy B :
  Symtab st !! N = Some Sy -> Body Sy = Some B ->
  compareDefinedNonCommon E N false b st =
    Done (nonCommonVerdict Sy B b,
          with_Diagnostics (fun d => d ++ commonOverridden E Sy B b)
            (with_Symtab (fun m => <[N := rebound Sy B b]> m) st)).
Proof.
  intros HN HB. unfold compareDefinedNonCommon, nonCommonVerdict, rebound,
    commonOverridden.
  mstep (compareDefined_existing N b st Sy B HN HB). mrun.
  destruct (definedVerdict Sy B b =? 0) eqn:H0; mrun.
  - apply Z.eqb_eq in H0. rewrite H0. mrun. rewrite HN. mrun. rewrite HB. mrun.
    destruct (Body.isCommon B); mrun.
    + destruct (Config.WarnCommon (Config E)); mrun.
      all: rewrite ?app_nil_r, (insert_id _ _ _ HN); by destruct st.
    + rewrite ?app_nil_r, (insert_id _ _ _ HN); by destruct st.
  - destruct (definedVerdict Sy B b >? 0) eqn:Hpos; mrun.
    + by rewrite (alter_Some _ _ _ _ HN), ?app_nil_r.
    + rewrite ?app_nil_r, (insert_id _ _ _ HN); by destruct st.
Qed.

Lemma merged_Binding Sy Vis Omit Used :
  Binding (merged E Sy Vis Omit Used) = Binding Sy.
Proof. reflexivity. Qed.

Lemma merged_Body Sy Vis Omit Used :
  Body (merged E Sy Vis Omit Used) = Body Sy.
Proof. reflexivity. Qed.

(** The common shape of the definitions of a non-common symbol: the
    attribute merge, the verdict, and then the new body or the report. *)
Ltac defined_insertion_with E N Ty Vis Omit Used File st Sy B b HN HB report :=
  let S1 := fresh "S1" in
  let HB1 := fresh "HB1" in
  let Hco := fresh "Hco" in
  let Hpos := fresh "Hpos" in
  let H0 := fresh "H0" in
  let HBr := fresh "HBr" in
  mstep (insertWith_existing_eq E N Ty Vis Omit Used File st Sy B HN HB);
  set (S1 := merged E Sy Vis Omit Used);
  assert (HB1 : Body S1 = Some B) by done;
  erewrite bind_Done;
    [|apply (compareDefinedNonCommon_existing_eq N b _ S1 B);
      [simpl; apply lookup_insert_eq|exact HB1]];
  cbn beta zeta iota delta [fst snd];
  unfold definedDiagnostics, defined;
  rewrite (nonCommonVerdict_ext S1 Sy B b eq_refl);
  assert (Hco : commonOverridden E S1 B b = commonOverridden E Sy B b)
    by (unfold commonOverridden;
        by rewrite (definedVerdict_ext S1 Sy B b eq_refl));
  rewrite Hco;
  destruct (nonCommonVerdict Sy B b >? 0) eqn:Hpos; mrun;
  [ assert ((nonCommonVerdict Sy B b =? 0) = false) as ->
      by (apply Z.eqb_neq; apply Z.gtb_lt in Hpos; lia);
    rewrite alter_insert_eq, !insert_insert_eq, app_nil_r, <- app_assoc;
    reflexivity
  | destruct (nonCommonVerdict Sy B b =? 0) eqn:H0; mrun;
    [ rewrite lookup_insert_eq; mrun;
      assert (HBr : Body (rebound S1 B b) = Some B)
        by (unfold rebound; destruct (definedVerdict S1 B b >? 0); exact HB1);
      rewrite HBr; mrun; report H0
    | by rewrite !insert_insert_eq, app_nil_r, <- !app_assoc ] ].

Ltac report_duplicate H0 :=
  rewrite reportDuplicate_Done; mrun;
  by rewrite !insert_insert_eq, <- !app_assoc.

Ltac defined_insertion E N Ty Vis Omit Used File st Sy B b HN HB :=
  defined_insertion_with E N Ty Vis Omit Used File st Sy B b HN HB
    report_duplicate.

Lemma addRegularAbsolute_existing N b StOther st Sy B :
  Symtab st !! N = Some Sy -> Body Sy = Some B ->
  addRegularAbsolute E N b StOther st =
    Done (N,
          with_Diagnostics
            (fun d => d ++ definedDiagnostics E Sy B b STT_NOTYPE None)
            (with_Symtab
               (fun m => <[N := defined (merged E Sy (Z.land StOther 3) false true)
                                  B (mkDefinedAbsolute N StOther) b]> m) st)).
Proof.
  intros HN HB. unfold addRegularAbsolute.
  defined_insertion E N STT_NOTYPE (Z.land StOther 3) false true
    (@None FilePtr) st Sy B b HN HB.
Qed.

Lemma addSynthetic_existing N Sec Value st Sy B :
  Symtab st !! N = Some Sy -> Body Sy = Some B ->
  addSynthetic E N Sec Value st =
    Done (N,
          with_Diagnostics
            (fun d => d ++ definedDiagnostics E Sy B STB_GLOBAL STT_NOTYPE None)
            (with_Symtab
               (fun m => <[N := defined (merged E Sy STV_HIDDEN false true)
                                  B (DefinedSynthetic N Value Sec) STB_GLOBAL]> m)
               st)).
Proof.
  intros HN HB. unfold addSynthetic.
  defined_insertion E N STT_NOTYPE STV_HIDDEN false true
    (@None FilePtr) st Sy B STB_GLOBAL HN HB.
Qed.

Lemma addBitcode_existing N IsWeak StOther Ty Omit F st Sy B :
  Symtab st !! N = Some Sy -> Body Sy = Some B ->
  addBitcode E N IsWeak StOther Ty Omit F st =
    Done (N,
          with_Diagnostics
            (fun d => d ++
               definedDiagnostics E Sy B (if IsWeak then STB_WEAK else STB_GLOBAL)
                 Ty (Some F))
            (with_Symtab
               (fun m => <[N := defined (merged E Sy (Z.land StOther 3) Omit false)
                                  B (DefinedBitcode N StOther Ty F)
                                  (if IsWeak then STB_WEAK else STB_GLOBAL)]> m)
               st)).
Proof.
  intros HN HB. unfold addBitcode.
  defined_insertion E N Ty (Z.land StOther 3) Omit false
    (Some F) st Sy B (if IsWeak then STB_WEAK else STB_GLOBAL) HN HB.
Qed.

Lemma addRegular_existing_eq N Sym Sec st Sy B :
  Symtab st !! N = Some Sy -> Body Sy = Some B ->
  (nonCommonVerdict Sy B (getBinding Sym) = 0 -> is_Some Sec) ->
  addRegular E N Sym Sec st =
    Done (N,
          with_Diagnostics
            (fun d => d ++
               definedDiagnostics E Sy B (getBinding Sym) (getType Sym)
                 (sectionFile Sec))
            (with_Symtab
               (fun m => <[N := defined (merged E Sy (getVisibility Sym) false true)
                                  B (mkDefinedRegular N Sym Sec)
                                  (getBinding Sym)]> m)
               st)).
Proof.
  intros HN HB HSec. unfold addRegular.
  destruct Sec as [Sec|].
  - defined_insertion E N (getType Sym) (getVisibility Sym) false true
      (Some (sec_file Sec)) st Sy B (getBinding Sym) HN HB.
  - defined_insertion_with E N (getType Sym) (getVisibility Sym) false true
      (@None FilePtr) st Sy B (getBinding Sym) HN HB
      ltac:(fun H0 => apply Z.eqb_eq in H0; by destruct (HSec H0)).
Qed.

End DefinedInsertions.

Section CommonInsertions.
Variable E : Env.
Implicit Types (st : SymbolTable) (N Name : string) (B : SymbolBody).

Lemma addCommon_existing_eq N Size Alignment b StOther Ty File st Sy B :
  Symtab st !! N = Some Sy -> Body Sy = Some B ->
  addCommon E N Size Alignment b StOther Ty File st =
    Done (N,
          with_Diagnostics
            (fun d => d ++ tlsMismatch E B Ty File ++ commonDiagnostics E Sy B b)
            (with_Symtab
               (fun m => <[N := commoned (merged E Sy (Z.land StOther 3) false true)
                                  B N Size Alignment b StOther Ty]> m) st)).
Proof.
  intros HN HB. unfold addCommon.
  mstep (insertWith_existing_eq E N Ty (Z.land StOther 3) false true File
           st Sy B HN HB).
  set (S1 := merged E Sy (Z.land StOther 3) false true).
  assert (HB1 : Body S1 = Some B) by done.
  erewrite bind_Done;
    [|apply (compareDefined_existing N b _ S1 B);
      [simpl; apply lookup_insert_eq|exact HB1]].
  cbn beta zeta iota delta [fst snd].
  unfold commoned, commonDiagnostics.
  rewrite (definedVerdict_ext S1 Sy B b eq_refl).
  destruct (definedVerdict Sy B b >? 0) eqn:Hpos; mrun.
  - assert ((definedVerdict Sy B b =? 0) = false) as ->
      by (apply Z.eqb_neq; apply Z.gtb_lt in Hpos; lia).
    by rewrite ?alter_insert_eq, ?insert_insert_eq, ?app_nil_r.
  - destruct (definedVerdict Sy B b =? 0) eqn:H0; mrun.
    + rewrite lookup_insert_eq. mrun. rewrite ?HB1, ?HB. mrun.
      destruct B; mrun.
      all: destruct (Config.WarnCommon (Config E)); mrun.
      all: rewrite ?alter_insert_eq, ?insert_insert_eq, ?app_nil_r,
             <- ?app_assoc.
      all: reflexivity.
    + by rewrite ?insert_insert_eq, ?app_nil_r.
Qed.

End CommonInsertions.

Section FreshInsertions.
Variable E : Env.
Implicit Types (st : SymbolTable) (N Name : string) (B : SymbolBody).

Ltac fresh_insertion HN :=
  erewrite bind_Done; [|by apply insertWith_fresh_eq];
  cbn beta zeta iota delta [fst snd]; unfold entered; mrun;
  rewrite ?lookup_insert_eq; mrun;
  rewrite ?alter_insert_eq, ?insert_insert_eq; mrun.

Lemma addRegular_fresh_eq N Sym Sec st :
  Symtab st !! N = None ->
  addRegular E N Sym Sec st =
    Done (N,
          entered E N
            (replaceBody (mkDefinedRegular N Sym Sec)
               (set_Binding (getBinding Sym)
                  (merged E (created E N) (getVisibility Sym) false true))) st).
Proof. intros HN. unfold addRegular. fresh_insertion HN. reflexivity. Qed.

Lemma addRegularAbsolute_fresh_eq N b StOther st :
  Symtab st !! N = None ->
  addRegularAbsolute E N b StOther st =
    Done (N,
          entered E N
            (replaceBody (mkDefinedAbsolute N StOther)
               (set_Binding b
                  (merged E (created E N) (Z.land StOther 3) false true))) st).
Proof. intros HN. unfold addRegularAbsolute. fresh_insertion HN. reflexivity. Qed.

Lemma addSynthetic_fresh_eq N Sec Value st :
  Symtab st !! N = None ->
  addSynthetic E N Sec Value st =
    Done (N,
          entered E N
            (replaceBody (DefinedSynthetic N Value Sec)
               (set_Binding STB_GLOBAL
                  (merged E (created E N) STV_HIDDEN false true))) st).
Proof. intros HN. unfold addSynthetic. fresh_insertion HN. reflexivity. Qed.

Lemma addBitcode_fresh_eq N IsWeak StOther Ty Omit F st :
  Symtab st !! N = None ->
  addBitcode E N IsWeak StOther Ty Omit F st =
    Done (N,
          entered E N
            (replaceBody (DefinedBitcode N StOther Ty F)
               (set_Binding (if IsWeak then STB_WEAK else STB_GLOBAL)
                  (merged E (created E N) (Z.land StOther 3) Omit false))) st).
Proof. intros HN. unfold addBitcode. fresh_insertion HN. reflexivity. Qed.

Lemma addCommon_fresh_eq N Size Alignment b StOther Ty File st :
  Symtab st !! N = None ->
  addCommon E N Size Alignment b StOther Ty File st =
    Done (N,
          entered E N
            (replaceBody (DefinedCommon N Size Alignment StOther Ty)
               (set_Binding b
                  (merged E (created E N) (Z.land StOther 3) false true))) st).
Proof. intros HN. unfold addCommon. fresh_insertion HN. reflexivity. Qed.

Lemma addUndefined_fresh_eq load N b StOther Ty Omit File st :
  Symtab st !! N = None ->
  addUndefined E load N b StOther Ty Omit File st =
    Done (N,
          entered E N
            (replaceBody (Undefined N StOther Ty File)
               (set_Binding b
                  (merged E (created E N) (Z.land StOther 3) Omit
                     (isNull File || negb (isaBitcodeFile File))))) st).
Proof. intros HN. unfold addUndefined. fresh_insertion HN. reflexivity. Qed.

Lemma addShared_fresh_eq F N Sym Verdef st :
  Symtab st !! N = None ->
  addShared E F N Sym Verdef st =
    Done (tt,
          entered E N
            (replaceBody (SharedSymbol F N Sym Verdef)
               (let S1 := merged E (created E N) STV_DEFAULT true false in
                if getVisibility Sym =? STV_DEFAULT
                then set_ExportDynamic true S1 else S1)) st).
Proof.
  intros HN. unfold addShared. fresh_insertion HN.
  destruct (getVisibility Sym =? STV_DEFAULT); mrun;
    rewrite ?lookup_insert_eq, ?alter_insert_eq, ?insert_insert_eq; mrun;
    rewrite ?lookup_insert_eq, ?alter_insert_eq, ?insert_insert_eq; mrun;
    reflexivity.
Qed.

End FreshInsertions.

Section References.
Variable E : Env.
Implicit Types (st : SymbolTable) (N Name : string) (B : SymbolBody).

(** An undefined reference to a symbol that is neither lazy nor shared:
    the attribute merge and nothing else. *)
Lemma addUndefined_plain_eq load N b StOther Ty Omit File st Sy B :
  Symtab st !! N = Some Sy -> Body Sy = Some B -> plain B = true ->
  addUndefined E load N b StOther Ty Omit File st =
    Done (N,
          with_Diagnostics (fun d => d ++ tlsMismatch E B Ty File)
            (with_Symtab
               (fun m => <[N := merged E Sy (Z.land StOther 3) Omit
                                  (isNull File || negb (isaBitcodeFile File))]> m)
               st)).
Proof.
  intros HN HB Hp. unfold addUndefined.
  mstep (insertWith_existing_eq E N Ty (Z.land StOther 3) Omit
           (isNull File || negb (isaBitcodeFile File)) File st Sy B HN HB).
  unfold plain in Hp. apply andb_true_iff in Hp as [Hl Hs].
  apply negb_true_iff in Hl, Hs.
  destruct (negb (b =? STB_WEAK)); mrun; rewrite lookup_insert_eq; mrun;
    rewrite HB; mrun; rewrite ?Hs, ?Hl; mrun.
  - destruct B; try discriminate; mrun; rewrite lookup_insert_eq; mrun;
      rewrite HB; mrun; reflexivity.
  - reflexivity.
Qed.

(** An undefined reference to a symbol provided by a DSO. *)
Lemma addUndefined_shared_eq load N b StOther Ty Omit File st Sy F N' Sym Verdef f :
  Symtab st !! N = Some Sy ->
  Body Sy = Some (SharedSymbol F N' Sym Verdef) ->
  SharedFiles st !! fp_index F = Some f ->
  addUndefined E load N b StOther Ty Omit File st =
    Done (N,
          let S1 := merged E Sy (Z.land StOther 3) Omit
                      (isNull File || negb (isaBitcodeFile File)) in
          let st1 :=
            with_Diagnostics
              (fun d => d ++ tlsMismatch E (SharedSymbol F N' Sym Verdef) Ty File)
              (with_Symtab
                 (fun m => <[N := if b =? STB_WEAK then S1
                                  else set_Binding b S1]> m) st) in
          if b =? STB_WEAK then st1
          else with_SharedFiles
                 (fun l => <[fp_index F := set_IsUsed true f]> l) st1).
Proof.
  intros HN HB Hf. unfold addUndefined.
  mstep (insertWith_existing_eq E N Ty (Z.land StOther 3) Omit
           (isNull File || negb (isaBitcodeFile File)) File st Sy _ HN HB).
  destruct (b =? STB_WEAK); mrun; rewrite lookup_insert_eq; mrun;
    rewrite HB; mrun.
  - reflexivity.
  - rewrite (markUsed_Done F _ f) by exact Hf. mrun.
    rewrite lookup_alter_eq, lookup_insert_eq. mrun.
    rewrite HB. mrun. by rewrite alter_insert_eq.
Qed.

(** A DSO symbol that meets a symbol of the table. *)
Lemma addShared_existing_eq F N Sym Verdef st Sy B f :
  Symtab st !! N = Some Sy -> Body Sy = Some B ->
  SharedFiles st !! fp_index F = Some f ->
  addShared E F N Sym Verdef st =
    Done (tt,
          let S1 := merged E Sy STV_DEFAULT true false in
          let S2 := if getVisibility Sym =? STV_DEFAULT
                    then set_ExportDynamic true S1 else S1 in
          let st1 :=
            with_Diagnostics
              (fun d => d ++ tlsMismatch E B (getType Sym) (Some F))
              (with_Symtab
                 (fun m => <[N := if Body.isUndefined B
                                  then replaceBody (SharedSymbol F N Sym Verdef) S2
                                  else S2]> m) st) in
          if Body.isUndefined B && negb (isWeak Sy)
          then with_SharedFiles
                 (fun l => <[fp_index F := set_IsUsed true f]> l) st1
          else st1).
Proof.
  intros HN HB Hf. unfold addShared.
  mstep (insertWith_existing_eq E N (getType Sym) STV_DEFAULT true false (Some F)
           st Sy B HN HB).
  destruct (getVisibility Sym =? STV_DEFAULT); mrun;
    rewrite ?lookup_alter_eq, ?lookup_insert_eq; mrun; rewrite HB; mrun.
  all: destruct (Body.isUndefined B); mrun;
    rewrite ?lookup_alter_eq, ?lookup_insert_eq; mrun.
  all: unfold isWeak; mrun; destruct (Binding Sy =? STB_WEAK); mrun.
  all: rewrite ?(markUsed_Done F _ f) by exact Hf; mrun;
    rewrite ?alter_insert_eq; reflexivity.
Qed.

End References.

Section OrderOfContributions.
Variable E : Env.
Implicit Types (st : SymbolTable) (N Name : string) (B : SymbolBody).

Lemma land_3_range x : 0 <= Z.land x 3 < 4.
Proof.
  change 3 with (Z.ones 2). rewrite Z.land_ones by lia.
  apply Z.mod_pos_bound. lia.
Qed.

Lemma land_3_idem x : Z.land (Z.land x 3) 3 = Z.land x 3.
Proof. by rewrite <- Z.land_assoc, Z.land_diag. Qed.

Lemma getMinVisibility_default_l v : getMinVisibility STV_DEFAULT v = v.
Proof. reflexivity. Qed.

(** Property X1: a reference and a DSO symbol of the same new name can arrive
    in either order: both orders return, the index and the registry of the
    DSOs end up the same, the symbol holds the DSO's record with the
    binding of the reference, and the DSO is marked as used exactly when
    the reference is not weak. *)
Theorem undefined_shared_order_independent
    load F N Sym Verdef b StOther Ty Omit File st f :
  Symtab st !! N = None ->
  SharedFiles st !! fp_index F = Some f ->
  exists st1 st2 Sy,
    (addUndefined E load N b StOther Ty Omit File ;;
     addShared E F N Sym Verdef) st = Done (tt, st1) /\
    (addShared E F N Sym Verdef ;;
     addUndefined E load N b StOther Ty Omit File ;; ret tt) st =
      Done (tt, st2) /\
    Symtab st1 = Symtab st2 /\ SymVector st1 = SymVector st2 /\
    SharedFiles st1 = SharedFiles st2 /\
    Symtab st1 !! N = Some Sy /\
    Body Sy = Some (SharedSymbol F N Sym Verdef) /\ Binding Sy = b /\
    SharedFiles st1 !! fp_index F =
      Some (if b =? STB_WEAK then f else set_IsUsed true f).
Proof.
  intros HN Hf.
  (* the reference first *)
  pose proof (addUndefined_fresh_eq E load N b StOther Ty Omit File st HN) as H1.
  set (U := replaceBody (Undefined N StOther Ty File) _) in H1.
  set (stU := entered E N U st) in H1.
  assert (HNU : Symtab stU !! N = Some U) by apply lookup_insert_eq.
  pose proof (addShared_existing_eq E F N Sym Verdef stU U _ f HNU eq_refl Hf)
    as H2.
  (* the DSO symbol first *)
  pose proof (addShared_fresh_eq E F N Sym Verdef st HN) as H3.
  set (D := replaceBody (SharedSymbol F N Sym Verdef) _) in H3.
  set (stD := entered E N D st) in H3.
  assert (HND : Symtab stD !! N = Some D) by apply lookup_insert_eq.
  pose proof (addUndefined_shared_eq E load N b StOther Ty Omit File stD D
                F N Sym Verdef f HND eq_refl Hf) as H4.
  assert (Hlt : (fp_index F < length (SharedFiles st))%nat)
    by (by eapply lookup_lt_Some).
  unfold isWeak, U in H2. simpl in H2, H4.
  destruct (b =? STB_WEAK) eqn:Hb, (getVisibility Sym =? STV_DEFAULT);
    simpl in H2, H4.
  all: eexists _, _, _; split; [mstep H1; exact H2|].
  all: split; [mstep H3; mstep H4; reflexivity|].
  all: unfold U, D, stU, stD, entered, merged, created; simpl.
  all: unfold replaceBody, set_Body, set_ExportDynamic, set_Binding; simpl.
  all: rewrite ?getMinVisibility_default_l, ?getMinVisibility_default,
         ?land_3_idem.
  all: change (Z.land STV_DEFAULT 3) with STV_DEFAULT.
  all: rewrite ?getMinVisibility_default_l, ?land_3_idem.
  all: rewrite ?insert_insert_eq, ?lookup_insert_eq, ?Hf, ?orb_true_r,
         ?orb_false_r.
  all: try (apply Z.eqb_eq in Hb; subst b).
  all: conjs; try reflexivity.
  all: by rewrite list_lookup_insert_eq.
Qed.

(** Property X2: a regular definition and a common definition of the same new
    name, not both weak, end with the same body and the same visibility in
    whichever order they arrive: the regular definition unless it is weak,
    and then the common one. *)
Theorem regular_common_order_independent
    N Sym Sec Size Alignment bc StOther Ty File st :
  Symtab st !! N = None ->
  getBinding Sym <> STB_WEAK \/ bc <> STB_WEAK ->
  exists stA stB,
    (addCommon E N Size Alignment bc StOther Ty File ;;
     addRegular E N Sym Sec) st = Done (N, stA) /\
    (addRegular E N Sym Sec ;;
     addCommon E N Size Alignment bc StOther Ty File) st = Done (N, stB) /\
    Body <$> Symtab stA !! N = Body <$> Symtab stB !! N /\
    Body <$> Symtab stA !! N =
      Some (Some (if getBinding Sym =? STB_WEAK
                  then DefinedCommon N Size Alignment StOther Ty
                  else mkDefinedRegular N Sym Sec)) /\
    Visibility <$> Symtab stA !! N = Visibility <$> Symtab stB !! N.
Proof.
  intros HN Hstrong.
  (* the common symbol first *)
  pose proof (addCommon_fresh_eq E N Size Alignment bc StOther Ty File st HN)
    as H1.
  set (C := replaceBody (DefinedCommon N Size Alignment StOther Ty) _) in H1.
  set (stC := entered E N C st) in H1.
  assert (HNC : Symtab stC !! N = Some C) by apply lookup_insert_eq.
  assert (H2 := addRegular_existing_eq E N Sym Sec stC C _ HNC eq_refl).
  (* the regular symbol first *)
  pose proof (addRegular_fresh_eq E N Sym Sec st HN) as H3.
  set (R := replaceBody (mkDefinedRegular N Sym Sec) _) in H3.
  set (stR := entered E N R st) in H3.
  assert (HNR : Symtab stR !! N = Some R) by apply lookup_insert_eq.
  pose proof (addCommon_existing_eq E N Size Alignment bc StOther Ty File
                stR R _ HNR eq_refl) as H4.
  unfold defined, rebound, commoned, nonCommonVerdict, definedVerdict, isWeak,
    C, R in H2, H4.
  simpl in H2, H4.
  destruct (Z.eqb_spec (getBinding Sym) STB_WEAK) as [Hr|Hr],
    (Z.eqb_spec bc STB_WEAK) as [Hc|Hc]; simpl in H2, H4.
  1: by destruct Hstrong.
  all: eexists _, _; split; [mstep H1; apply H2; done|].
  all: split; [mstep H3; exact H4|].
  all: simpl; rewrite !lookup_insert_eq; simpl.
  all: unfold getVisibility;
    rewrite ?getMinVisibility_default_l, ?land_3_idem,
      (getMinVisibility_comm (Z.land StOther 3)).
  all: by conjs.
Qed.

End OrderOfContributions.

Section InternalDuplicates.
Variable E : Env.
Implicit Types (st : SymbolTable) (N Name : string) (B : SymbolBody).

Lemma conflict_outcome N Sy S1 B New b Ty File st :
  nonCommonVerdict Sy B b = 0 ->
  Binding S1 = Binding Sy -> Body S1 = Some B ->
  duplicateOutcome E N Sy B Ty File st
    (Done (N,
           with_Diagnostics (fun d => d ++ definedDiagnostics E Sy B b Ty File)
             (with_Symtab (fun m => <[N := defined S1 B New b]> m) st))).
Proof.
  intros H0 Hb HB.
  assert (Hn : nonCommonVerdict S1 B b = 0)
    by (by rewrite (nonCommonVerdict_ext S1 Sy B b Hb)).
  assert (Hd : definedVerdict Sy B b = 0).
  { revert H0. unfold nonCommonVerdict.
    destruct (Z.eqb_spec (definedVerdict Sy B b) 0); [done|].
    destruct (Body.isCommon B); [done|]. by intros. }
  assert (Hd1 : definedVerdict S1 B b = 0)
    by (by rewrite (definedVerdict_ext S1 Sy B b Hb)).
  apply nonCommonVerdict_conflict in H0 as H0'.
  destruct H0' as (_ & _ & _ & Hc).
  eexists _, _. split; [reflexivity|].
  unfold defined, rebound, definedDiagnostics, commonOverridden.
  rewrite Hn, Hd1, H0, Hd, Hc. simpl.
  conjs; try done.
Qed.

(** Property X3: the definitions that carry no section (absolute and synthetic
    symbols) or a bitcode file report a duplicate of a strong non-common
    definition and return: the first definition keeps its body and its
    binding, and the diagnostic names the file of the first definition and
    the file passed, or no file. *)
Theorem duplicate_reported_without_section N st Sy B :
  Symtab st !! N = Some Sy -> Body Sy = Some B ->
  nonCommonVerdict Sy B STB_GLOBAL = 0 ->
  (forall StOther,
     duplicateOutcome E N Sy B STT_NOTYPE None st
       (addRegularAbsolute E N STB_GLOBAL StOther st)) /\
  (forall Sec Value,
     duplicateOutcome E N Sy B STT_NOTYPE None st
       (addSynthetic E N Sec Value st)) /\
  (forall StOther Ty Omit F,
     duplicateOutcome E N Sy B Ty (Some F) st
       (addBitcode E N false StOther Ty Omit F st)).
Proof.
  intros HN HB H0. conjs.
  - intros StOther. rewrite (addRegularAbsolute_existing E N _ _ st Sy B HN HB).
    by apply conflict_outcome.
  - intros Sec Value. rewrite (addSynthetic_existing E N _ _ st Sy B HN HB).
    by apply conflict_outcome.
  - intros StOther Ty Omit F.
    rewrite (addBitcode_existing E N false _ _ _ _ st Sy B HN HB).
    by apply conflict_outcome.
Qed.

End InternalDuplicates.

Section Passes.
Variable E : Env.
Variable Fl : Flags.t.
Implicit Types (st : SymbolTable) (N Name : string) (B : SymbolBody).

(** A loop that writes one field of every listed symbol it finds. *)
Lemma forEach_found (f : Symbol -> Symbol) (l : list string) st :
  forEach (fun Name =>
    B <- find Name ;;
    match B with
    | None => ret tt
    | Some Sym => modifySymbol Sym f
    end) l st =
  Done (tt, with_Symtab (fun m => foldl (fun m x => alter f x m) m l) st).
Proof.
  revert st. induction l as [|x l IH]; intros st; cbn [forEach foldl].
  - by destruct st.
  - unfold find at 1. mrun.
    destruct (Symtab st !! x) as [Sy|] eqn:Hx; mrun; rewrite IH; mrun.
    + reflexivity.
    + assert (alter f x (Symtab st) = Symtab st) as ->; [|done].
      apply map_eq. intros j. destruct (decide (x = j)) as [<-|Hne].
      * by rewrite lookup_alter_eq, Hx.
      * by rewrite lookup_alter_ne.
Qed.

Lemma lookup_foldl_alter (f : Symbol -> Symbol) (l : list string)
    (m : gmap string Symbol) N :
  (forall Sy, f (f Sy) = f Sy) ->
  foldl (fun m x => alter f x m) m l !! N =
    if bool_decide (N ∈ l) then f <$> m !! N else m !! N.
Proof.
  intros Hf. revert m. induction l as [|x l IH]; intros m; cbn [foldl].
  - done.
  - rewrite IH. destruct (decide (x = N)) as [->|Hne].
    + rewrite lookup_alter_eq, (bool_decide_eq_true_2 (N ∈ N :: l)) by left.
      destruct (bool_decide (N ∈ l)); [|done].
      destruct (m !! N); simpl; by rewrite ?Hf.
    + rewrite lookup_alter_ne by done.
      destruct (decide (N ∈ l)) as [Hin|Hin].
      * rewrite !bool_decide_eq_true_2; [done|by right|done].
      * rewrite !bool_decide_eq_false_2; [done| |done].
        intros [?|?]%elem_of_cons; congruence.
Qed.

Lemma forEach_found_outcome (f : Symbol -> Symbol) (l : list string) st :
  (forall Sy, f (f Sy) = f Sy) ->
  exists st',
    forEach (fun Name =>
      B <- find Name ;;
      match B with
      | None => ret tt
      | Some Sym => modifySymbol Sym f
      end) l st = Done (tt, st') /\
    (forall N,
       Symtab st' !! N =
         if bool_decide (N ∈ l) then f <$> Symtab st !! N
         else Symtab st !! N) /\
    SymVector st' = SymVector st /\ Diagnostics st' = Diagnostics st /\
    sameFiles st st'.
Proof.
  intros Hf. rewrite forEach_found.
  eexists. split; [reflexivity|]. mrun. conjs; try done.
  intros N. by apply lookup_foldl_alter.
Qed.

(** Property X4: the dynamic-list pass always returns; it sets ExportDynamic
    on every listed name that is in the index, whatever its body, and
    changes nothing else: no symbol is created, no other field, no
    diagnostic, no registry. *)
Theorem scanDynamicList_exports_listed st :
  exists st',
    scanDynamicList Fl st = Done (tt, st') /\
    (forall N,
       Symtab st' !! N =
         if bool_decide (N ∈ Flags.DynamicList Fl)
         then set_ExportDynamic true <$> Symtab st !! N
         else Symtab st !! N) /\
    SymVector st' = SymVector st /\ Diagnostics st' = Diagnostics st /\
    sameFiles st st'.
Proof. by apply forEach_found_outcome. Qed.

(** Property X5: when the version script lists global names without version
    declarations, the pass gives VER_NDX_GLOBAL to every listed name that
    is in the index and does nothing else: the declared versions are not
    looked at and nothing is reported. *)
Theorem scanVersionScript_globals st :
  Config.VersionScriptGlobals (Config E) <> [] ->
  exists st',
    scanVersionScript E st = Done (tt, st') /\
    (forall N,
       Symtab st' !! N =
         if bool_decide (N ∈ Config.VersionScriptGlobals (Config E))
         then set_VersionId (uint16 (VER_NDX_GLOBAL E)) <$> Symtab st !! N
         else Symtab st !! N) /\
    SymVector st' = SymVector st /\ Diagnostics st' = Diagnostics st /\
    sameFiles st st'.
Proof.
  intros Hne. unfold scanVersionScript.
  destruct (forEach_found_outcome (set_VersionId (uint16 (VER_NDX_GLOBAL E)))
              (Config.VersionScriptGlobals (Config E)) st) as (st' & Hrun & H);
    [done|].
  exists st'. split; [|exact H].
  by destruct (Config.VersionScriptGlobals (Config E)).
Qed.

Lemma forEach_app {X} (f : X -> M unit) l1 l2 st :
  forEach f (l1 ++ l2) st = (forEach f l1 ;; forEach f l2) st.
Proof.
  revert st. induction l1 as [|x l1 IH]; intros st; cbn [forEach app].
  - reflexivity.
  - rewrite bind_assoc. apply bind_ext. intros [] st1. apply IH.
Qed.

Lemma forEach_nested {X Y} (g : X -> list Y) (f : Y -> M unit) l st :
  forEach (fun x => forEach f (g x)) l st = forEach f (l ≫= g) st.
Proof.
  revert st. induction l as [|x l IH]; intros st; cbn [forEach]; [done|].
  change ((x :: l) ≫= g) with (g x ++ (l ≫= g)).
  rewrite forEach_app. apply bind_ext. intros [] st1. apply IH.
Qed.

Lemma exported_idem Sy : exported (exported Sy) = exported Sy.
Proof.
  unfold exported. destruct (Body Sy) as [B|] eqn:HB; [|by rewrite HB].
  destruct (Body.isDefined B) eqn:Hd; simpl; by rewrite HB, ?Hd.
Qed.

Lemma forEach_exported (l : list string) st :
  (forall N Sy, Symtab st !! N = Some Sy -> is_Some (Body Sy)) ->
  forEach (fun U =>
    B <- find U ;;
    match B with
    | None => ret tt
    | Some Sym =>
        Bd <- body Sym ;;
        when (Body.isDefined Bd) (modifySymbol Sym (set_ExportDynamic true))
    end) l st =
  Done (tt, with_Symtab (fun m => foldl (fun m x => alter exported x m) m l) st).
Proof.
  revert st. induction l as [|x l IH]; intros st Hb; cbn [forEach foldl].
  - by destruct st.
  - unfold find at 1. mrun.
    destruct (Symtab st !! x) as [Sy|] eqn:Hx; mrun.
    + destruct (Hb x Sy Hx) as [B HB]. rewrite ?Hx. mrun. rewrite HB. mrun.
      assert (Ha : alter exported x (Symtab st) =
                   if Body.isDefined B
                   then alter (set_ExportDynamic true) x (Symtab st)
                   else Symtab st).
      { apply map_eq. intros j. destruct (decide (x = j)) as [<-|Hne].
        - rewrite lookup_alter_eq, Hx. simpl. unfold exported. rewrite HB.
          destruct (Body.isDefined B); by rewrite ?lookup_alter_eq, Hx.
        - rewrite lookup_alter_ne by done.
          destruct (Body.isDefined B); by rewrite ?lookup_alter_ne. }
      rewrite Ha.
      destruct (Body.isDefined B); mrun; rewrite IH; try done.
      mrun. intros N S1. destruct (decide (x = N)) as [<-|Hne].
      * rewrite lookup_alter_eq, Hx. intros [= <-]. exists B. exact HB.
      * rewrite lookup_alter_ne by done. apply Hb.
    + rewrite IH by done. mrun.
      assert (alter exported x (Symtab st) = Symtab st) as ->; [|done].
      apply map_eq. intros j. destruct (decide (x = j)) as [<-|Hne].
      * by rewrite lookup_alter_eq, Hx.
      * by rewrite lookup_alter_ne.
Qed.

(** Property X6: on a table whose symbols have bodies the pass over the
    undefined symbols of the DSOs returns; a symbol is exported exactly
    when a DSO of the registry leaves its name undefined and the symbol is
    defined; nothing else changes. *)
Theorem scanShlibUndefined_exports_definitions st :
  (forall N Sy, Symtab st !! N = Some Sy -> is_Some (Body Sy)) ->
  exists st',
    scanShlibUndefined st = Done (tt, st') /\
    (forall N Sy,
       Symtab st !! N = Some Sy ->
       exists B,
         Body Sy = Some B /\
         Symtab st' !! N =
           Some (if bool_decide (N ∈ SharedFiles st ≫= so_undefined) &&
                    Body.isDefined B
                 then set_ExportDynamic true Sy else Sy)) /\
    (forall N, Symtab st !! N = None -> Symtab st' !! N = None) /\
    SymVector st' = SymVector st /\ Diagnostics st' = Diagnostics st /\
    sameFiles st st'.
Proof.
  intros Hb. unfold scanShlibUndefined. mrun.
  rewrite (forEach_nested so_undefined), (forEach_exported _ st Hb).
  eexists. split; [reflexivity|]. mrun. conjs; try done.
  - intros N Sy HN. destruct (Hb N Sy HN) as [B HB]. exists B. split; [done|].
    rewrite (lookup_foldl_alter _ _ _ _ exported_idem), HN.
    destruct (bool_decide _); simpl; [|done].
    unfold exported. rewrite HB. by destruct (Body.isDefined B).
  - intros N HN. rewrite (lookup_foldl_alter _ _ _ _ exported_idem), HN.
    by destruct (bool_decide _).
Qed.

End Passes.

Section Ignored.
Variable E : Env.
Implicit Types (st : SymbolTable) (N Name : string) (B : SymbolBody).

(** Property X7: an ignored symbol is only defined if needed.  On a name that
    is not in the index the call returns null and leaves the table as it
    is; on a name that is only referenced, lazy or provided by a DSO it
    installs the absolute definition with global binding, merges the
    visibility and loads no file. *)
Theorem addIgnored_only_if_needed Name Vis st :
  (Symtab st !! Name = None -> addIgnored E Name Vis st = Done (None, st)) /\
  (forall Sy B,
     Symtab st !! Name = Some Sy -> Body Sy = Some B ->
     Body.isLazy B || Body.isUndefined B || Body.isShared B = true ->
     exists st' S',
       addIgnored E Name Vis st = Done (Some Name, st') /\
       Symtab st' = <[Name := S']> (Symtab st) /\
       Body S' = Some (mkDefinedAbsolute Name Vis) /\
       Binding S' = STB_GLOBAL /\
       Visibility S' =
         Z.land (getMinVisibility (Visibility Sy) (Z.land Vis 3)) 3 /\
       IsUsedInRegularObj S' = true /\
       SymVector st' = SymVector st /\ sameFiles st st').
Proof.
  split.
  - intros HN. unfold addIgnored, find. mrun. by rewrite HN.
  - intros Sy B HN HB Hk. unfold addIgnored, find, addAbsolute. mrun.
    rewrite HN. mrun.
    rewrite (addRegularAbsolute_existing E Name STB_GLOBAL Vis st Sy B HN HB).
    unfold defined, rebound, nonCommonVerdict, definedVerdict. rewrite Hk.
    mrun. rewrite lookup_insert_eq. mrun.
    eexists _, _. split; [reflexivity|]. mrun.
    conjs; try done. simpl. apply orb_true_r.
Qed.

End Ignored.

Section Rejections.
Variable E : Env.
Implicit Types (st : SymbolTable) (N Name : string) (B : SymbolBody).

Lemma findVersion_none ver Vs Idx :
  (forall V, V ∈ Vs -> VName V <> ver) -> findVersion ver Vs Idx = None.
Proof.
  revert Idx. induction Vs as [|V0 Vs IH]; intros Idx H; cbn [findVersion].
  - done.
  - assert (Hne : VName V0 <> ver) by (apply H; left).
    apply String.eqb_neq in Hne. rewrite Hne. apply IH.
    intros V HV. apply H. by right.
Qed.

(** Property X8: a name whose version tag is not a declared version gets the
    version id 0 and the error "symbol NAME has undefined version VER",
    for base@VER and for base@@VER. *)
Theorem undeclared_version_is_reported base ver st :
  StringRef.find "@" base = None ->
  StringRef.startswith "@" ver = false ->
  (forall V, V ∈ Config.SymbolVersions (Config E) -> VName V <> ver) ->
  getVersionId E (base +:+ "@" +:+ ver) st =
    Done (0, with_Diagnostics
               (fun d => d ++
                  [Error ("symbol " +:+ (base +:+ "@" +:+ ver) +:+
                          " has undefined version " +:+ ver)]) st) /\
  getVersionId E (base +:+ "@@" +:+ ver) st =
    Done (0, with_Diagnostics
               (fun d => d ++
                  [Error ("symbol " +:+ (base +:+ "@@" +:+ ver) +:+
                          " has undefined version " +:+ ver)]) st).
Proof.
  intros Hbase Hver Hnone. unfold getVersionId. split.
  - change ("@" +:+ ver) with (String "@" ver).
    rewrite (find_at_app base ver Hbase), drop_front_app, Hver.
    by rewrite (findVersion_none ver _ 2 Hnone).
  - change ("@@" +:+ ver) with (String "@" (String "@" ver)).
    rewrite (find_at_app base _ Hbase), drop_front_app, startswith_at.
    cbn [StringRef.drop_front].
    by rewrite (findVersion_none ver _ 2 Hnone).
Qed.

(** Property X9: an object file or a DSO whose ELF kind or machine differs
    from the configuration is rejected before anything is registered: the
    table is unchanged but for the error "A is incompatible with B", where
    B is the emulation, or the name of the first ELF file when no
    emulation is set. *)
Theorem incompatible_file_is_rejected fuel File A K Mach st :
  elfHeader File = Some (A, K, Mach) ->
  K <> Config.EKind (Config E) \/ Mach <> Config.EMachine (Config E) ->
  (Config.Emulation (Config E) <> "" ->
   addFile E (S fuel) File st =
     Done (tt, with_Diagnostics
                 (fun d => d ++
                    [Error (A +:+ " is incompatible with " +:+
                            Config.Emulation (Config E))]) st)) /\
  (forall First,
     Config.Emulation (Config E) = "" ->
     Config.FirstElf (Config E) = Some First ->
     addFile E (S fuel) File st =
       Done (tt, with_Diagnostics
                   (fun d => d ++
                      [Error (A +:+ " is incompatible with " +:+
                              fp_name First)]) st)).
Proof.
  intros Hh Hne.
  assert (Hc : (K =? Config.EKind (Config E)) &&
               (Mach =? Config.EMachine (Config E)) = false).
  { apply andb_false_iff. destruct Hne as [Hne|Hne]; [left|right];
      by apply Z.eqb_neq. }
  cbn [addFile]. unfold addFileBody, isCompatible.
  destruct File as [F|F|F|F|F]; try discriminate; injection Hh as <- <- <-.
  all: mrun; rewrite Hc.
  all: conjs.
  all: try (intros Hem; destruct (Config.Emulation (Config E)); [done|];
            reflexivity).
  all: intros First -> ->; reflexivity.
Qed.

End Rejections.

Section ReadOnlyPasses.
Variable E : Env.
Variable Fl : Flags.t.
Implicit Types (st : SymbolTable) (N Name : string) (B : SymbolBody).

(** Property X10: an undefined reference to a symbol that holds a
    definition or an earlier reference (a body that is neither lazy nor
    shared) returns and leaves the body, the binding and the version id of
    the symbol as they are; no file is loaded and no symbol is created. *)
Theorem undefined_reference_keeps_definition
    load N b StOther Ty Omit File st Sy B :
  Symtab st !! N = Some Sy -> Body Sy = Some B -> plain B = true ->
  exists st' S',
    addUndefined E load N b StOther Ty Omit File st = Done (N, st') /\
    Symtab st' = <[N := S']> (Symtab st) /\
    Body S' = Some B /\ Binding S' = Binding Sy /\
    VersionId S' = VersionId Sy /\
    SymVector st' = SymVector st /\ sameFiles st st'.
Proof.
  intros HN HB Hp.
  rewrite (addUndefined_plain_eq E load N b StOther Ty Omit File st Sy B HN HB Hp).
  eexists _, _. split; [reflexivity|]. by conjs.
Qed.

(** Property X11: the -u pass loads nothing for names that are not in the
    index or whose symbol is not lazy: when no listed name is lazy the
    table is unchanged, whatever the bound on the loads. *)
Theorem scanUndefinedFlags_skips_other_symbols fuel st :
  (forall Name Sy,
     Name ∈ Flags.Undefined Fl -> Symtab st !! Name = Some Sy ->
     exists B, Body Sy = Some B /\ Body.isLazy B = false) ->
  scanUndefinedFlags E Fl fuel st = Done (tt, st).
Proof.
  unfold scanUndefinedFlags.
  induction (Flags.Undefined Fl) as [|x l IH]; intros H; cbn [forEach].
  - reflexivity.
  - unfold find at 1. mrun.
    destruct (Symtab st !! x) as [Sy|] eqn:Hx; mrun.
    + destruct (H x Sy) as (B & HB & Hl); [left|done|].
      rewrite Hx. mrun. rewrite HB. mrun. rewrite Hl. mrun.
      apply IH. intros Name Sy' Hin. apply H. by right.
    + apply IH. intros Name Sy' Hin. apply H. by right.
Qed.

(** Property X12: on a table whose traced symbols have bodies the trace pass
    returns and only prints: the table is unchanged but for one output
    line, in the order of the list, for every traced name whose symbol is
    defined and records a source file. *)
Theorem traceDefined_reads_only st :
  (forall Name Sy,
     Name ∈ Flags.TraceSymbol Fl -> Symtab st !! Name = Some Sy ->
     is_Some (Body Sy)) ->
  traceDefined E Fl st =
    Done (tt, with_Diagnostics
                (fun d => d ++ (Flags.TraceSymbol Fl ≫= traceLine E st)) st).
Proof.
  unfold traceDefined.
  assert (Hgen : forall l d0,
    (forall Name Sy, Name ∈ l -> Symtab st !! Name = Some Sy ->
       is_Some (Body Sy)) ->
    forEach (fun Symbol_ =>
      B <- find Symbol_ ;;
      match B with
      | None => ret tt
      | Some Sym =>
          Bd <- body Sym ;;
          if Body.isDefined Bd || Body.isCommon Bd then
            match Body.getSourceFile Bd with
            | Some File =>
                outs (getFilename E (Some File) +:+ ": definition of " +:+
                      Body.getName Bd +:+ "
")
            | None => ret tt
            end
          else ret tt
      end) l (with_Diagnostics (fun d => d ++ d0) st) =
    Done (tt, with_Diagnostics (fun d => d ++ (d0 ++ (l ≫= traceLine E st))) st)).
  { induction l as [|x l IH]; intros d0 H; cbn [forEach].
    - mrun. by rewrite app_nil_r.
    - change ((x :: l) ≫= traceLine E st)
        with (traceLine E st x ++ (l ≫= traceLine E st)).
      assert (Hl : forall Name Sy, Name ∈ l -> Symtab st !! Name = Some Sy ->
                 is_Some (Body Sy)) by (intros ? ? ?; apply H; by right).
      unfold find at 1, traceLine at 1. mrun.
      destruct (Symtab st !! x) as [Sy|] eqn:Hx; mrun.
      + destruct (H x Sy) as [B HB]; [left|done|].
        rewrite ?Hx. mrun. rewrite HB. mrun.
        destruct (Body.isDefined B || Body.isCommon B); mrun;
          [destruct (Body.getSourceFile B); mrun|].
        * specialize (IH (d0 ++ [Output (getFilename E (Some f) +:+
                                  ": definition of " +:+ Body.getName B +:+ "
")]) Hl).
          rewrite <- !app_assoc in IH. simpl in IH.
          rewrite <- app_assoc. exact IH.
        * apply (IH d0 Hl).
        * apply (IH d0 Hl).
      + apply (IH d0 Hl). }
  intros H. specialize (Hgen (Flags.TraceSymbol Fl) [] H).
  rewrite with_Diagnostics_nil in Hgen. exact Hgen.
Qed.

End ReadOnlyPasses.

Section Lookup.
Variable E : Env.
Implicit Types (st : SymbolTable) (N Name : string) (B : SymbolBody).

(** Property X13: on a table whose symbols have bodies [findAll] returns, leaves
    the table unchanged, and its result lists, each once, exactly the
    names of the index whose body is not an undefined reference and that
    match the pattern (a pattern without wildcard characters matches its
    own text only). *)
Theorem findAll_exact Pattern st :
  (forall N Sy, Symtab st !! N = Some Sy -> is_Some (Body Sy)) ->
  exists Res,
    findAll E Pattern st = Done (Res, st) /\
    NoDup Res /\
    forall N, N ∈ Res <-> matches E Pattern st N.
Proof.
  intros Hb. unfold findAll, matches.
  destruct (StringRef.contains_any "?*" Pattern) eqn:Hw; cbn [negb].
  - (* the loop over the table *)
    mrun.
    match goal with
    | |- context [?f (map_to_list (Symtab st)) st] => set (loop := f)
    end.
    assert (Hloop : forall l : list (string * Symbol),
      (forall N Sy, (N, Sy) ∈ l -> is_Some (Body Sy)) ->
      exists Res,
        loop l st = Done (Res, st) /\
        Res `sublist_of` l.*1 /\
        forall N, N ∈ Res <->
          exists Sy B, (N, Sy) ∈ l /\ Body Sy = Some B /\
            Body.isUndefined B = false /\ globMatch E Pattern N = true).
    { induction l as [|[Name Sy] l IH]; intros Hl.
      - exists []. split; [reflexivity|]. split; [apply sublist_nil_l|].
        intros N. split; [by intros ?%elem_of_nil|].
        by intros (? & ? & ?%elem_of_nil & _).
      - destruct (Hl Name Sy) as [B HB]; [left|].
        destruct IH as (Res & Hrun & Hsub & Hres).
        { intros N' Sy' Hin. apply (Hl N' Sy'). by right. }
        change (loop ((Name, Sy) :: l) st) with
          ((Bd <- deref (Body Sy) ;;
            Res <- loop l ;;
            if negb (Body.isUndefined Bd) && globMatch E Pattern Name
            then ret (Name :: Res) else ret Res) st).
        rewrite HB. cbn [deref]. unfold bind at 1. cbn [ret].
        unfold bind. rewrite Hrun.
        destruct (Body.isUndefined B) eqn:Hu; cbn [negb andb];
          [|destruct (globMatch E Pattern Name) eqn:Hg].
        + exists Res. split; [reflexivity|]. split; [by apply sublist_cons|].
          intros N. rewrite Hres. split.
          * intros (Sy' & B' & Hin & ?). exists Sy', B'. split; [by right|done].
          * intros (Sy' & B' & [[= -> ->]|Hin]%elem_of_cons & HB' & Hu' & Hg').
            -- congruence.
            -- by exists Sy', B'.
        + exists (Name :: Res). split; [reflexivity|].
          split; [by apply sublist_skip|].
          intros N. rewrite elem_of_cons, Hres. split.
          * intros [->|(Sy' & B' & Hin & ?)].
            -- exists Sy, B. split; [left|done].
            -- exists Sy', B'. split; [by right|done].
          * intros (Sy' & B' & [[= -> ->]|Hin]%elem_of_cons & HB' & Hu' & Hg').
            -- by left.
            -- right. by exists Sy', B'.
        + exists Res. split; [reflexivity|]. split; [by apply sublist_cons|].
          intros N. rewrite Hres. split.
          * intros (Sy' & B' & Hin & ?). exists Sy', B'. split; [by right|done].
          * intros (Sy' & B' & [[= -> ->]|Hin]%elem_of_cons & HB' & Hu' & Hg').
            -- congruence.
            -- by exists Sy', B'. }
    destruct (Hloop (map_to_list (Symtab st))) as (Res & Hrun & Hsub & Hres).
    { intros N Sy Hin. apply elem_of_map_to_list in Hin. by eapply Hb. }
    exists Res. split; [exact Hrun|]. split.
    + eapply sublist_NoDup; [|exact Hsub]. apply NoDup_fst_map_to_list.
    + intros N. rewrite Hres. split.
      * intros (Sy & B & Hin & ?). exists Sy, B.
        by apply elem_of_map_to_list in Hin.
      * intros (Sy & B & Hin & ?). exists Sy, B.
        by apply elem_of_map_to_list in Hin.
  - (* the fast path *)
    unfold find. mrun.
    destruct (Symtab st !! Pattern) as [Sy|] eqn:HP; mrun.
    + destruct (Hb Pattern Sy HP) as [B HB]. rewrite HP. mrun. rewrite HB. mrun.
      destruct (Body.isUndefined B) eqn:Hu; cbn [negb].
      * exists []. split; [reflexivity|]. split; [apply NoDup_nil_2|].
        intros N. split; [by intros ?%elem_of_nil|].
        intros (Sy' & B' & HN & HB' & Hu' & ->). congruence.
      * exists [Pattern]. split; [reflexivity|]. split; [apply NoDup_singleton|].
        intros N. rewrite list_elem_of_singleton. split.
        -- intros ->. by exists Sy, B.
        -- by intros (_ & _ & _ & _ & _ & ->).
    + exists []. split; [reflexivity|]. split; [apply NoDup_nil_2|].
      intros N. split; [by intros ?%elem_of_nil|].
      intros (Sy' & B' & HN & HB' & Hu' & ->). congruence.
Qed.

End Lookup.

(** ** Invariants of the table *)

Create HintDb table.

(** Writes that leave the invariant at hand as it is, by computation. *)
Ltac frame_step := apply preserves_modify; intros ? H; exact H.

Ltac keep :=
  repeat first
    [ solve [auto 2 with table nocore]
    | apply preserves_ret
    | apply preserves_crash
    | apply preserves_get
    | apply preserves_deref
    | apply preserves_bind; [|intros ?]
    | apply preserves_when
    | apply preserves_forEach; intros ?
    | frame_step
    | assumption
    | match goal with
      | |- preserves _ (if ?b then _ else _) => destruct b
      | |- preserves _ (match ?x with _ => _ end) => destruct x
      | |- preserves _ (let _ := _ in _) => cbv zeta
      end ].

Section ReadOnly.
Variable E : Env.

(** [findAll] reads the table. *)
Lemma findAll_reads Pattern st Res st' :
  findAll E Pattern st = Done (Res, st') -> st' = st.
Proof.
  unfold findAll, find.
  destruct (negb (StringRef.contains_any "?*" Pattern)).
  - mrun. destruct (Symtab st !! Pattern) as [Sy|] eqn:HP; mrun.
    + rewrite HP. mrun. destruct (Body Sy) as [B|]; mrun; [|done].
      by destruct (negb (Body.isUndefined B)); intros [= _ <-].
    + by intros [= _ <-].
  - mrun.
    match goal with
    | |- context [?f (map_to_list (Symtab st)) st] => set (loop := f)
    end.
    generalize (map_to_list (Symtab st)). intros l. revert Res st'.
    induction l as [|[Name Sy] l IH]; intros Res st'.
    + by intros [= _ <-].
    + change (loop ((Name, Sy) :: l) st) with
        ((Bd <- deref (Body Sy) ;;
          Res <- loop l ;;
          if negb (Body.isUndefined Bd) && globMatch E Pattern Name
          then ret (Name :: Res) else ret Res) st).
      destruct (Body Sy) as [B|]; mrun; [|done].
      destruct (loop l st) as [[Res' st1]| |] eqn:Hl; [|done|done].
      specialize (IH Res' st1 eq_refl). subst st1.
      by destruct (negb (Body.isUndefined B) && globMatch E Pattern Name);
        intros [= _ <-].
Qed.

Lemma findAll_preserves I Pattern : preserves I (findAll E Pattern).
Proof. intros st Res st' HI Hrun. by rewrite (findAll_reads _ _ _ _ Hrun). Qed.

End ReadOnly.

#[local] Hint Resolve findAll_preserves : table.

Section IndexInvariant.
Variable E : Env.
Variable Fl : Flags.t.
Implicit Types (st : SymbolTable) (N Name : string) (B : SymbolBody).

Lemma modifySymbol_indexInv Sym f : preserves indexInv (modifySymbol Sym f).
Proof.
  intros st [] st' [Hnd Hdom] [= <-]. split; [exact Hnd|].
  intros N. rewrite Hdom. simpl.
  destruct (decide (Sym = N)) as [->|Hne].
  - rewrite lookup_alter_eq. by rewrite fmap_is_Some.
  - by rewrite lookup_alter_ne.
Qed.
#[local] Hint Resolve modifySymbol_indexInv : table.

Lemma error_indexInv Msg : preserves indexInv (error Msg).
Proof. unfold error. keep. Qed.
Lemma warning_indexInv Msg : preserves indexInv (warning Msg).
Proof. unfold warning. keep. Qed.
Lemma outs_indexInv Msg : preserves indexInv (outs Msg).
Proof. unfold outs. keep. Qed.
#[local] Hint Resolve error_indexInv warning_indexInv outs_indexInv : table.

Lemma getSymbol_indexInv Sym : preserves indexInv (getSymbol Sym).
Proof. unfold getSymbol. keep. Qed.
Lemma body_indexInv Sym : preserves indexInv (body Sym).
Proof. unfold body, getSymbol. keep. Qed.
Lemma find_indexInv Name : preserves indexInv (find Name).
Proof. unfold find. keep. Qed.
Lemma markUsed_indexInv F : preserves indexInv (markUsed F).
Proof. unfold markUsed. keep. Qed.
#[local] Hint Resolve getSymbol_indexInv body_indexInv find_indexInv
  markUsed_indexInv : table.

Lemma getVersionId_indexInv Name : preserves indexInv (getVersionId E Name).
Proof. unfold getVersionId. keep. Qed.
#[local] Hint Resolve getVersionId_indexInv : table.

Lemma insert_indexInv Name : preserves indexInv (insert E Name).
Proof.
  intros st p st' [Hnd Hdom]. unfold insert. mrun.
  destruct (Symtab st !! Name) as [Sy|] eqn:HN; mrun.
  - by intros [= _ <-].
  - rewrite getVersionId_eq. mrun. intros [= _ <-]. split; simpl.
    + apply NoDup_app. split; [exact Hnd|]. split; [|apply NoDup_singleton].
      intros x Hx ->%list_elem_of_singleton.
      apply Hdom in Hx as [? Hx]. congruence.
    + intros N. rewrite elem_of_app, list_elem_of_singleton, Hdom.
      destruct (decide (Name = N)) as [->|Hne].
      * rewrite lookup_insert_eq. split; [eauto|auto].
      * rewrite lookup_insert_ne by done. split; [|auto].
        by intros [?|?].
Qed.
#[local] Hint Resolve insert_indexInv : table.

Lemma insertWith_indexInv Name Ty Vis Omit Used File :
  preserves indexInv (insertWith E Name Ty Vis Omit Used File).
Proof. unfold insertWith. keep. Qed.
#[local] Hint Resolve insertWith_indexInv : table.

Lemma compareDefined_indexInv Sym W b : preserves indexInv (compareDefined Sym W b).
Proof. unfold compareDefined. keep. Qed.
#[local] Hint Resolve compareDefined_indexInv : table.

Lemma compareDefinedNonCommon_indexInv Sym W b :
  preserves indexInv (compareDefinedNonCommon E Sym W b).
Proof. unfold compareDefinedNonCommon. keep. Qed.
#[local] Hint Resolve compareDefinedNonCommon_indexInv : table.

Lemma reportDuplicate_indexInv B F : preserves indexInv (reportDuplicate E B F).
Proof. unfold reportDuplicate. keep. Qed.
#[local] Hint Resolve reportDuplicate_indexInv : table.

Lemma addCommon_indexInv N Sz Al b o t File :
  preserves indexInv (addCommon E N Sz Al b o t File).
Proof. unfold addCommon. keep. Qed.

Lemma addRegular_indexInv N Sym Sec : preserves indexInv (addRegular E N Sym Sec).
Proof. unfold addRegular, Section_getFile. keep. Qed.

Lemma addRegularAbsolute_indexInv N b o :
  preserves indexInv (addRegularAbsolute E N b o).
Proof. unfold addRegularAbsolute. keep. Qed.

Lemma addSynthetic_indexInv N Sec Value :
  preserves indexInv (addSynthetic E N Sec Value).
Proof. unfold addSynthetic. keep. Qed.

Lemma addBitcode_indexInv N W o t Omit F :
  preserves indexInv (addBitcode E N W o t Omit F).
Proof. unfold addBitcode. keep. Qed.

Lemma addShared_indexInv F N Sym Verdef :
  preserves indexInv (addShared E F N Sym Verdef).
Proof. unfold addShared. keep. Qed.
#[local] Hint Resolve addCommon_indexInv addRegular_indexInv
  addRegularAbsolute_indexInv addSynthetic_indexInv addBitcode_indexInv
  addShared_indexInv : table.

Lemma Lazy_getFile_indexInv L : preserves indexInv (Lazy_getFile E L).
Proof.
  unfold Lazy_getFile, ArchiveFile_getMember, LazyObjectFile_getBuffer.
  destruct L; keep.
Qed.
#[local] Hint Resolve Lazy_getFile_indexInv : table.

Lemma isCompatible_indexInv File : preserves indexInv (isCompatible E File).
Proof. unfold isCompatible. destruct File; keep. Qed.
#[local] Hint Resolve isCompatible_indexInv : table.

Section Loads.

Variable load : InputFile -> M unit.
Hypothesis load_indexInv : forall File, preserves indexInv (load File).
#[local] Hint Resolve load_indexInv : table.

Lemma addUndefined_indexInv N b o t Omit File :
  preserves indexInv (addUndefined E load N b o t Omit File).
Proof. unfold addUndefined. keep. Qed.
#[local] Hint Resolve addUndefined_indexInv : table.

Lemma addLazyArchive_indexInv F Sym :
  preserves indexInv (addLazyArchive E load F Sym).
Proof. unfold addLazyArchive, ArchiveFile_getMember. keep. Qed.

Lemma addLazyObject_indexInv N Obj :
  preserves indexInv (addLazyObject E load N Obj).
Proof. unfold addLazyObject, LazyObjectFile_getBuffer. keep. Qed.
#[local] Hint Resolve addLazyArchive_indexInv addLazyObject_indexInv : table.

Lemma wrap_indexInv Name : preserves indexInv (wrap E load Name).
Proof. unfold wrap, addUndefinedName. keep. Qed.

Lemma addFileBody_indexInv File : preserves indexInv (addFileBody E load File).
Proof.
  unfold addFileBody, ObjectFile_parse, BitcodeFile_parse, SharedFile_parseRest,
    ArchiveFile_parse, LazyObjectFile_parse.
  keep.
Qed.

End Loads.

Lemma addFile_indexInv fuel File : preserves indexInv (addFile E fuel File).
Proof.
  revert File. induction fuel as [|n IH]; intros File.
  - by intros st a st' _.
  - cbn [addFile]. by apply addFileBody_indexInv.
Qed.
#[local] Hint Resolve addFile_indexInv : table.

Lemma scanVersionScript_indexInv : preserves indexInv (scanVersionScript E).
Proof.
  unfold scanVersionScript.
  assert (Hv : forall V Idx, preserves indexInv (scanVersion E V Idx))
    by (intros; unfold scanVersion; keep).
  destruct (Config.VersionScriptGlobals (Config E)); [|keep].
  generalize 2. induction (Config.SymbolVersions (Config E)) as [|V Vs IH];
    intros Idx; cbn [scanVersions]; [keep|].
  apply preserves_bind; [apply Hv|intros ?; apply IH].
Qed.

Lemma exec_indexInv fuel c : preserves indexInv (exec E Fl fuel c).
Proof.
  pose proof (addFile_indexInv fuel) as Hload.
  destruct c; cbn [exec].
  - apply Hload.
  - apply preserves_bind; [by apply addUndefined_indexInv|intros ?; keep].
  - apply preserves_bind; [by apply addUndefined_indexInv|intros ?; keep].
  - keep.
  - keep.
  - keep.
  - keep.
  - keep.
  - keep.
  - by apply addLazyArchive_indexInv.
  - by apply addLazyObject_indexInv.
  - unfold addAbsolute, castDefinedRegular. keep.
  - unfold addIgnored, addAbsolute, castDefinedRegular. keep.
  - by apply wrap_indexInv.
  - unfold scanUndefinedFlags. keep.
  - unfold scanShlibUndefined. keep.
  - unfold scanDynamicList. keep.
  - apply scanVersionScript_indexInv.
  - unfold traceDefined. keep.
Qed.

End IndexInvariant.

Section BodiesInvariant.
Variable E : Env.
Variable Fl : Flags.t.
Implicit Types (st : SymbolTable) (N Name : string) (B : SymbolBody).

Lemma keepsBody_set_Binding b : keepsBody (set_Binding b).
Proof. by intros Sy. Qed.
Lemma keepsBody_set_VersionId v : keepsBody (set_VersionId v).
Proof. by intros Sy. Qed.
Lemma keepsBody_set_Visibility v : keepsBody (set_Visibility v).
Proof. by intros Sy. Qed.
Lemma keepsBody_set_IsUsedInRegularObj b : keepsBody (set_IsUsedInRegularObj b).
Proof. by intros Sy. Qed.
Lemma keepsBody_set_ExportDynamic b : keepsBody (set_ExportDynamic b).
Proof. by intros Sy. Qed.
Lemma keepsBody_replaceBody B : keepsBody (replaceBody B).
Proof. intros Sy _. by eexists. Qed.
Lemma keepsBody_set_Body B : keepsBody (set_Body (Some B)).
Proof. intros Sy _. by eexists. Qed.
#[local] Hint Resolve keepsBody_set_Binding keepsBody_set_VersionId
  keepsBody_set_Visibility keepsBody_set_IsUsedInRegularObj
  keepsBody_set_ExportDynamic keepsBody_replaceBody keepsBody_set_Body : table.

Lemma modifySymbol_bodies Sym f :
  keepsBody f -> preserves bodies (modifySymbol Sym f).
Proof.
  intros Hf st [] st' Hb [= <-]. intros N Sy. simpl.
  destruct (decide (Sym = N)) as [->|Hne].
  - rewrite lookup_alter_eq. destruct (Symtab st !! N) as [S0|] eqn:HN; [|done].
    intros [= <-]. apply Hf. by eapply Hb.
  - rewrite lookup_alter_ne by done. apply Hb.
Qed.

Lemma modifySymbol_bodiesExcept Name Sym f :
  keepsBody f -> preserves (bodiesExcept Name) (modifySymbol Sym f).
Proof.
  intros Hf st [] st' Hb [= <-]. intros N Sy HNe. simpl.
  destruct (decide (Sym = N)) as [->|Hne].
  - rewrite lookup_alter_eq. destruct (Symtab st !! N) as [S0|] eqn:HN; [|done].
    intros [= <-]. apply Hf. by eapply Hb.
  - rewrite lookup_alter_ne by done. by apply Hb.
Qed.
#[local] Hint Resolve modifySymbol_bodies modifySymbol_bodiesExcept : table.

(** The construction of the body completes the symbol. *)
Lemma replaceBody_completes Name B :
  hoare (bodiesExcept Name) (modifySymbol Name (replaceBody B))
    (fun _ => bodies).
Proof.
  intros st [] st' Hb [= <-]. intros N Sy. simpl.
  destruct (decide (Name = N)) as [->|Hne].
  - rewrite lookup_alter_eq. destruct (Symtab st !! N) as [S0|]; [|done].
    intros [= <-]. by eexists.
  - rewrite lookup_alter_ne by done. by apply Hb.
Qed.

Lemma bodies_bodiesExcept Name st : bodies st -> bodiesExcept Name st.
Proof. intros Hb N Sy _. apply Hb. Qed.

Section Frames.

(** The actions that do not write a symbol keep a property of the index. *)
Variable I : SymbolTable -> Prop.
Hypothesis I_framed : framed I.

Lemma frame_modify f :
  (forall st, Symtab (f st) = Symtab st) -> preserves I (modify f).
Proof. intros Hf. apply preserves_modify. intros st. by apply I_framed. Qed.

Lemma error_frame Msg : preserves I (error Msg).
Proof. by apply frame_modify. Qed.
Lemma warning_frame Msg : preserves I (warning Msg).
Proof. by apply frame_modify. Qed.
Lemma outs_frame Msg : preserves I (outs Msg).
Proof. by apply frame_modify. Qed.

Lemma getSymbol_frame Sym : preserves I (getSymbol Sym).
Proof. unfold getSymbol. keep. Qed.
Lemma body_frame Sym : preserves I (body Sym).
Proof. unfold body, getSymbol. keep. Qed.
Lemma find_frame Name : preserves I (find Name).
Proof. unfold find. keep. Qed.

Lemma markUsed_frame F : preserves I (markUsed F).
Proof.
  unfold markUsed. apply preserves_bind; [keep|]. intros st0.
  apply preserves_bind; [keep|]. intros f. by apply frame_modify.
Qed.

Lemma getVersionId_frame Name : preserves I (getVersionId E Name).
Proof.
  pose proof error_frame. unfold getVersionId. keep.
Qed.

Lemma reportDuplicate_frame B F : preserves I (reportDuplicate E B F).
Proof.
  pose proof error_frame. pose proof warning_frame.
  unfold reportDuplicate. keep.
Qed.

Lemma isCompatible_frame File : preserves I (isCompatible E File).
Proof.
  pose proof error_frame. unfold isCompatible. destruct File; keep.
Qed.

Lemma Lazy_getFile_frame L : preserves I (Lazy_getFile E L).
Proof.
  unfold Lazy_getFile, ArchiveFile_getMember, LazyObjectFile_getBuffer.
  destruct L; try apply preserves_crash.
  - apply preserves_bind; [|intros ?; keep].
    apply preserves_bind; [keep|]. intros st0.
    apply preserves_bind; [keep|]. intros Ar.
    destruct (getMember E Ar Sym) as [MBRef Ar'].
    apply preserves_bind; [by apply frame_modify|intros ?; keep].
  - apply preserves_bind; [|intros ?; keep].
    apply preserves_bind; [keep|]. intros st0.
    apply preserves_bind; [keep|]. intros Obj.
    destruct (getBuffer E Obj) as [MBRef Obj'].
    apply preserves_bind; [by apply frame_modify|intros ?; keep].
Qed.

Lemma ArchiveFile_getMember_frame F Sym :
  preserves I (ArchiveFile_getMember E F Sym).
Proof.
  unfold ArchiveFile_getMember.
  apply preserves_bind; [keep|]. intros st0.
  apply preserves_bind; [keep|]. intros Ar.
  destruct (getMember E Ar Sym) as [MBRef Ar'].
  apply preserves_bind; [by apply frame_modify|intros ?; keep].
Qed.

Lemma LazyObjectFile_getBuffer_frame F :
  preserves I (LazyObjectFile_getBuffer E F).
Proof.
  unfold LazyObjectFile_getBuffer.
  apply preserves_bind; [keep|]. intros st0.
  apply preserves_bind; [keep|]. intros Obj.
  destruct (getBuffer E Obj) as [MBRef Obj'].
  apply preserves_bind; [by apply frame_modify|intros ?; keep].
Qed.

End Frames.

Lemma bodies_framed : framed bodies.
Proof. unfold framed, bodies. by intros st st' ->. Qed.

Lemma bodiesExcept_framed Name : framed (bodiesExcept Name).
Proof. unfold framed, bodiesExcept. by intros st st' ->. Qed.

#[local] Hint Resolve bodies_framed bodiesExcept_framed : table.
#[local] Hint Resolve error_frame warning_frame outs_frame getSymbol_frame
  body_frame find_frame markUsed_frame getVersionId_frame
  reportDuplicate_frame isCompatible_frame Lazy_getFile_frame
  ArchiveFile_getMember_frame LazyObjectFile_getBuffer_frame : table.

Lemma preserves_run {X} (I : SymbolTable -> Prop) (m : M X) st a st' :
  preserves I m -> I st -> m st = Done (a, st') -> I st'.
Proof. intros H HI Hrun. by eapply H. Qed.

Lemma bodies_insert N Sy st :
  is_Some (Body Sy) -> bodies st ->
  bodies (with_Symtab (fun m => <[N := Sy]> m) st).
Proof.
  intros HB Hb N' Sy'. simpl. destruct (decide (N = N')) as [->|Hne].
  - rewrite lookup_insert_eq. by intros [= <-].
  - rewrite lookup_insert_ne by done. apply Hb.
Qed.

Lemma bodies_entered N Sy st :
  is_Some (Body Sy) -> bodies st -> bodies (entered E N Sy st).
Proof. intros HB Hb. by apply (bodies_insert N Sy st). Qed.

Lemma compareDefined_bodies Sym W b : preserves bodies (compareDefined Sym W b).
Proof. unfold compareDefined. keep. Qed.
#[local] Hint Resolve compareDefined_bodies : table.

Lemma compareDefinedNonCommon_bodies Sym W b :
  preserves bodies (compareDefinedNonCommon E Sym W b).
Proof. unfold compareDefinedNonCommon. keep. Qed.
#[local] Hint Resolve compareDefinedNonCommon_bodies : table.

(** An operation that starts with the attribute merge: on a name that is
    new the exact result is known; on a symbol of the index the merge
    keeps the bodies and so does the rest. *)
Ltac bodies_of_insertion N fresh_eq unf :=
  let st := fresh "st" in
  let a := fresh "a" in
  let st' := fresh "st'" in
  let Hb := fresh "Hb" in
  let Sy := fresh "Sy" in
  let HN := fresh "HN" in
  let B := fresh "B" in
  let HB := fresh "HB" in
  let Hrun := fresh "Hrun" in
  intros st a st' Hb;
  destruct (Symtab st !! N) as [Sy|] eqn:HN;
  [ destruct (Hb N Sy HN) as [B HB];
    unf;
    erewrite bind_Done; [|by apply (insertWith_existing_eq E N _ _ _ _ _ st Sy B)];
    cbn beta zeta iota delta [fst snd];
    intros Hrun;
    refine (preserves_run bodies _ _ _ _ _ _ Hrun);
    [ keep
    | match goal with
      | |- bodies (with_Diagnostics _ ?s) =>
          apply (bodies_framed s); [reflexivity|]
      end;
      apply bodies_insert; [by exists B|exact Hb] ]
  | rewrite fresh_eq by exact HN;
    intros [= _ <-]; apply bodies_entered; [by eexists|exact Hb] ].

Lemma addRegular_bodies N Sym Sec : preserves bodies (addRegular E N Sym Sec).
Proof.
  bodies_of_insertion N (addRegular_fresh_eq E N Sym Sec)
    ltac:(unfold addRegular, Section_getFile).
Qed.

Lemma addRegularAbsolute_bodies N b o :
  preserves bodies (addRegularAbsolute E N b o).
Proof.
  bodies_of_insertion N (addRegularAbsolute_fresh_eq E N b o)
    ltac:(unfold addRegularAbsolute).
Qed.

Lemma addSynthetic_bodies N Sec Value :
  preserves bodies (addSynthetic E N Sec Value).
Proof.
  bodies_of_insertion N (addSynthetic_fresh_eq E N Sec Value)
    ltac:(unfold addSynthetic).
Qed.

Lemma addBitcode_bodies N W o t Omit F :
  preserves bodies (addBitcode E N W o t Omit F).
Proof.
  bodies_of_insertion N (addBitcode_fresh_eq E N W o t Omit F)
    ltac:(unfold addBitcode).
Qed.

Lemma addCommon_bodies N Sz Al b o t File :
  preserves bodies (addCommon E N Sz Al b o t File).
Proof.
  bodies_of_insertion N (addCommon_fresh_eq E N Sz Al b o t File)
    ltac:(unfold addCommon).
Qed.

Lemma addShared_bodies F N Sym Verdef :
  preserves bodies (addShared E F N Sym Verdef).
Proof.
  bodies_of_insertion N (addShared_fresh_eq E F N Sym Verdef)
    ltac:(unfold addShared).
Qed.
#[local] Hint Resolve addRegular_bodies addRegularAbsolute_bodies
  addSynthetic_bodies addBitcode_bodies addCommon_bodies addShared_bodies
  : table.

Section Loads.

Variable load : InputFile -> M unit.
Hypothesis load_bodies : forall File, preserves bodies (load File).
#[local] Hint Resolve load_bodies : table.

Lemma addUndefined_bodies N b o t Omit File :
  preserves bodies (addUndefined E load N b o t Omit File).
Proof.
  bodies_of_insertion N (addUndefined_fresh_eq E load N b o t Omit File)
    ltac:(unfold addUndefined).
Qed.
#[local] Hint Resolve addUndefined_bodies : table.

(** The lazy symbols start with [insert(Name)]. *)
Ltac bodies_of_lazy N unf :=
  let st := fresh "st" in
  let a := fresh "a" in
  let st' := fresh "st'" in
  let Hb := fresh "Hb" in
  let Sy := fresh "Sy" in
  let HN := fresh "HN" in
  let Hrun := fresh "Hrun" in
  intros st a st' Hb; unf;
  destruct (Symtab st !! N) as [Sy|] eqn:HN;
  [ rewrite (bind_Done _ _ _ _ _ (insert_existing E N st Sy HN));
    cbn beta zeta iota delta [fst snd];
    intros Hrun; refine (preserves_run bodies _ _ _ _ _ _ Hrun); [keep|exact Hb]
  | unfold insert; mrun; rewrite HN; mrun; rewrite getVersionId_eq; mrun;
    rewrite alter_insert_eq; intros [= _ <-];
    match goal with
    | |- bodies ?s =>
        apply (bodies_framed
                 (with_Symtab (fun m => <[N := _]> m) st) s eq_refl)
    end;
    apply bodies_insert; [by eexists|exact Hb] ].

Lemma addLazyArchive_bodies F Sym :
  preserves bodies (addLazyArchive E load F Sym).
Proof. bodies_of_lazy (as_name Sym) ltac:(unfold addLazyArchive). Qed.

Lemma addLazyObject_bodies N Obj :
  preserves bodies (addLazyObject E load N Obj).
Proof. bodies_of_lazy N ltac:(unfold addLazyObject). Qed.
#[local] Hint Resolve addLazyArchive_bodies addLazyObject_bodies : table.

Lemma wrap_bodies Name : preserves bodies (wrap E load Name).
Proof.
  unfold wrap, addUndefinedName.
  apply preserves_bind; [keep|]. intros [Sym|]; [|keep].
  apply preserves_bind; [keep|]. intros Real.
  apply preserves_bind; [keep|]. intros Wrap_.
  intros st [] st' Hb. unfold getSymbol. mrun.
  destruct (Symtab st !! Sym) as [SymS|] eqn:HS; mrun; [|done].
  destruct (Hb Sym SymS HS) as [B HB]. rewrite HB.
  assert (Hb1 : bodies (with_Symtab (alter (set_Body (Some B)) Real) st)).
  { apply (modifySymbol_bodies Real (set_Body (Some B))
             (keepsBody_set_Body B) st tt _ Hb). reflexivity. }
  destruct (alter (set_Body (Some B)) Real (Symtab st) !! Wrap_)
    as [WrapS|] eqn:HW; mrun; [|done].
  destruct (Hb1 Wrap_ WrapS HW) as [B' HB']. rewrite HB'.
  intros [= <-].
  apply (modifySymbol_bodies Sym (set_Body (Some B'))
           (keepsBody_set_Body B') _ tt _ Hb1). reflexivity.
Qed.

Lemma addFileBody_bodies File : preserves bodies (addFileBody E load File).
Proof.
  unfold addFileBody, ObjectFile_parse, BitcodeFile_parse, SharedFile_parseRest,
    ArchiveFile_parse, LazyObjectFile_parse.
  apply preserves_bind; [keep|]. intros ok.
  destruct (negb ok); [keep|].
  apply preserves_bind; [keep|]. intros st0.
  destruct File as [F|F|F|F|F].
  all: repeat (apply preserves_bind;
               [first [by apply frame_modify; auto with table | keep]|intros ?]).
  all: try (destruct (bool_decide _); [keep|]).
  all: repeat (apply preserves_bind;
               [first [by apply frame_modify; auto with table | keep]|intros ?]).
  all: keep.
Qed.

End Loads.

Lemma addFile_bodies fuel File : preserves bodies (addFile E fuel File).
Proof.
  revert File. induction fuel as [|n IH]; intros File.
  - by intros st a st' _.
  - cbn [addFile]. by apply addFileBody_bodies.
Qed.

Lemma scanVersionScript_bodies : preserves bodies (scanVersionScript E).
Proof.
  unfold scanVersionScript.
  assert (Hv : forall V Idx, preserves bodies (scanVersion E V Idx))
    by (intros; unfold scanVersion; keep).
  destruct (Config.VersionScriptGlobals (Config E)); [|keep].
  generalize 2. induction (Config.SymbolVersions (Config E)) as [|V Vs IH];
    intros Idx; cbn [scanVersions]; [keep|].
  apply preserves_bind; [apply Hv|intros ?; apply IH].
Qed.

Lemma exec_bodies fuel c : preserves bodies (exec E Fl fuel c).
Proof.
  pose proof (addFile_bodies fuel) as Hload.
  destruct c; cbn [exec].
  - apply Hload.
  - apply preserves_bind; [by apply addUndefined_bodies|intros ?; keep].
  - apply preserves_bind; [by apply addUndefined_bodies|intros ?; keep].
  - keep.
  - keep.
  - keep.
  - keep.
  - keep.
  - keep.
  - by apply addLazyArchive_bodies.
  - by apply addLazyObject_bodies.
  - unfold addAbsolute, castDefinedRegular. keep.
  - unfold addIgnored, addAbsolute, castDefinedRegular. keep.
  - by apply wrap_bodies.
  - unfold scanUndefinedFlags. keep.
  - unfold scanShlibUndefined. keep.
  - unfold scanDynamicList. keep.
  - apply scanVersionScript_bodies.
  - unfold traceDefined. keep.
Qed.

End BodiesInvariant.

Section Growth.
Variable E : Env.
Variable Fl : Flags.t.
Implicit Types (st : SymbolTable) (N Name : string) (B : SymbolBody).

Lemma tightens_refl v : tightens v v.
Proof. intros H. split; [done|]. lia. Qed.

Lemma tightens_trans v0 v1 v2 :
  tightens v0 v1 -> tightens v1 v2 -> tightens v0 v2.
Proof.
  unfold tightens. intros H01 H12 H0.
  destruct (H01 H0) as [H1 H1']. destruct (H12 H1) as [H2 H2'].
  split; [done|]. intros Hne. specialize (H1' Hne).
  assert (v1 <> 0) by lia. specialize (H2' H). lia.
Qed.

Lemma symbolGrows_refl Sy : symbolGrows Sy Sy.
Proof. unfold symbolGrows. conjs; auto using tightens_refl. Qed.

Lemma symbolGrows_trans S0 S1 S2 :
  symbolGrows S0 S1 -> symbolGrows S1 S2 -> symbolGrows S0 S2.
Proof.
  intros (Hu1 & He1 & Hv1 & Ht1) (Hu2 & He2 & Hv2 & Ht2).
  unfold symbolGrows. conjs; auto; [congruence|].
  by eapply tightens_trans.
Qed.

Lemma grows_refl st : grows st st.
Proof.
  unfold grows. conjs; [done|done|]. intros N Sy HN. exists Sy.
  split; [done|apply symbolGrows_refl].
Qed.

Lemma grows_trans st0 st1 st2 : grows st0 st1 -> grows st1 st2 -> grows st0 st2.
Proof.
  intros (Hv1 & Hd1 & Hs1) (Hv2 & Hd2 & Hs2). unfold grows. conjs.
  - by etrans.
  - by etrans.
  - intros N Sy0 HN. destruct (Hs1 N Sy0 HN) as (Sy1 & HN1 & Hg1).
    destruct (Hs2 N Sy1 HN1) as (Sy2 & HN2 & Hg2).
    exists Sy2. split; [done|]. by eapply symbolGrows_trans.
Qed.

Lemma growing_ret {X} (a : X) : growing (ret a).
Proof. intros st b st' [= _ <-]. apply grows_refl. Qed.

Lemma growing_bind {X Y} (m : M X) (k : X -> M Y) :
  growing m -> (forall a, growing (k a)) -> growing (bind m k).
Proof.
  intros Hm Hk st b st'. unfold bind.
  destruct (m st) as [[a st1]| |] eqn:Hrun; try discriminate.
  intros Hk'. eapply grows_trans; [by eapply Hm|by eapply Hk].
Qed.

Lemma growing_get : growing get.
Proof. intros st a st' [= _ <-]. apply grows_refl. Qed.

Lemma growing_crash {X} : growing (@crash X).
Proof. by intros st a st'. Qed.

Lemma growing_deref {X} (o : option X) : growing (deref o).
Proof. destruct o; [apply growing_ret|apply growing_crash]. Qed.

Lemma growing_when b m : growing m -> growing (when b m).
Proof. destruct b; [done|intros _; apply growing_ret]. Qed.

Lemma growing_forEach {X} (f : X -> M unit) l :
  (forall x, growing (f x)) -> growing (forEach f l).
Proof.
  intros Hf. induction l as [|x l IH]; cbn [forEach].
  - apply growing_ret.
  - apply growing_bind; [apply Hf|intros _; exact IH].
Qed.

(** The writes to the registries. *)
Lemma growing_modify_files f :
  (forall st, Symtab (f st) = Symtab st /\ SymVector (f st) = SymVector st /\
              Diagnostics (f st) = Diagnostics st) ->
  growing (modify f).
Proof.
  intros Hf st [] st' [= <-]. destruct (Hf st) as (Hs & Hv & Hd).
  unfold grows. rewrite Hs, Hv, Hd. apply grows_refl.
Qed.

Lemma growing_diagnostic d :
  growing (modify (with_Diagnostics (fun l => l ++ [d]))).
Proof.
  intros st [] st' [= <-]. unfold grows. conjs; simpl;
    [done|by apply prefix_app_r|].
  intros N Sy HN. exists Sy. split; [done|apply symbolGrows_refl].
Qed.

Lemma growing_error Msg : growing (error Msg).
Proof. apply growing_diagnostic. Qed.
Lemma growing_warning Msg : growing (warning Msg).
Proof. apply growing_diagnostic. Qed.
Lemma growing_outs Msg : growing (outs Msg).
Proof. apply growing_diagnostic. Qed.

Lemma growing_modifySymbol Sym f : accumulates f -> growing (modifySymbol Sym f).
Proof.
  intros Hf st [] st' [= <-]. unfold grows. conjs; simpl; [done|done|].
  intros N Sy HN. destruct (decide (Sym = N)) as [->|Hne].
  - rewrite lookup_alter_eq, HN. exists (f Sy). split; [done|apply Hf].
  - rewrite lookup_alter_ne by done. exists Sy.
    split; [done|apply symbolGrows_refl].
Qed.

Lemma accumulates_set_Binding b : accumulates (set_Binding b).
Proof. intros Sy. unfold symbolGrows. conjs; auto using tightens_refl. Qed.
Lemma accumulates_set_VersionId v : accumulates (set_VersionId v).
Proof. intros Sy. unfold symbolGrows. conjs; auto using tightens_refl. Qed.
Lemma accumulates_set_Body (o : option SymbolBody) : accumulates (set_Body o).
Proof. intros Sy. unfold symbolGrows. conjs; auto using tightens_refl. Qed.
Lemma accumulates_replaceBody B : accumulates (replaceBody B).
Proof. intros Sy. unfold symbolGrows. conjs; auto using tightens_refl. Qed.
Lemma accumulates_set_ExportDynamic : accumulates (set_ExportDynamic true).
Proof. intros Sy. unfold symbolGrows. conjs; auto using tightens_refl. Qed.
Lemma accumulates_set_IsUsedInRegularObj :
  accumulates (set_IsUsedInRegularObj true).
Proof. intros Sy. unfold symbolGrows. conjs; auto using tightens_refl. Qed.

(** The visibility merge tightens. *)
Lemma getMinVisibility_tightens v Vis :
  0 <= Vis -> tightens v (Z.land (getMinVisibility v Vis) 3).
Proof.
  intros HVis Hv. split; [apply land_3_range|]. intros Hne.
  unfold getMinVisibility, STV_DEFAULT.
  assert ((v =? 0) = false) as -> by (by apply Z.eqb_neq).
  destruct (Z.eqb_spec Vis 0) as [->|HV].
  - rewrite land_3_small by done. lia.
  - rewrite land_3_small by lia. lia.
Qed.

Lemma merged_grows Sy Vis Omit Used :
  0 <= Vis -> symbolGrows Sy (merged E Sy Vis Omit Used).
Proof.
  intros HVis. unfold symbolGrows. conjs; simpl.
  - by intros ->.
  - by intros ->.
  - done.
  - by apply getMinVisibility_tightens.
Qed.

Lemma land_3_nonneg x : 0 <= Z.land x 3.
Proof. apply land_3_range. Qed.
Lemma getVisibility_nonneg Sym : 0 <= getVisibility Sym.
Proof. apply land_3_range. Qed.
Lemma STV_DEFAULT_nonneg : 0 <= STV_DEFAULT.
Proof. done. Qed.
Lemma STV_HIDDEN_nonneg : 0 <= STV_HIDDEN.
Proof. done. Qed.

Create HintDb growth.
#[local] Hint Resolve land_3_nonneg getVisibility_nonneg STV_DEFAULT_nonneg
  STV_HIDDEN_nonneg : growth.
#[local] Hint Resolve growing_error growing_warning growing_outs
  growing_modifySymbol accumulates_set_Binding accumulates_set_VersionId
  accumulates_set_Body accumulates_replaceBody accumulates_set_ExportDynamic
  accumulates_set_IsUsedInRegularObj : growth.

Ltac grow :=
  repeat first
    [ solve [auto 3 with growth nocore]
    | apply growing_ret
    | apply growing_crash
    | apply growing_get
    | apply growing_deref
    | apply growing_bind; [|intros ?]
    | apply growing_when
    | apply growing_forEach; intros ?
    | (apply growing_modify_files; intros ?; by conjs)
    | assumption
    | match goal with
      | |- growing (if ?b then _ else _) => destruct b
      | |- growing (match ?x with _ => _ end) => destruct x
      | |- growing (let _ := _ in _) => cbv zeta
      end ].

Lemma growing_getSymbol Sym : growing (getSymbol Sym).
Proof. unfold getSymbol. grow. Qed.
Lemma growing_body Sym : growing (body Sym).
Proof. unfold body, getSymbol. grow. Qed.
Lemma growing_find Name : growing (find Name).
Proof. unfold find. grow. Qed.
Lemma growing_markUsed F : growing (markUsed F).
Proof. unfold markUsed. grow. Qed.
Lemma growing_getVersionId Name : growing (getVersionId E Name).
Proof. unfold getVersionId. grow. Qed.
Lemma growing_reportDuplicate B F : growing (reportDuplicate E B F).
Proof. unfold reportDuplicate. grow. Qed.
Lemma growing_isCompatible File : growing (isCompatible E File).
Proof. unfold isCompatible. destruct File; grow. Qed.
Lemma growing_findAll Pattern : growing (findAll E Pattern).
Proof.
  intros st Res st' Hrun. rewrite (findAll_reads _ _ _ _ _ Hrun).
  apply grows_refl.
Qed.
Lemma growing_ArchiveFile_getMember F Sym :
  growing (ArchiveFile_getMember E F Sym).
Proof. unfold ArchiveFile_getMember. grow. Qed.
Lemma growing_LazyObjectFile_getBuffer F :
  growing (LazyObjectFile_getBuffer E F).
Proof. unfold LazyObjectFile_getBuffer. grow. Qed.
#[local] Hint Resolve growing_getSymbol growing_body growing_find
  growing_markUsed growing_getVersionId growing_reportDuplicate
  growing_isCompatible growing_findAll growing_ArchiveFile_getMember
  growing_LazyObjectFile_getBuffer : growth.

Lemma growing_Lazy_getFile L : growing (Lazy_getFile E L).
Proof. unfold Lazy_getFile. destruct L; grow. Qed.
#[local] Hint Resolve growing_Lazy_getFile : growth.

Lemma grows_entered Name Sy st :
  Symtab st !! Name = None -> grows st (entered E Name Sy st).
Proof.
  intros HN. unfold grows, entered. simpl. conjs.
  - by apply prefix_app_r.
  - by apply prefix_app_r.
  - intros N Sy0 HN0. exists Sy0. split; [|apply symbolGrows_refl].
    rewrite lookup_insert_ne; [done|]. intros <-. congruence.
Qed.

Lemma growing_insert Name : growing (insert E Name).
Proof.
  intros st p st'. unfold insert. mrun.
  destruct (Symtab st !! Name) as [Sy|] eqn:HN; mrun.
  - intros [= _ <-]. apply grows_refl.
  - rewrite getVersionId_eq. mrun. intros [= _ <-].
    by apply (grows_entered Name _ st).
Qed.
#[local] Hint Resolve growing_insert : growth.

Lemma growing_insertWith Name Ty Vis Omit Used File :
  0 <= Vis -> growing (insertWith E Name Ty Vis Omit Used File).
Proof.
  intros HVis st p st'.
  destruct (Symtab st !! Name) as [Sy|] eqn:HN;
    [destruct (Body Sy) as [B|] eqn:HB|].
  - rewrite (insertWith_existing_eq E Name Ty Vis Omit Used File st Sy B HN HB).
    intros [= _ <-]. unfold grows. simpl. conjs.
    + done.
    + by apply prefix_app_r.
    + intros N Sy0 HN0. destruct (decide (Name = N)) as [->|Hne].
      * rewrite lookup_insert_eq. eexists. split; [done|].
        assert (Sy0 = Sy) as -> by congruence. by apply merged_grows.
      * rewrite lookup_insert_ne by done. exists Sy0.
        split; [done|apply symbolGrows_refl].
  - by rewrite (insertWith_uninit E Name Ty Vis Omit Used File st Sy HN HB).
  - rewrite (insertWith_fresh_eq E Name Ty Vis Omit Used File st HN).
    intros [= _ <-]. by apply grows_entered.
Qed.
#[local] Hint Resolve growing_insertWith : growth.

Lemma growing_compareDefined Sym W b : growing (compareDefined Sym W b).
Proof. unfold compareDefined. grow. Qed.
#[local] Hint Resolve growing_compareDefined : growth.

Lemma growing_compareDefinedNonCommon Sym W b :
  growing (compareDefinedNonCommon E Sym W b).
Proof. unfold compareDefinedNonCommon. grow. Qed.
#[local] Hint Resolve growing_compareDefinedNonCommon : growth.

Lemma growing_addCommon N Sz Al b o t File :
  growing (addCommon E N Sz Al b o t File).
Proof. unfold addCommon. grow. Qed.

Lemma growing_addRegular N Sym Sec : growing (addRegular E N Sym Sec).
Proof. unfold addRegular, Section_getFile. grow. Qed.

Lemma growing_addRegularAbsolute N b o :
  growing (addRegularAbsolute E N b o).
Proof. unfold addRegularAbsolute. grow. Qed.

Lemma growing_addSynthetic N Sec Value : growing (addSynthetic E N Sec Value).
Proof. unfold addSynthetic. grow. Qed.

Lemma growing_addBitcode N W o t Omit F :
  growing (addBitcode E N W o t Omit F).
Proof. unfold addBitcode. grow. Qed.

Lemma growing_addShared F N Sym Verdef : growing (addShared E F N Sym Verdef).
Proof. unfold addShared. grow. Qed.
#[local] Hint Resolve growing_addCommon growing_addRegular
  growing_addRegularAbsolute growing_addSynthetic growing_addBitcode
  growing_addShared : growth.

Section Loads.

Variable load : InputFile -> M unit.
Hypothesis growing_load : forall File, growing (load File).
#[local] Hint Resolve growing_load : growth.

Lemma growing_addUndefined N b o t Omit File :
  growing (addUndefined E load N b o t Omit File).
Proof. unfold addUndefined. grow. Qed.
#[local] Hint Resolve growing_addUndefined : growth.

Lemma growing_addLazyArchive F Sym : growing (addLazyArchive E load F Sym).
Proof. unfold addLazyArchive. grow. Qed.

Lemma growing_addLazyObject N Obj : growing (addLazyObject E load N Obj).
Proof. unfold addLazyObject. grow. Qed.
#[local] Hint Resolve growing_addLazyArchive growing_addLazyObject : growth.

Lemma growing_wrap Name : growing (wrap E load Name).
Proof. unfold wrap, addUndefinedName. grow. Qed.

Lemma growing_addFileBody File : growing (addFileBody E load File).
Proof.
  unfold addFileBody, ObjectFile_parse, BitcodeFile_parse, SharedFile_parseRest,
    ArchiveFile_parse, LazyObjectFile_parse.
  grow.
Qed.

End Loads.

Lemma growing_addFile fuel File : growing (addFile E fuel File).
Proof.
  revert File. induction fuel as [|n IH]; intros File.
  - by intros st a st'.
  - cbn [addFile]. by apply growing_addFileBody.
Qed.

Lemma growing_scanVersionScript : growing (scanVersionScript E).
Proof.
  unfold scanVersionScript.
  assert (Hv : forall V Idx, growing (scanVersion E V Idx))
    by (intros; unfold scanVersion; grow).
  destruct (Config.VersionScriptGlobals (Config E)); [|grow].
  generalize 2. induction (Config.SymbolVersions (Config E)) as [|V Vs IH];
    intros Idx; cbn [scanVersions]; [grow|].
  apply growing_bind; [apply Hv|intros ?; apply IH].
Qed.

Lemma growing_exec fuel c : growing (exec E Fl fuel c).
Proof.
  pose proof (growing_addFile fuel) as Hload.
  destruct c; cbn [exec].
  - apply Hload.
  - apply growing_bind; [by apply growing_addUndefined|intros ?; grow].
  - apply growing_bind; [by apply growing_addUndefined|intros ?; grow].
  - grow.
  - grow.
  - grow.
  - grow.
  - grow.
  - grow.
  - by apply growing_addLazyArchive.
  - by apply growing_addLazyObject.
  - unfold addAbsolute, castDefinedRegular. grow.
  - unfold addIgnored, addAbsolute, castDefinedRegular. grow.
  - by apply growing_wrap.
  - unfold scanUndefinedFlags. grow.
  - unfold scanShlibUndefined. grow.
  - unfold scanDynamicList. grow.
  - apply growing_scanVersionScript.
  - unfold traceDefined. grow.
Qed.

End Growth.

Section Reachable.
Variable E : Env.
Variable Fl : Flags.t.
Variable fuel : nat.
Implicit Types (st : SymbolTable) (N Name : string) (B : SymbolBody).

(** Property X14: the symbol vector and the index stay in step.  Every
    operation of the table keeps the symbol vector a list without
    repetition of exactly the names of the index; so it is in every table
    built from the empty table by a sequence of operations. *)
Theorem index_lists_every_symbol_once :
  (forall c st st',
     indexInv st -> exec E Fl fuel c st = Done (tt, st') -> indexInv st') /\
  (forall cs st',
     forEach (exec E Fl fuel) cs emptyTable = Done (tt, st') ->
     NoDup (SymVector st') /\
     forall N, N ∈ SymVector st' <-> is_Some (Symtab st' !! N)).
Proof.
  split.
  - intros c st st' HI Hrun. by eapply (exec_indexInv E Fl fuel c).
  - intros cs st' Hrun.
    assert (H0 : indexInv emptyTable).
    { split; [apply NoDup_nil_2|]. intros N. simpl. rewrite lookup_empty.
      split; [by intros ?%elem_of_nil|by intros [? ?]]. }
    assert (Hpres : preserves indexInv (forEach (exec E Fl fuel) cs)).
    { apply preserves_forEach. intros c. apply exec_indexInv. }
    exact (Hpres _ _ _ H0 Hrun).
Qed.

(** Property X15: every symbol of the index has a constructed body.  An
    operation that returns on a table whose symbols have bodies leaves a
    table whose symbols have bodies: a symbol is without body only between
    its creation and the construction of its body, inside one insertion;
    so [body()] is defined on every symbol of a table built from the empty
    table. *)
Theorem every_symbol_has_a_body :
  (forall c st st',
     bodies st -> exec E Fl fuel c st = Done (tt, st') -> bodies st') /\
  (forall cs st' N Sy,
     forEach (exec E Fl fuel) cs emptyTable = Done (tt, st') ->
     Symtab st' !! N = Some Sy -> is_Some (Body Sy)).
Proof.
  split.
  - intros c st st' HI Hrun. by eapply (exec_bodies E Fl fuel c).
  - intros cs st' N Sy Hrun.
    assert (H0 : bodies emptyTable) by (by intros N' Sy').
    assert (Hpres : preserves bodies (forEach (exec E Fl fuel) cs)).
    { apply preserves_forEach. intros c. apply exec_bodies. }
    apply (Hpres _ _ _ H0 Hrun).
Qed.

Lemma growing_commands cs : growing (forEach (exec E Fl fuel) cs).
Proof. apply growing_forEach. intros c. apply growing_exec. Qed.

(** Property X16: the table only grows.  Over any sequence of operations the
    symbols created and the diagnostics emitted are appended to the symbol
    vector and to the diagnostics, no name leaves the index, and a symbol
    keeps the VersionedName flag it was created with. *)
Theorem symbols_are_never_removed cs st st' :
  forEach (exec E Fl fuel) cs st = Done (tt, st') ->
  SymVector st `prefix_of` SymVector st' /\
  Diagnostics st `prefix_of` Diagnostics st' /\
  forall N Sy,
    Symtab st !! N = Some Sy ->
    exists Sy', Symtab st' !! N = Some Sy' /\
                VersionedName Sy' = VersionedName Sy.
Proof.
  intros Hrun. destruct (growing_commands cs st tt st' Hrun) as (Hv & Hd & Hs).
  conjs; [done|done|]. intros N Sy HN.
  destruct (Hs N Sy HN) as (Sy' & HN' & _ & _ & Hvn & _). eauto.
Qed.

(** Property X17: the attributes of a symbol accumulate.  Over any sequence
    of operations a symbol that is used in a regular object stays so, a
    symbol that is exported stays exported, and the visibility only
    tightens: it stays in the range of the two-bit field, and once it is
    not the default it stays so and its value never goes up. *)
Theorem attributes_accumulate cs st st' N Sy Sy' :
  forEach (exec E Fl fuel) cs st = Done (tt, st') ->
  Symtab st !! N = Some Sy -> Symtab st' !! N = Some Sy' ->
  (IsUsedInRegularObj Sy = true -> IsUsedInRegularObj Sy' = true) /\
  (ExportDynamic Sy = true -> ExportDynamic Sy' = true) /\
  (0 <= Visibility Sy < 4 ->
   0 <= Visibility Sy' < 4 /\
   (Visibility Sy <> STV_DEFAULT -> 0 < Visibility Sy' <= Visibility Sy)).
Proof.
  intros Hrun HN HN'.
  destruct (growing_commands cs st tt st' Hrun) as (_ & _ & Hs).
  destruct (Hs N Sy HN) as (Sy1 & HN1 & Hu & He & _ & Ht).
  assert (Sy1 = Sy') as -> by congruence.
  conjs; [done|done|]. exact Ht.
Qed.

End Reachable.

Section LazyArrivals.
Variable E : Env.
Implicit Types (st : SymbolTable) (N Name : string) (B : SymbolBody).

(** Property X18: an archive symbol or a lazy object symbol that meets a
    symbol of the index.  A symbol that is not an undefined reference is
    left alone, the table is unchanged; a weak undefined reference becomes
    the lazy record, which remembers the type of the reference, and nothing
    is fetched; a reference that is not weak fetches: the archive member
    (or the object) is loaded, unless its buffer is empty. *)
Theorem lazy_symbol_meets_reference load st Sy B :
  Body Sy = Some B ->
  (forall F Sym,
     Symtab st !! as_name Sym = Some Sy ->
     addLazyArchive E load F Sym st =
       if negb (Body.isUndefined B) then Done (tt, st)
       else if isWeak Sy then
         Done (tt, with_Symtab
                     (fun m => <[as_name Sym :=
                                   replaceBody (LazyArchive F Sym (Body.Type_ B))
                                     Sy]> m) st)
       else
         (MBRef <- ArchiveFile_getMember E F Sym ;;
          if negb (isEmpty MBRef)
          then load (createObjectFile E MBRef (fp_name F)) else ret tt) st) /\
  (forall N Obj,
     Symtab st !! N = Some Sy ->
     addLazyObject E load N Obj st =
       if negb (Body.isUndefined B) then Done (tt, st)
       else if isWeak Sy then
         Done (tt, with_Symtab
                     (fun m => <[N := replaceBody (LazyObject N Obj (Body.Type_ B))
                                        Sy]> m) st)
       else
         (MBRef <- LazyObjectFile_getBuffer E Obj ;;
          if negb (isEmpty MBRef)
          then load (createObjectFile E MBRef "") else ret tt) st).
Proof.
  intros HB. split.
  - intros F Sym HN. unfold addLazyArchive.
    mstep (insert_existing E (as_name Sym) st Sy HN). mrun.
    rewrite HN. mrun. rewrite HB. mrun.
    destruct (Body.isUndefined B); mrun; [|done].
    rewrite HN. mrun. destruct (isWeak Sy); mrun; [|done].
    by rewrite (alter_Some _ _ _ _ HN).
  - intros N Obj HN. unfold addLazyObject.
    mstep (insert_existing E N st Sy HN). mrun.
    rewrite HN. mrun. rewrite HB. mrun.
    destruct (Body.isUndefined B); mrun; [|done].
    rewrite HN. mrun. destruct (isWeak Sy); mrun; [|done].
    by rewrite (alter_Some _ _ _ _ HN).
Qed.

End LazyArrivals.

Section VisibilityOrder.

(** Property X19: the visibility merge does not depend on the order of the
    contributions.  [getMinVisibility] is commutative, associative and
    idempotent with STV_DEFAULT as its neutral element, so merging the
    visibilities of a list of contributions into a symbol gives the same
    result for every permutation of the list. *)
Theorem getMinVisibility_order_independent :
  (forall a b, getMinVisibility a b = getMinVisibility b a) /\
  (forall a b c,
     getMinVisibility (getMinVisibility a b) c =
     getMinVisibility a (getMinVisibility b c)) /\
  (forall a, getMinVisibility a a = a) /\
  (forall a, getMinVisibility STV_DEFAULT a = a /\
             getMinVisibility a STV_DEFAULT = a) /\
  (forall v l l',
     l ≡ₚ l' -> foldl getMinVisibility v l = foldl getMinVisibility v l').
Proof.
  conjs.
  - apply getMinVisibility_comm.
  - apply getMinVisibility_assoc.
  - intros a. unfold getMinVisibility. destruct (a =? STV_DEFAULT); [done|lia].
  - intros a. split; [done|apply getMinVisibility_default].
  - intros v l l' Hp. revert v.
    induction Hp as [|x l l' Hp IH|x y l|l1 l2 l3 H12 IH12 H23 IH23];
      intros v; cbn [foldl].
    + done.
    + apply IH.
    + f_equal.
      by rewrite !getMinVisibility_assoc, (getMinVisibility_comm y x).
    + by rewrite IH12.
Qed.

End VisibilityOrder.

Section TlsMismatch.
Variable E : Env.
Implicit Types (st : SymbolTable) (N Name : string) (B : SymbolBody).

Lemma getType_known Sym : (getType Sym =? Body.UnknownType) = false.
Proof.
  apply Z.eqb_neq. unfold getType, Body.UnknownType.
  assert (0 <= Z.land (st_info Sym) 15 < 16); [|lia].
  change 15 with (Z.ones 4). rewrite Z.land_ones by lia.
  apply Z.mod_pos_bound. lia.
Qed.

(** Property X20: a TLS definition and a definition that is not TLS of the same
    name are reported in whichever order they arrive: the second
    definition emits "TLS attribute mismatch for symbol: NAME in FILE1 and
    FILE2" with the file of the first definition first, before any other
    diagnostic of the insertion. *)
Theorem tls_mismatch_reported_in_either_order N Sym1 Sec1 Sym2 Sec2 st :
  Symtab st !! N = None ->
  (getType Sym1 =? STT_TLS) <> (getType Sym2 =? STT_TLS) ->
  exists st12 st21 ds12 ds21,
    (addRegular E N Sym1 (Some Sec1) ;; addRegular E N Sym2 (Some Sec2)) st =
      Done (N, st12) /\
    (addRegular E N Sym2 (Some Sec2) ;; addRegular E N Sym1 (Some Sec1)) st =
      Done (N, st21) /\
    Diagnostics st12 =
      Diagnostics st ++ (versionOf E N).2 ++
      Error ("TLS attribute mismatch for symbol: " +:+ demangle E N +:+
             " in " +:+ getFilename E (Some (sec_file Sec1)) +:+ " and " +:+
             getFilename E (Some (sec_file Sec2))) :: ds12 /\
    Diagnostics st21 =
      Diagnostics st ++ (versionOf E N).2 ++
      Error ("TLS attribute mismatch for symbol: " +:+ demangle E N +:+
             " in " +:+ getFilename E (Some (sec_file Sec2)) +:+ " and " +:+
             getFilename E (Some (sec_file Sec1))) :: ds21.
Proof.
  intros HN Hne.
  assert (Hrun : forall SymA SecA SymB SecB,
    (getType SymA =? STT_TLS) <> (getType SymB =? STT_TLS) ->
    exists st' ds,
      (addRegular E N SymA (Some SecA) ;; addRegular E N SymB (Some SecB)) st =
        Done (N, st') /\
      Diagnostics st' =
        Diagnostics st ++ (versionOf E N).2 ++
        Error ("TLS attribute mismatch for symbol: " +:+ demangle E N +:+
               " in " +:+ getFilename E (Some (sec_file SecA)) +:+ " and " +:+
               getFilename E (Some (sec_file SecB))) :: ds).
  { intros SymA SecA SymB SecB Hd.
    pose proof (addRegular_fresh_eq E N SymA (Some SecA) st HN) as H1.
    set (A := replaceBody (mkDefinedRegular N SymA (Some SecA)) _) in H1.
    set (stA := entered E N A st) in H1.
    assert (HNA : Symtab stA !! N = Some A) by apply lookup_insert_eq.
    pose proof (addRegular_existing_eq E N SymB (Some SecB) stA A _ HNA eq_refl
                  ltac:(eauto)) as H2.
    eexists _, _. split; [mstep H1; exact H2|].
    simpl. unfold definedDiagnostics, tlsMismatch, conflictMsg. simpl.
    unfold Body.isTls. simpl. rewrite getType_known. simpl.
    assert (Bool.eqb (getType SymB =? STT_TLS) (getType SymA =? STT_TLS) = false)
      as ->.
    { apply Bool.eqb_false_iff. congruence. }
    simpl. rewrite <- !app_assoc. reflexivity. }
  destruct (Hrun Sym1 Sec1 Sym2 Sec2 Hne) as (st12 & ds12 & H12 & Hd12).
  destruct (Hrun Sym2 Sec2 Sym1 Sec1 (not_eq_sym Hne)) as (st21 & ds21 & H21 & Hd21).
  by exists st12, st21, ds12, ds21.
Qed.

End TlsMismatch.

(** * Properties of the layout of the output file *)

(** Throughout, [R] is [RoundUpToAlignment], of which only its contract
    [roundsUp] is used, and [sort] is [std::sort] with [compare], of which
    the theorems on [createSections] assume that its result is an ordered
    permutation of its argument. *)

Section WriterLayout.
Import Writer.
Variable R : Z -> Z -> Z.
Variable EhdrSize ShdrSize : Z.
Variable sort : gmap nat Chunk -> list nat -> list nat.
Hypothesis R_roundsUp : roundsUp R.
Implicit Types (h : gmap nat Chunk) (s : State) (Sec : OutputSection)
  (c : Chunk) (C : nat) (Cs : list nat) (Secs : list OutputSection).

Lemma uint64_small z : 0 <= z < 2 ^ 64 -> uint64 z = z.
Proof. intros. unfold uint64. by apply Z.mod_small. Qed.

Lemma R_aligned v a : 0 <= v -> 0 < a -> v + a <= 2 ^ 64 -> (a | v) -> R v a = v.
Proof.
  intros Hv Ha Hb [q Hq]. destruct (R_roundsUp v a Hv Ha Hb) as [Hr [p Hp]].
  assert (0 <= (p - q) * a < a) by lia.
  assert (p - q = 0) by nia. subst. f_equal. lia.
Qed.

(** *** Chunks in order *)

Lemma inOrder_le pos h lo Cs hi : inOrder pos h lo Cs hi -> lo <= hi.
Proof.
  revert lo. induction Cs as [|C Cs IH]; intros lo; simpl; [done|].
  intros (c & _ & ? & ? & H). apply IH in H. lia.
Qed.

Lemma inOrder_lower pos h lo lo' Cs hi :
  lo' <= lo -> inOrder pos h lo Cs hi -> inOrder pos h lo' Cs hi.
Proof.
  destruct Cs as [|C Cs]; simpl; [lia|].
  intros ? (c & ? & ? & ? & ?). exists c. conjs; auto; lia.
Qed.

Lemma inOrder_upper pos h lo Cs hi hi' :
  hi <= hi' -> inOrder pos h lo Cs hi -> inOrder pos h lo Cs hi'.
Proof.
  intros Hhi. revert lo. induction Cs as [|C Cs IH]; intros lo; simpl; [lia|].
  intros (c & ? & ? & ? & ?). exists c. conjs; auto.
Qed.

Lemma inOrder_app pos h lo Cs mid Ds hi :
  inOrder pos h lo Cs mid -> inOrder pos h mid Ds hi ->
  inOrder pos h lo (Cs ++ Ds) hi.
Proof.
  revert lo. induction Cs as [|C Cs IH]; intros lo; simpl.
  - intros. by eapply inOrder_lower.
  - intros (c & ? & ? & ? & ?) ?. exists c. conjs; auto.
Qed.

Lemma inOrder_ext pos pos' h h' d lo Cs hi :
  (forall C c, C ∈ Cs -> h !! C = Some c ->
     exists c', h' !! C = Some c' /\ pos' c' = pos c + d /\ Size c' = Size c) ->
  inOrder pos h lo Cs hi -> inOrder pos' h' (lo + d) Cs (hi + d).
Proof.
  revert lo. induction Cs as [|C Cs IH]; intros lo Hext; simpl; [lia|].
  intros (c & Hc & ? & ? & Hrest).
  destruct (Hext C c) as (c' & Hc' & Hp & Hs); [left|done|].
  exists c'. conjs; auto; try lia.
  rewrite Hp, Hs. replace (pos c + d + Size c) with (pos c + Size c + d) by lia.
  apply IH; [|done]. intros. apply Hext; [by right|done].
Qed.

Lemma inOrder_within pos h lo Cs hi C c :
  inOrder pos h lo Cs hi -> C ∈ Cs -> h !! C = Some c ->
  lo <= pos c /\ 0 <= Size c /\ pos c + Size c <= hi.
Proof.
  revert lo. induction Cs as [|D Cs IH]; intros lo; simpl.
  - intros _ HC. by apply elem_of_nil in HC.
  - intros (d & Hd & ? & ? & Hrest) HC Hc.
    apply elem_of_cons in HC as [->|HC].
    + assert (d = c) as -> by congruence.
      apply inOrder_le in Hrest. lia.
    + destruct (IH _ Hrest HC Hc). lia.
Qed.

Lemma inOrder_apart pos h lo Cs hi A B a b :
  inOrder pos h lo Cs hi -> NoDup Cs -> A ∈ Cs -> B ∈ Cs -> A <> B ->
  h !! A = Some a -> h !! B = Some b -> apart pos a b.
Proof.
  revert lo. induction Cs as [|D Cs IH]; intros lo; simpl.
  - intros _ _ HA. by apply elem_of_nil in HA.
  - intros (d & Hd & ? & ? & Hrest) Hnd HA HB Hne Ha Hb.
    apply NoDup_cons in Hnd as [_ Hnd].
    apply elem_of_cons in HA as [->|HA]; apply elem_of_cons in HB as [->|HB].
    + done.
    + assert (d = a) as -> by congruence.
      destruct (inOrder_within _ _ _ _ _ _ _ Hrest HB Hb). left. lia.
    + assert (d = b) as -> by congruence.
      destruct (inOrder_within _ _ _ _ _ _ _ Hrest HA Ha). right. lia.
    + eapply IH; eauto.
Qed.

(** *** Moving the chunks of a section *)

Lemma shiftVA_spec Cs V h :
  NoDup Cs -> (forall C, C ∈ Cs -> is_Some (h !! C)) ->
  exists h', shiftVA Cs V h = Some h' /\
    (forall C, C ∉ Cs -> h' !! C = h !! C) /\
    (forall C c, C ∈ Cs -> h !! C = Some c ->
       h' !! C = Some (Chunk_setVA (uint64 (VA c + V)) c)).
Proof.
  revert h. induction Cs as [|D Cs IH]; intros h Hnd Hv; simpl.
  - exists h. conjs; [done|done|]. intros ? ? HC. by apply elem_of_nil in HC.
  - apply NoDup_cons in Hnd as [HD Hnd].
    destruct (Hv D) as [d Hd]; [left|]. rewrite Hd. simpl.
    destruct (IH (<[D := Chunk_setVA (uint64 (VA d + V)) d]> h) Hnd)
      as (h' & -> & Hout & Hin).
    { intros C HC. rewrite lookup_insert_ne by (intros ->; done).
      apply Hv. by right. }
    exists h'. conjs; [done| |].
    + intros C HC. apply not_elem_of_cons in HC as [? ?].
      rewrite Hout by done. by rewrite lookup_insert_ne.
    + intros C c HC Hc. apply elem_of_cons in HC as [->|HC].
      * rewrite Hout by done. rewrite lookup_insert_eq. congruence.
      * apply Hin; [done|]. rewrite lookup_insert_ne by (intros ->; done). done.
Qed.

Lemma shiftFileOff_spec Cs V h :
  NoDup Cs -> (forall C, C ∈ Cs -> is_Some (h !! C)) ->
  exists h', shiftFileOff Cs V h = Some h' /\
    (forall C, C ∉ Cs -> h' !! C = h !! C) /\
    (forall C c, C ∈ Cs -> h !! C = Some c ->
       h' !! C = Some (Chunk_setFileOff (uint64 (FileOff c + V)) c)).
Proof.
  revert h. induction Cs as [|D Cs IH]; intros h Hnd Hv; simpl.
  - exists h. conjs; [done|done|]. intros ? ? HC. by apply elem_of_nil in HC.
  - apply NoDup_cons in Hnd as [HD Hnd].
    destruct (Hv D) as [d Hd]; [left|]. rewrite Hd. simpl.
    destruct (IH (<[D := Chunk_setFileOff (uint64 (FileOff d + V)) d]> h) Hnd)
      as (h' & -> & Hout & Hin).
    { intros C HC. rewrite lookup_insert_ne by (intros ->; done).
      apply Hv. by right. }
    exists h'. conjs; [done| |].
    + intros C HC. apply not_elem_of_cons in HC as [? ?].
      rewrite Hout by done. by rewrite lookup_insert_ne.
    + intros C c HC Hc. apply elem_of_cons in HC as [->|HC].
      * rewrite Hout by done. rewrite lookup_insert_eq. congruence.
      * apply Hin; [done|]. rewrite lookup_insert_ne by (intros ->; done). done.
Qed.

Lemma insert_middle {A} (l1 l2 : list A) (x y : A) :
  <[length l1 := y]> (l1 ++ x :: l2) = l1 ++ y :: l2.
Proof. by rewrite <- (Nat.add_0_r (length l1)), insert_app_r. Qed.

Lemma section_step pre Sec rest V Off s :
  OutputSections s = pre ++ Sec :: rest ->
  NoDup (Chunks Sec) -> (forall C, C ∈ Chunks Sec -> is_Some (Heap s !! C)) ->
  let Sec' := mkOutputSection (Name Sec) V
                (if sh_size Sec =? 0 then sh_offset Sec else Off)
                (sh_size Sec) (Chunks Sec) in
  exists s1 h',
    setVA (length pre) V s = Some s1 /\
    setFileOffset (length pre) Off s1 =
      Some (with_Heap h' (with_OutputSections (pre ++ Sec' :: rest) s)) /\
    (forall C, C ∉ Chunks Sec -> h' !! C = Heap s !! C) /\
    (forall C c, C ∈ Chunks Sec -> Heap s !! C = Some c ->
       h' !! C = Some (moved Sec' c)).
Proof.
  intros Hs Hnd Hv Sec'.
  destruct (shiftVA_spec (Chunks Sec) V (Heap s) Hnd Hv) as (h1 & Hh1 & Hout & Hin).
  assert (setVA (length pre) V s =
          Some (with_Heap h1 (with_OutputSections
            (pre ++ mkOutputSection (Name Sec) V (sh_offset Sec) (sh_size Sec)
                      (Chunks Sec) :: rest) s))) as H1.
  { unfold setVA. rewrite Hs, list_lookup_middle by done. simpl.
    rewrite Hh1. simpl. by rewrite insert_middle. }
  eexists. unfold setFileOffset.
  destruct (sh_size Sec =? 0) eqn:Hz.
  - exists h1. split; [exact H1|]. simpl.
    rewrite list_lookup_middle by done. simpl. rewrite Hz.
    unfold moved, Sec'. simpl. rewrite Hz.
    conjs; [done|done|]. intros C c HC Hc. by rewrite (Hin C c HC Hc).
  - destruct (shiftFileOff_spec (Chunks Sec) Off h1 Hnd) as (h2 & Hh2 & Hout2 & Hin2).
    { intros C HC. destruct (Hv C HC) as [c Hc]. by rewrite (Hin C c HC Hc). }
    exists h2. split; [exact H1|]. simpl.
    rewrite list_lookup_middle by done. simpl. rewrite Hz, Hh2. simpl.
    unfold moved, Sec'. simpl. rewrite Hz.
    conjs.
    + unfold with_Heap, with_OutputSections. simpl. by rewrite insert_middle.
    + intros C HC. by rewrite Hout2, Hout.
    + intros C c HC Hc. by rewrite (Hin2 C _ HC (Hin C c HC Hc)).
Qed.

Lemma span_nonneg Secs :
  Forall (fun Sec => 0 <= sh_size Sec) Secs -> 0 <= span Secs.
Proof.
  induction 1 as [|Sec Secs ? ? IH]; simpl; unfold PageSize in *; lia.
Qed.

Lemma allChunks_cons Sec Secs :
  allChunks (Sec :: Secs) = Chunks Sec ++ allChunks Secs.
Proof. done. Qed.

Lemma allChunks_place V Off Secs : allChunks (place R V Off Secs) = allChunks Secs.
Proof.
  revert V Off. induction Secs as [|Sec Secs IH]; intros V Off; [done|].
  simpl. rewrite !allChunks_cons. simpl. by rewrite IH.
Qed.

Lemma elem_of_allChunks Secs Sec C : Sec ∈ Secs -> C ∈ Chunks Sec -> C ∈ allChunks Secs.
Proof.
  intros HS HC. induction Secs as [|Sec0 Secs IH].
  - by apply elem_of_nil in HS.
  - rewrite allChunks_cons. apply elem_of_app.
    apply elem_of_cons in HS as [->|HS]; [by left|right; auto].
Qed.

Lemma assignFrom_spec Secs : forall pre V Off s,
  OutputSections s = pre ++ Secs ->
  NoDup (allChunks Secs) ->
  (forall C, C ∈ allChunks Secs -> is_Some (Heap s !! C)) ->
  Forall (fun Sec => 0 <= sh_size Sec) Secs ->
  0 <= V -> 0 <= Off -> V + span Secs <= 2 ^ 64 -> Off + span Secs <= 2 ^ 64 ->
  exists h',
    assignFrom R (length Secs) (length pre) V Off s =
      Some (endOf R PageSize V Secs, endOf R 8 Off Secs,
            with_Heap h' (with_OutputSections (pre ++ place R V Off Secs) s)) /\
    (forall C, C ∉ allChunks Secs -> h' !! C = Heap s !! C) /\
    (forall Sec C c, Sec ∈ place R V Off Secs -> C ∈ Chunks Sec ->
       Heap s !! C = Some c -> h' !! C = Some (moved Sec c)).
Proof.
  induction Secs as [|Sec Secs IH]; intros pre V Off s Hs Hnd Hv Hsz HV HOff HbV HbO.
  - simpl. exists (Heap s). conjs; [|done|].
    + rewrite <- Hs. by destruct s.
    + intros ? ? ? HS. by apply elem_of_nil in HS.
  - rewrite allChunks_cons in Hnd, Hv.
    apply NoDup_app in Hnd as (Hnd1 & Hdisj & Hnd2).
    apply Forall_cons in Hsz as [Hsz1 Hsz].
    pose proof (span_nonneg Secs Hsz) as Hsp. simpl in HbV, HbO.
    destruct (section_step pre Sec Secs V Off s Hs Hnd1) as (s1 & h1 & H1 & H2 & Hout & Hin).
    { intros C HC. apply Hv, elem_of_app. by left. }
    cbn [length assignFrom]. rewrite H1. cbn [mbind option_bind]. rewrite H2.
    cbn [mbind option_bind].
    cbn [OutputSections with_Heap with_OutputSections].
    rewrite list_lookup_middle by done. cbn [mbind option_bind sh_size].
    destruct (R_roundsUp (sh_size Sec) PageSize) as [HrV _];
      [done|done|unfold PageSize in *; lia|].
    destruct (R_roundsUp (sh_size Sec) 8) as [HrO _];
      [done|done|unfold PageSize in *; lia|].
    rewrite !uint64_small by (unfold PageSize in *; lia).
    set (Sec' := mkOutputSection (Name Sec) V _ (sh_size Sec) (Chunks Sec)) in *.
    set (s2 := with_Heap h1 (with_OutputSections (pre ++ Sec' :: Secs) s)) in *.
    destruct (IH (pre ++ [Sec']) (V + R (sh_size Sec) PageSize)
                (Off + R (sh_size Sec) 8) s2) as (h2 & Hrun & Hout2 & Hin2);
      try (unfold PageSize in *; lia); try done.
    { unfold s2. simpl. by rewrite <- app_assoc. }
    { intros C HC. unfold s2. simpl. rewrite Hout.
      - apply Hv, elem_of_app. by right.
      - intros HC'. by apply (Hdisj C). }
    replace (S (length pre)) with (length (pre ++ [Sec']))
      by (rewrite length_app; simpl; lia).
    rewrite Hrun. exists h2. conjs.
    + simpl. unfold s2, with_Heap, with_OutputSections. simpl.
      by rewrite <- app_assoc.
    + intros C HC. apply not_elem_of_app in HC as [HC1 HC2].
      rewrite Hout2 by done. unfold s2. simpl. by apply Hout.
    + intros Sec0 C c HS HC Hc. simpl in HS.
      apply elem_of_cons in HS as [->|HS].
      * rewrite Hout2; [unfold s2; simpl; by apply Hin|].
        intros HC'. by apply (Hdisj C).
      * assert (C ∈ allChunks Secs) as HCr.
        { rewrite <- (allChunks_place (V + R (sh_size Sec) PageSize)
                        (Off + R (sh_size Sec) 8)).
          by eapply elem_of_allChunks. }
        apply (Hin2 Sec0 C c HS HC). unfold s2. simpl. rewrite Hout; [done|].
        intros HC'. by apply (Hdisj C).
Qed.

(** *** The addresses of the sections *)

Lemma length_place V Off Secs : length (place R V Off Secs) = length Secs.
Proof.
  revert V Off. induction Secs as [|Sec Secs IH]; intros V Off; simpl; auto.
Qed.

Lemma divide_8_page z : (PageSize | z) -> (8 | z).
Proof. intros [q ->]. exists (q * 512). unfold PageSize. lia. Qed.

Lemma place_spec Secs : forall V Off,
  Forall (fun Sec => 0 <= sh_size Sec) Secs ->
  0 <= V -> 0 <= Off -> V + span Secs <= 2 ^ 64 -> Off + span Secs <= 2 ^ 64 ->
  (PageSize | V) -> (8 | Off) ->
  (V <= endOf R PageSize V Secs <= V + span Secs) /\
  (Off <= endOf R 8 Off Secs <= Off + span Secs) /\
  (PageSize | endOf R PageSize V Secs) /\ (8 | endOf R 8 Off Secs) /\
  (forall k A, place R V Off Secs !! k = Some A ->
     exists Sec, Secs !! k = Some Sec /\
       Name A = Name Sec /\ sh_size A = sh_size Sec /\ Chunks A = Chunks Sec /\
       V <= sh_addr A /\ sh_addr A + sh_size A <= endOf R PageSize V Secs /\
       (PageSize | sh_addr A) /\
       (sh_size A = 0 -> sh_offset A = sh_offset Sec) /\
       (sh_size A <> 0 ->
          Off <= sh_offset A /\ (8 | sh_offset A) /\
          sh_offset A + sh_size A <= endOf R 8 Off Secs)) /\
  (forall i j A B, (i < j)%nat ->
     place R V Off Secs !! i = Some A -> place R V Off Secs !! j = Some B ->
     sh_addr A + sh_size A <= sh_addr B /\
     (sh_size A <> 0 -> sh_size B <> 0 ->
      sh_offset A + sh_size A <= sh_offset B)).
Proof.
  induction Secs as [|Sec Secs IH]; intros V Off Hsz HV HOff HbV HbO HdV HdO.
  - unfold endOf. simpl. conjs; try lia; try done.
  - apply Forall_cons in Hsz as [Hsz1 Hsz].
    pose proof (span_nonneg Secs Hsz) as Hsp. simpl in HbV, HbO.
    assert (HP : PageSize = 4096) by done.
    destruct (R_roundsUp (sh_size Sec) PageSize) as [HrV HaV]; [lia..|].
    destruct (R_roundsUp (sh_size Sec) 8) as [HrO HaO]; [lia..|].
    destruct (IH (V + R (sh_size Sec) PageSize) (Off + R (sh_size Sec) 8))
      as (HeV & HeO & HdeV & HdeO & Heach & Hord); try lia; try done.
    { by apply Z.divide_add_r. }
    { by apply Z.divide_add_r. }
    change (endOf R PageSize V (Sec :: Secs))
      with (endOf R PageSize (V + R (sh_size Sec) PageSize) Secs).
    change (endOf R 8 Off (Sec :: Secs))
      with (endOf R 8 (Off + R (sh_size Sec) 8) Secs).
    cbn [span].
    split; [lia|]. split; [lia|]. split; [done|]. split; [done|]. split.
    + intros [|k] A HA; cbn in HA.
      * injection HA as <-. exists Sec. simpl.
        conjs; try done; try lia.
        -- intros ->. done.
        -- intros Hne. apply Z.eqb_neq in Hne. rewrite Hne. conjs; [lia|done|lia].
      * destruct (Heach k A HA) as (Sec0 & ? & ? & ? & ? & ? & ? & ? & ? & Hoff).
        exists Sec0. conjs; try done; try lia.
        intros Hne. destruct (Hoff Hne) as (? & ? & ?). conjs; [lia|done|lia].
    + intros [|i] [|j] A B Hij HA HB; cbn in HA, HB; try lia.
      * injection HA as <-. simpl.
        destruct (Heach j B HB) as (Sec0 & ? & ? & ? & ? & ? & ? & ? & ? & Hoff).
        split; [lia|]. intros HneA Hne. destruct (Hoff Hne) as (? & ? & ?).
        apply Z.eqb_neq in HneA. rewrite HneA. lia.
      * apply (Hord i j A B); [lia|done|done].
Qed.

Lemma headers_spec n :
  0 <= EhdrSize -> 0 <= ShdrSize ->
  EhdrSize + ShdrSize * Z.of_nat n + PageSize <= 2 ^ 64 ->
  let H := R (uint64 (EhdrSize + uint64 (ShdrSize * Z.of_nat n))) PageSize in
  EhdrSize + ShdrSize * Z.of_nat n <= H <
    EhdrSize + ShdrSize * Z.of_nat n + PageSize /\ (PageSize | H).
Proof.
  intros HE HS Hb H. subst H. assert (HP : PageSize = 4096) by done.
  assert (0 <= ShdrSize * Z.of_nat n) by nia.
  rewrite (uint64_small (ShdrSize * _)) by lia.
  rewrite uint64_small by lia.
  apply R_roundsUp; lia.
Qed.

(** *** The sections of the chunks *)

Lemma ltb_trans (x y z : string) :
  String.ltb x y = true -> String.ltb y z = true -> String.ltb x z = true.
Proof.
  unfold String.ltb. intros Hxy Hyz.
  destruct (String.compare x y) eqn:Exy; try done.
  destruct (String.compare y z) eqn:Eyz; try done.
  apply OrderedTypeEx.String_as_OT.cmp_lt in Exy, Eyz.
  pose proof (OrderedTypeEx.String_as_OT.lt_trans _ _ _ Exy Eyz) as Hxz.
  apply OrderedTypeEx.String_as_OT.cmp_lt in Hxz.
  unfold OrderedTypeEx.String_as_OT.cmp in Hxz. by rewrite Hxz.
Qed.

Lemma ltb_total (x y : string) :
  String.ltb y x = false -> String.eqb x y = false -> String.ltb x y = true.
Proof.
  unfold String.ltb. rewrite (String.compare_antisym y x).
  intros Hyx Hne. apply String.eqb_neq in Hne.
  destruct (String.compare x y) eqn:Exy; simpl in *; try done.
  by apply String.compare_eq_iff in Exy.
Qed.

Lemma ltb_irrefl (x : string) : String.ltb x x = false.
Proof.
  unfold String.ltb. destruct (String.compare x x) eqn:E; try done.
  pose proof (String.compare_antisym x x) as H. by rewrite E in H.
Qed.

Lemma span_app Secs1 Secs2 : span (Secs1 ++ Secs2) = span Secs1 + span Secs2.
Proof. induction Secs1 as [|Sec Secs1 IH]; simpl; lia. Qed.

Lemma allChunks_app Secs1 Secs2 :
  allChunks (Secs1 ++ Secs2) = allChunks Secs1 ++ allChunks Secs2.
Proof. unfold allChunks. by rewrite fmap_app, concat_app. Qed.

Lemma demand_app h Cs Ds : demand h (Cs ++ Ds) = demand h Cs + demand h Ds.
Proof. induction Cs as [|C Cs IH]; simpl; lia. Qed.

Lemma demand_nonneg h Cs :
  (forall C, C ∈ Cs -> exists c, h !! C = Some c /\ 0 < Align c /\ 0 <= Size c) ->
  0 <= demand h Cs.
Proof.
  induction Cs as [|C Cs IH]; intros Hv; simpl; [lia|].
  destruct (Hv C) as (c & -> & ? & ?); [by left|].
  assert (0 <= demand h Cs) by (apply IH; intros; apply Hv; by right).
  unfold PageSize. lia.
Qed.

Lemma inOrder_same pos h h' lo Cs hi :
  (forall C, C ∈ Cs -> h' !! C = h !! C) ->
  inOrder pos h lo Cs hi -> inOrder pos h' lo Cs hi.
Proof.
  revert lo. induction Cs as [|C Cs IH]; intros lo Hext; simpl; [done|].
  intros (c & Hc & ? & ? & Hrest). exists c. conjs; auto.
  - rewrite Hext; [done|by left].
  - apply IH; [|done]. intros. apply Hext. by right.
Qed.

Lemma packed_same h h' Sec :
  (forall C, C ∈ Chunks Sec -> h' !! C = h !! C) -> packed h Sec -> packed h' Sec.
Proof.
  intros Hext [Hord Hal]. split; [by eapply inOrder_same|].
  intros C c HC Hc. apply (Hal C); [done|]. by rewrite <- Hext.
Qed.

Lemma owned_same h h' k Sec :
  (forall C, C ∈ Chunks Sec -> h' !! C = h !! C) -> owned h k Sec -> owned h' k Sec.
Proof.
  intros Hext Hown C HC. destruct (Hown C HC) as (c & ? & ?).
  exists c. by rewrite Hext.
Qed.

Lemma sizes_nonneg h0 done Prev Cur s :
  createInv h0 done Prev Cur s ->
  Forall (fun Sec => 0 <= sh_size Sec) (OutputSections s).
Proof.
  intros (_ & I2 & _). apply Forall_lookup. intros k Sec' Hk.
  by destruct (I2 k Sec' Hk) as (_ & _ & _ & ?).
Qed.

Lemma chunks_done h0 done Prev Cur s :
  createInv h0 done Prev Cur s ->
  forall k Sec' C,
    OutputSections s !! k = Some Sec' -> C ∈ Chunks Sec' -> C ∈ done.
Proof.
  intros (<- & _) k Sec' C Hk HC. apply (elem_of_allChunks _ Sec'); [|done].
  by apply (list_elem_of_lookup_2 _ k).
Qed.

Lemma new_section_step h0 done Prev Cur s C c0 :
  createInv h0 done Prev Cur s ->
  C ∉ done -> h0 !! C = Some c0 -> 0 < Align c0 -> 0 <= Size c0 ->
  Align c0 + Size c0 <= 2 ^ 64 ->
  (forall A, A ∈ OutputSections s ->
     String.ltb (Name A) (SectionName c0) = true) ->
  exists s',
    addChunk R (length (OutputSections s)) C
      (with_OutputSections
         (OutputSections s ++ [newOutputSection (SectionName c0)]) s) =
      Some s' /\
    createInv h0 (done ++ [C]) (Some C) (Some (length (OutputSections s))) s'.
Proof.
  intros Hinv HC Hc0 Ha Hs Hb Hlt.
  pose proof (chunks_done _ _ _ _ _ Hinv) as Hdone.
  destruct Hinv as (I1 & I2 & I3 & I4 & I5 & I6 & I7 & I8).
  assert (HR : R 0 (Align c0) = 0).
  { apply R_aligned; try lia. by exists 0. }
  set (c1 := mkChunk 0 0 (Size c0) (Align c0) (SectionName c0)
               (Some (length (OutputSections s)))).
  set (SecN := mkOutputSection (SectionName c0) 0 0 (Size c0) [C]).
  exists (with_Heap (<[C := c1]> (Heap s))
            (with_OutputSections (OutputSections s ++ [SecN]) s)).
  split.
  { unfold addChunk. simpl. rewrite list_lookup_middle by done. simpl.
    rewrite (I4 C HC), Hc0. simpl. rewrite HR. simpl.
    rewrite uint64_small by lia. unfold with_Heap, with_OutputSections. simpl.
    by rewrite insert_middle. }
  assert (Hold : forall k Sec' D, OutputSections s !! k = Some Sec' ->
            D ∈ Chunks Sec' -> <[C := c1]> (Heap s) !! D = Heap s !! D).
  { intros k Sec' D Hk HD. apply lookup_insert_ne. intros ->.
    apply HC. by eapply Hdone. }
  unfold createInv. simpl. conjs.
  - by rewrite allChunks_app, I1.
  - intros k Sec' Hk. apply lookup_snoc_Some in Hk as [[_ Hk]|[-> <-]].
    + destruct (I2 k Sec' Hk) as (? & ? & ? & ?). conjs; [done| | |done].
      * eapply packed_same; [|done]. intros. by eapply Hold.
      * eapply owned_same; [|done]. intros. by eapply Hold.
    + simpl. conjs; [done| | |done].
      * split.
        -- simpl. exists c1. rewrite lookup_insert_eq. simpl. conjs; try done; lia.
        -- intros D d HD. apply list_elem_of_singleton in HD as ->.
           rewrite lookup_insert_eq. intros [= <-]. simpl. split; [done|by exists 0].
      * intros D HD. apply list_elem_of_singleton in HD as ->.
        exists c1. by rewrite lookup_insert_eq.
  - intros D. destruct (decide (D = C)) as [->|Hne].
    + by rewrite lookup_insert_eq, Hc0.
    + by rewrite lookup_insert_ne.
  - intros D HD. apply not_elem_of_app in HD as [HD1 HD2].
    rewrite lookup_insert_ne; [by apply I4|].
    intros ->. apply HD2. by left.
  - exists C, c0, (OutputSections s), SecN. conjs; try done.
    apply elem_of_app. right. by left.
  - intros i j A B Hij Hi Hj.
    apply lookup_snoc_Some in Hj as [[Hj1 Hj]|[-> <-]].
    + apply lookup_snoc_Some in Hi as [[_ Hi]|[-> _]]; [|lia].
      exact (I6 i j A B Hij Hi Hj).
    + apply lookup_snoc_Some in Hi as [[_ Hi]|[-> _]]; [|lia].
      simpl. apply Hlt. by eapply list_elem_of_lookup_2.
  - rewrite span_app, demand_app. simpl. rewrite Hc0. unfold PageSize in *. lia.
  - rewrite !length_app. simpl. lia.
Qed.

Lemma same_section_step h0 done P k s C c0 :
  createInv h0 done (Some P) (Some k) s ->
  C ∉ done -> h0 !! C = Some c0 -> 0 < Align c0 -> 0 <= Size c0 ->
  demand h0 done + Size c0 + Align c0 <= 2 ^ 64 ->
  (forall SecK, OutputSections s !! k = Some SecK ->
     SectionName c0 = Name SecK) ->
  exists s',
    addChunk R k C s = Some s' /\
    createInv h0 (done ++ [C]) (Some P) (Some k) s'.
Proof.
  intros Hinv HC Hc0 Ha Hs Hb Hname.
  pose proof (chunks_done _ _ _ _ _ Hinv) as Hdone.
  pose proof (sizes_nonneg _ _ _ _ _ Hinv) as Hsz.
  destruct Hinv as (I1 & I2 & I3 & I4 & I5 & I6 & I7 & I8).
  destruct I5 as (P' & p & pre & SecK & [= <-] & Hsecs & -> & HP & Hp & Hpn).
  assert (Hk : OutputSections s !! length pre = Some SecK).
  { rewrite Hsecs. by apply list_lookup_middle. }
  destruct (I2 _ _ Hk) as (Hne & [Hord Hal] & Hown & Hsize).
  rewrite Hsecs in Hsz, I7. apply Forall_app in Hsz as [Hszp _].
  pose proof (span_nonneg _ Hszp) as Hsp.
  rewrite span_app in I7. simpl in I7.
  assert (HPg : PageSize = 4096) by done.
  destruct (R_roundsUp (sh_size SecK) (Align c0)) as [HR HRa]; [lia..|].
  set (Off := R (sh_size SecK) (Align c0)) in *.
  set (c1 := mkChunk Off Off (Size c0) (Align c0) (SectionName c0)
               (Some (length pre))).
  set (SecK' := mkOutputSection (Name SecK) (sh_addr SecK) (sh_offset SecK)
                  (Off + Size c0) (Chunks SecK ++ [C])).
  exists (with_Heap (<[C := c1]> (Heap s))
            (with_OutputSections (pre ++ [SecK']) s)).
  split.
  { unfold addChunk. rewrite Hk. simpl. rewrite (I4 C HC), Hc0. simpl.
    fold Off. rewrite uint64_small by lia.
    unfold with_Heap, with_OutputSections. simpl.
    by rewrite Hsecs, insert_middle. }
  assert (Hold : forall i Sec' D, OutputSections s !! i = Some Sec' ->
            D ∈ Chunks Sec' -> <[C := c1]> (Heap s) !! D = Heap s !! D).
  { intros i Sec' D Hi HD. apply lookup_insert_ne. intros ->.
    apply HC. by eapply Hdone. }
  unfold createInv. simpl. conjs.
  - rewrite allChunks_app, <- I1, Hsecs, allChunks_app.
    unfold allChunks. simpl. by rewrite !app_nil_r, app_assoc.
  - intros i Sec' Hi. apply lookup_snoc_Some in Hi as [[Hi1 Hi]|[-> <-]].
    + assert (OutputSections s !! i = Some Sec') as Hi'.
      { rewrite Hsecs. by apply lookup_app_l_Some. }
      destruct (I2 i Sec' Hi') as (? & ? & ? & ?). conjs; [done| | |done].
      * eapply packed_same; [|done]. intros. by eapply Hold.
      * eapply owned_same; [|done]. intros. by eapply Hold.
    + simpl. conjs.
      * by destruct (Chunks SecK).
      * split.
        -- simpl. eapply inOrder_app.
           ++ eapply inOrder_same; [|exact Hord]. intros. by eapply Hold.
           ++ simpl. exists c1. rewrite lookup_insert_eq. simpl.
              conjs; try done; lia.
        -- intros D d HD. simpl in HD. apply elem_of_app in HD as [HD|HD].
           ++ rewrite (Hold _ _ _ Hk HD). by apply Hal.
           ++ apply list_elem_of_singleton in HD as ->.
              rewrite lookup_insert_eq. intros [= <-]. by simpl.
      * intros D HD. simpl in HD. apply elem_of_app in HD as [HD|HD].
        -- rewrite (Hold _ _ _ Hk HD). by apply Hown.
        -- apply list_elem_of_singleton in HD as ->.
           exists c1. rewrite lookup_insert_eq. simpl. conjs; try done.
           by apply Hname.
      * lia.
  - intros D. destruct (decide (D = C)) as [->|Hne'].
    + by rewrite lookup_insert_eq, Hc0.
    + by rewrite lookup_insert_ne.
  - intros D HD. apply not_elem_of_app in HD as [HD1 HD2].
    rewrite lookup_insert_ne; [by apply I4|].
    intros ->. apply HD2. by left.
  - exists P, p, pre, SecK'. conjs; try done.
    apply elem_of_app. by left.
  - intros i j A B Hij Hi Hj.
    assert (forall i A, (pre ++ [SecK']) !! i = Some A ->
              exists A', OutputSections s !! i = Some A' /\ Name A' = Name A)
      as Hsame.
    { intros i' A' Hi'. rewrite Hsecs.
      apply lookup_snoc_Some in Hi' as [[? Hi']|[-> <-]].
      - exists A'. split; [by apply lookup_app_l_Some|done].
      - exists SecK. split; [by apply list_lookup_middle|done]. }
    destruct (Hsame i A Hi) as (A' & HA' & <-).
    destruct (Hsame j B Hj) as (B' & HB' & <-).
    exact (I6 i j A' B' Hij HA' HB').
  - rewrite span_app, demand_app. simpl. rewrite Hc0. lia.
  - rewrite Hsecs in I8. rewrite !length_app in *. simpl in *. lia.
Qed.

Lemma createLoop_spec h0 L :
  NoDup L ->
  (forall C, C ∈ L -> exists c, h0 !! C = Some c /\ 0 < Align c /\ 0 <= Size c) ->
  ordered h0 L -> demand h0 L <= 2 ^ 64 ->
  forall rest done Prev Cur s,
    L = done ++ rest -> createInv h0 done Prev Cur s ->
    exists s' Prev' Cur',
      createLoop R rest Prev Cur s = Some s' /\ createInv h0 L Prev' Cur' s'.
Proof.
  intros HndL Hvalid Hord Hdem.
  induction rest as [|C rest IH]; intros done Prev Cur s HL Hinv.
  - exists s, Prev, Cur. rewrite app_nil_r in HL. by subst.
  - assert (C ∈ L) as HCL by (rewrite HL; apply elem_of_app; right; by left).
    destruct (Hvalid C HCL) as (c0 & Hc0 & Ha & Hs).
    assert (C ∉ done) as HCd.
    { rewrite HL in HndL. apply NoDup_app in HndL as (_ & Hdisj & _).
      intros HCd. apply (Hdisj C HCd). by left. }
    assert (demand h0 done + (Size c0 + Align c0 + PageSize) + demand h0 rest
            = demand h0 L) as Hdemand.
    { rewrite HL, demand_app. simpl. rewrite Hc0. lia. }
    assert (0 <= demand h0 rest) as Hrest.
    { apply demand_nonneg. intros D HD. apply Hvalid. rewrite HL.
      apply elem_of_app. right. by right. }
    assert (0 <= demand h0 done) as Hdone.
    { apply demand_nonneg. intros D HD. apply Hvalid. rewrite HL.
      apply elem_of_app. by left. }
    assert (HPg : PageSize = 4096) by done.
    assert (Heap s !! C = Some c0) as Hheap.
    { destruct Hinv as (_ & _ & _ & I4 & _). by rewrite I4. }
    assert (L = (done ++ [C]) ++ rest) as HL' by (by rewrite <- app_assoc).
    cbn [createLoop]. rewrite Hheap. cbn [mbind option_bind].
    destruct Cur as [k|].
    + pose proof Hinv as (I1 & I2 & I3 & I4 & I5 & I6 & I7 & I8).
      destruct I5 as (P & p & pre & SecK & -> & Hsecs & -> & HP & Hp & Hpn).
      assert (exists p', Heap s !! P = Some p' /\ SectionName p' = SectionName p)
        as (p' & Hp' & Hpn').
      { specialize (I3 P). rewrite Hp in I3.
        destruct (Heap s !! P) as [p'|]; [|done].
        exists p'. split; [done|]. simpl in I3. by injection I3. }
      rewrite Hp'. cbn [mbind option_bind]. rewrite Hpn', Hpn.
      destruct (String.eqb (Name SecK) (SectionName c0)) eqn:Heq; cbn [negb].
      * apply String.eqb_eq in Heq.
        destruct (same_section_step h0 done P (length pre) s C c0 Hinv HCd Hc0 Ha Hs)
          as (s1 & Hrun & Hinv1); [lia| |].
        { intros SecK0 Hk. rewrite Hsecs, list_lookup_middle in Hk by done.
          by injection Hk as <-. }
        cbn [mbind option_bind]. rewrite Hrun. cbn [mbind option_bind].
        exact (IH _ _ _ _ HL' Hinv1).
      * destruct (new_section_step h0 done (Some P) (Some (length pre)) s C c0
                    Hinv HCd Hc0 Ha Hs) as (s1 & Hrun & Hinv1); [lia| |].
        { intros A HA.
          assert (String.ltb (Name SecK) (SectionName c0) = true) as Hlast.
          { apply ltb_total; [|done]. rewrite <- Hpn.
            apply list_elem_of_lookup_1 in HP as [i Hi].
            apply (Hord i (length done) P C p c0); try done.
            - by eapply lookup_lt_Some.
            - rewrite HL. by apply lookup_app_l_Some.
            - rewrite HL. by apply list_lookup_middle. }
          rewrite Hsecs in HA. apply elem_of_app in HA as [HA|HA].
          - apply list_elem_of_lookup_1 in HA as [i Hi].
            eapply ltb_trans; [|exact Hlast].
            apply (I6 i (length pre)).
            + by eapply lookup_lt_Some.
            + rewrite Hsecs. by apply lookup_app_l_Some.
            + rewrite Hsecs. by apply list_lookup_middle.
          - by apply list_elem_of_singleton in HA as ->. }
        cbn [mbind option_bind]. rewrite Hrun. cbn [mbind option_bind].
        exact (IH _ _ _ _ HL' Hinv1).
    + pose proof Hinv as (I1 & I2 & I3 & I4 & I5 & I6 & I7 & I8).
      destruct I5 as (-> & Hnil).
      destruct (new_section_step h0 done None None s C c0
                  Hinv HCd Hc0 Ha Hs) as (s1 & Hrun & Hinv1); [lia| |].
      { intros A HA. rewrite Hnil in HA. by apply elem_of_nil in HA. }
      cbn [mbind option_bind]. rewrite Hrun. cbn [mbind option_bind].
      exact (IH _ _ _ _ HL' Hinv1).
Qed.

Lemma demand_perm h Cs Ds : Cs ≡ₚ Ds -> demand h Cs = demand h Ds.
Proof.
  induction 1 as [|C Cs Ds _ IH|C D Cs|Cs Ds Es _ IH1 _ IH2]; simpl; lia.
Qed.

Lemma createSections_spec Cs s :
  OutputSections s = [] -> NoDup Cs ->
  (forall C, C ∈ Cs ->
     exists c, Heap s !! C = Some c /\ 0 < Align c /\ 0 <= Size c) ->
  sort (Heap s) Cs ≡ₚ Cs -> ordered (Heap s) (sort (Heap s) Cs) ->
  demand (Heap s) Cs <= 2 ^ 64 ->
  exists s' Prev Cur,
    createSections R sort Cs s = Some s' /\
    createInv (Heap s) (sort (Heap s) Cs) Prev Cur s'.
Proof.
  intros Hnil Hnd Hvalid Hperm Hord Hdem.
  assert (createInv (Heap s) [] None None s) as Hinit.
  { unfold createInv. rewrite Hnil. simpl. conjs; done. }
  destruct Cs as [|C Cs].
  - apply Permutation_nil_r in Hperm. rewrite Hperm.
    exists s, None, None. by split.
  - unfold createSections.
    apply (createLoop_spec (Heap s) (sort (Heap s) (C :: Cs)))
      with (done := []); try done.
    + by rewrite Hperm.
    + intros D HD. apply Hvalid. by rewrite <- Hperm.
    + by rewrite (demand_perm _ _ _ Hperm).
Qed.

(** *** The addresses of the chunks *)

Lemma elem_of_allChunks_inv Secs C :
  C ∈ allChunks Secs -> exists k Sec, Secs !! k = Some Sec /\ C ∈ Chunks Sec.
Proof.
  induction Secs as [|Sec Secs IH]; intros HC.
  - by apply elem_of_nil in HC.
  - rewrite allChunks_cons in HC. apply elem_of_app in HC as [HC|HC].
    + by exists 0%nat, Sec.
    + destruct (IH HC) as (k & Sec' & ? & ?). by exists (S k), Sec'.
Qed.

Lemma packed_valid h Secs :
  (forall k Sec, Secs !! k = Some Sec -> packed h Sec) ->
  (forall C, C ∈ allChunks Secs -> is_Some (h !! C)) /\
  Forall (fun Sec => 0 <= sh_size Sec) Secs.
Proof.
  intros Hp. split.
  - intros C HC. apply elem_of_allChunks_inv in HC as (k & Sec & Hk & HC).
    destruct (Hp k Sec Hk) as [Hord _]. revert Hord HC. generalize 0.
    induction (Chunks Sec) as [|D Ds IH]; intros lo Hord HC.
    + by apply elem_of_nil in HC.
    + destruct Hord as (d & Hd & _ & _ & Hrest).
      apply elem_of_cons in HC as [->|HC]; [by exists d|by eapply IH].
  - apply Forall_lookup. intros k Sec Hk. destruct (Hp k Sec Hk) as [Hord _].
    by apply inOrder_le in Hord.
Qed.

Lemma assignAddresses_spec s :
  NoDup (allChunks (OutputSections s)) ->
  (forall C, C ∈ allChunks (OutputSections s) -> is_Some (Heap s !! C)) ->
  Forall (fun Sec => 0 <= sh_size Sec) (OutputSections s) ->
  0 <= EhdrSize -> 0 <= ShdrSize ->
  EhdrSize + ShdrSize * Z.of_nat (length (OutputSections s)) + 2 * PageSize +
    span (OutputSections s) <= 2 ^ 64 ->
  exists H h',
    assignAddresses R EhdrSize ShdrSize s =
      Some (mkState h' (place R 0x1000 H (OutputSections s)) H
              (H + (endOf R PageSize 0x1000 (OutputSections s) - 0x1000))
              (endOf R 8 H (OutputSections s))) /\
    EhdrSize + ShdrSize * Z.of_nat (length (OutputSections s)) <= H <
      EhdrSize + ShdrSize * Z.of_nat (length (OutputSections s)) + PageSize /\
    (PageSize | H) /\
    (forall C, C ∉ allChunks (OutputSections s) -> h' !! C = Heap s !! C) /\
    (forall Sec C c, Sec ∈ place R 0x1000 H (OutputSections s) ->
       C ∈ Chunks Sec -> Heap s !! C = Some c -> h' !! C = Some (moved Sec c)).
Proof.
  intros Hnd Hv Hsz HE HS Hb.
  assert (HP : PageSize = 4096) by done.
  pose proof (span_nonneg _ Hsz) as Hsp.
  destruct (headers_spec (length (OutputSections s)) HE HS) as [HH HHd]; [lia|].
  set (H := R _ PageSize) in HH, HHd.
  destruct (assignFrom_spec (OutputSections s) [] 0x1000 H s)
    as (h' & Hrun & Hout & Hin); try done; try lia.
  destruct (place_spec (OutputSections s) 0x1000 H Hsz)
    as (HeV & HeO & HdV & HdO & _); try lia.
  { by exists 1. }
  { by apply divide_8_page. }
  exists H, h'. split; [|done].
  unfold assignAddresses. fold H. simpl in Hrun. rewrite Hrun.
  cbn [mbind option_bind].
  cbn [SizeOfHeaders SizeOfImage FileSize OutputSections Heap with_Heap
       with_OutputSections].
  rewrite (uint64_small (_ - 4096)) by lia.
  rewrite (uint64_small (_ - H)) by lia.
  rewrite !R_aligned; try lia.
  2: { apply Z.divide_sub_r; [done|by apply divide_8_page]. }
  2: { apply Z.divide_sub_r; [done|by exists 1]. }
  rewrite !uint64_small by lia. do 2 f_equal. lia.
Qed.


Lemma NoDup_chunks Secs k Sec :
  NoDup (allChunks Secs) -> Secs !! k = Some Sec -> NoDup (Chunks Sec).
Proof.
  revert k. induction Secs as [|Sec0 Secs IH]; intros k Hnd Hk.
  - by rewrite lookup_nil in Hk.
  - rewrite allChunks_cons in Hnd. apply NoDup_app in Hnd as (? & _ & ?).
    destruct k as [|k]; cbn in Hk; [by injection Hk as <-|by eapply IH].
Qed.

Lemma NoDup_sections Secs i j A B C :
  NoDup (allChunks Secs) -> Secs !! i = Some A -> Secs !! j = Some B ->
  C ∈ Chunks A -> C ∈ Chunks B -> i = j.
Proof.
  revert i j. induction Secs as [|Sec0 Secs IH]; intros i j Hnd Hi Hj HA HB.
  - by rewrite lookup_nil in Hi.
  - rewrite allChunks_cons in Hnd. apply NoDup_app in Hnd as (_ & Hdisj & Hnd).
    destruct i as [|i], j as [|j]; cbn in Hi, Hj.
    + done.
    + injection Hi as <-. exfalso. apply (Hdisj C HA).
      apply (elem_of_allChunks Secs B); [|done].
      by apply (list_elem_of_lookup_2 _ j).
    + injection Hj as <-. exfalso. apply (Hdisj C HB).
      apply (elem_of_allChunks Secs A); [|done].
      by apply (list_elem_of_lookup_2 _ i).
    + f_equal. by eapply IH.
Qed.

Lemma apart_sym pos a b : apart pos a b -> apart pos b a.
Proof. unfold apart. lia. Qed.

(** Where a chunk of the section at position [i] is after the addresses
    are assigned. *)
Lemma assignAddresses_located s :
  NoDup (allChunks (OutputSections s)) ->
  (forall k Sec, OutputSections s !! k = Some Sec -> packed (Heap s) Sec) ->
  0 <= EhdrSize -> 0 <= ShdrSize ->
  EhdrSize + ShdrSize * Z.of_nat (length (OutputSections s)) + 2 * PageSize +
    span (OutputSections s) <= 2 ^ 64 ->
  exists s', assignAddresses R EhdrSize ShdrSize s = Some s' /\
    (forall C, C ∉ allChunks (OutputSections s) -> Heap s' !! C = Heap s !! C) /\
    (forall i SecI C, OutputSections s !! i = Some SecI -> C ∈ Chunks SecI ->
       exists Sec c0 c,
         OutputSections s' !! i = Some Sec /\ Chunks Sec = Chunks SecI /\
         Heap s !! C = Some c0 /\ Heap s' !! C = Some c /\
         shape c = shape c0 /\ Out c = Out c0 /\ 0 <= Size c /\
         0 <= VA c0 /\ VA c0 + Size c0 <= sh_size Sec /\ (Align c0 | VA c0) /\
         VA c = sh_addr Sec + VA c0 /\
         FileOff c = (if sh_size Sec =? 0 then VA c0
                      else sh_offset Sec + VA c0) /\
         0x1000 <= sh_addr Sec /\ (PageSize | sh_addr Sec) /\
         (sh_size Sec <> 0 ->
            SizeOfHeaders s' <= sh_offset Sec /\
            sh_offset Sec + sh_size Sec <= FileSize s')) /\
    (forall i j A B, (i < j)%nat ->
       OutputSections s' !! i = Some A -> OutputSections s' !! j = Some B ->
       sh_addr A + sh_size A <= sh_addr B /\
       (sh_size A <> 0 -> sh_size B <> 0 ->
        sh_offset A + sh_size A <= sh_offset B)) /\
    (forall j B, OutputSections s' !! j = Some B ->
       sh_size B <> 0 -> 0 <= sh_offset B).
Proof.
  intros Hnd Hp HE HS Hb.
  destruct (packed_valid _ _ Hp) as [Hv Hsz].
  assert (HP : PageSize = 4096) by done.
  pose proof (span_nonneg _ Hsz) as Hsp.
  destruct (assignAddresses_spec s Hnd Hv Hsz HE HS Hb)
    as (H & h' & Hrun & HH & HHd & Hout & Hin).
  destruct (place_spec (OutputSections s) 0x1000 H Hsz)
    as (HeV & HeO & HdV & HdO & Heach & Hord); try lia.
  { by exists 1. }
  { by apply divide_8_page. }
  eexists. split; [exact Hrun|].
  cbn [SizeOfHeaders SizeOfImage FileSize OutputSections Heap].
  split; [done|]. split; [|split; [done|]].
  - intros i SecI C Hi HC.
    destruct (lookup_lt_is_Some_2 (place R 4096 H (OutputSections s)) i)
      as [Sec HSec].
    { rewrite length_place. by eapply lookup_lt_Some. }
    destruct (Heach i Sec HSec)
      as (Sec0 & Hi0 & Hn & Hs & Hc & Hlo & Hhi & Hal & _ & Hoff).
    assert (Sec0 = SecI) as -> by congruence.
    destruct (Hp i SecI Hi) as [Hio Hfa].
    destruct (Hv C) as [c0 Hc0].
    { apply (elem_of_allChunks _ SecI); [|done].
      by apply (list_elem_of_lookup_2 _ i). }
    destruct (inOrder_within _ _ _ _ _ _ _ Hio HC Hc0) as (Hv0 & Hs0 & Hv1).
    destruct (Hfa C c0 HC Hc0) as [Hfo Hdiv].
    assert (h' !! C = Some (moved Sec c0)) as Hc'.
    { apply Hin; [by apply (list_elem_of_lookup_2 _ i)| |done].
      by rewrite Hc. }
    exists Sec, c0, (moved Sec c0).
    split; [done|]. split; [done|]. split; [done|]. split; [done|].
    unfold moved. cbn [VA FileOff Size Out shape Align SectionName].
    rewrite uint64_small by lia.
    conjs; try done; try lia.
    destruct (Z.eqb_spec (sh_size Sec) 0) as [Hz|Hnz]; [done|].
    destruct (Hoff Hnz) as (? & ? & ?). rewrite uint64_small by lia. lia.
  - intros j B HB Hnz.
    destruct (Heach j B HB) as (_ & _ & _ & _ & _ & _ & _ & _ & _ & Hoff).
    destruct (Hoff Hnz) as (? & ? & ?). lia.
Qed.

Lemma assignAddresses_apart s :
  NoDup (allChunks (OutputSections s)) ->
  (forall k Sec, OutputSections s !! k = Some Sec -> packed (Heap s) Sec) ->
  0 <= EhdrSize -> 0 <= ShdrSize ->
  EhdrSize + ShdrSize * Z.of_nat (length (OutputSections s)) + 2 * PageSize +
    span (OutputSections s) <= 2 ^ 64 ->
  exists s', assignAddresses R EhdrSize ShdrSize s = Some s' /\
    (forall C, C ∉ allChunks (OutputSections s) -> Heap s' !! C = Heap s !! C) /\
    (forall C, C ∈ allChunks (OutputSections s) ->
       exists c0 c, Heap s !! C = Some c0 /\ Heap s' !! C = Some c /\
         shape c = shape c0 /\ Out c = Out c0 /\
         0x1000 <= VA c /\ ((Align c | PageSize) -> (Align c | VA c)) /\
         (0 < Size c ->
            SizeOfHeaders s' <= FileOff c /\ FileOff c + Size c <= FileSize s')) /\
    (forall A B a b,
       A ∈ allChunks (OutputSections s) -> B ∈ allChunks (OutputSections s) ->
       A <> B -> Heap s' !! A = Some a -> Heap s' !! B = Some b ->
       apart VA a b /\ apart FileOff a b).
Proof.
  intros Hnd Hp HE HS Hb.
  destruct (assignAddresses_located s Hnd Hp HE HS Hb)
    as (s' & Hrun & Hout & Hloc & Hord & Hoff0).
  exists s'. split; [done|]. split; [done|]. split.
  - intros C HC. apply elem_of_allChunks_inv in HC as (i & SecI & Hi & HC).
    destruct (Hloc i SecI C Hi HC)
      as (Sec & c0 & c & HSec & _ & Hc0 & Hc & Hsh & Hout' & Hsz & Hv0 & Hv1 &
          Hdiv & HVA & HFO & Hlo & Hal & Hfile).
    exists c0, c. conjs; try done; try lia.
    + injection Hsh as _ -> _. intros Hd. rewrite HVA.
      apply Z.divide_add_r; [|done]. by apply (Z.divide_trans _ PageSize).
    + intros Hpos. injection Hsh as Hs _ _.
      destruct (Z.eqb_spec (sh_size Sec) 0) as [Hz|Hnz]; [lia|].
      destruct (Hfile Hnz). lia.
  - assert (forall i j SecA SecB A B a b, (i < j)%nat ->
              OutputSections s !! i = Some SecA -> A ∈ Chunks SecA ->
              OutputSections s !! j = Some SecB -> B ∈ Chunks SecB ->
              Heap s' !! A = Some a -> Heap s' !! B = Some b ->
              apart VA a b /\ apart FileOff a b) as Hlt.
    { intros i j SecA SecB A B a b Hij Hi HA Hj HB Ha Hb'.
      destruct (Hloc i SecA A Hi HA)
        as (SA & a0 & a' & HSA & _ & Ha0 & Ha' & Hsha & _ & Hsza & Hva0 & Hva1 &
            _ & HVAa & HFOa & _).
      destruct (Hloc j SecB B Hj HB)
        as (SB & b0 & b' & HSB & _ & Hb0 & Hb'' & Hshb & _ & Hszb & Hvb0 & Hvb1 &
            _ & HVAb & HFOb & _).
      assert (a' = a) as -> by congruence. assert (b' = b) as -> by congruence.
      injection Hsha as Hsa _ _. injection Hshb as Hsb _ _.
      destruct (Hord i j SA SB Hij HSA HSB) as [Hadd Hoffs].
      pose proof (Hoff0 i SA HSA) as HoA. pose proof (Hoff0 j SB HSB) as HoB.
      unfold apart. rewrite HVAa, HVAb, HFOa, HFOb. split; [lia|].
      destruct (Z.eqb_spec (sh_size SA) 0), (Z.eqb_spec (sh_size SB) 0); lia. }
    intros A B a b HA HB Hne Ha Hb'.
    apply elem_of_allChunks_inv in HA as (i & SecA & Hi & HA).
    apply elem_of_allChunks_inv in HB as (j & SecB & Hj & HB).
    destruct (Nat.lt_trichotomy i j) as [Hij|[->|Hji]].
    + by eapply Hlt.
    + assert (SecA = SecB) as -> by congruence.
      destruct (Hloc j SecB A Hj HA)
        as (SA & a0 & a' & HSA & _ & Ha0 & Ha' & Hsha & _ & Hsza & Hva0 & Hva1 &
            _ & HVAa & HFOa & _).
      destruct (Hloc j SecB B Hj HB)
        as (SB & b0 & b' & HSB & _ & Hb0 & Hb'' & Hshb & _ & Hszb & Hvb0 & Hvb1 &
            _ & HVAb & HFOb & _).
      assert (a' = a) as -> by congruence. assert (b' = b) as -> by congruence.
      assert (SB = SA) as -> by congruence.
      injection Hsha as Hsa _ _. injection Hshb as Hsb _ _.
      destruct (Hp j SecB Hj) as [Hio _].
      pose proof (inOrder_apart _ _ _ _ _ _ _ _ _ Hio
                    (NoDup_chunks _ _ _ Hnd Hj) HA HB Hne Ha0 Hb0) as Hap.
      unfold apart in *. rewrite HVAa, HVAb, HFOa, HFOb.
      destruct (Z.eqb_spec (sh_size SA) 0); lia.
    + destruct (Hlt j i SecB SecA B A b a Hji Hj HB Hi HA Hb' Ha).
      split; by apply apart_sym.
Qed.

(** *** The layout of a file *)

(** Property X21: addChunk appends a chunk to a section without disturbing the
    chunks that are there.  For a section whose chunks are placed in order
    up to its size, and a chunk that is not yet in it, addChunk returns;
    the chunk becomes the last of the section, at the first multiple of its
    alignment at or behind the old size, with the same file offset, and
    records the section; the new size of the section is the end of the
    chunk; the section is again placed in order, and no other chunk and no
    other section changes. *)
Theorem addChunk_keeps_section_packed this C s Sec c :
  OutputSections s !! this = Some Sec -> Heap s !! C = Some c ->
  packed (Heap s) Sec -> C ∉ Chunks Sec ->
  0 < Align c -> 0 <= Size c -> sh_size Sec + Align c + Size c <= 2 ^ 64 ->
  exists s' Sec' c',
    addChunk R this C s = Some s' /\
    OutputSections s' = <[this := Sec']> (OutputSections s) /\
    Name Sec' = Name Sec /\ Chunks Sec' = Chunks Sec ++ [C] /\
    packed (Heap s') Sec' /\
    Heap s' = <[C := c']> (Heap s) /\
    shape c' = shape c /\ Out c' = Some this /\
    FileOff c' = VA c' /\ (Align c | VA c') /\
    sh_size Sec <= VA c' < sh_size Sec + Align c /\
    sh_size Sec' = VA c' + Size c.
Proof.
  intros Hk Hc [Hord Hal] HC Ha Hs Hb.
  pose proof (inOrder_le _ _ _ _ _ Hord) as Hsz.
  destruct (R_roundsUp (sh_size Sec) (Align c)) as [HR HRa]; [lia..|].
  set (Off := R (sh_size Sec) (Align c)) in *.
  set (c1 := mkChunk Off Off (Size c) (Align c) (SectionName c) (Some this)).
  set (Sec1 := mkOutputSection (Name Sec) (sh_addr Sec) (sh_offset Sec)
                 (Off + Size c) (Chunks Sec ++ [C])).
  exists (with_Heap (<[C := c1]> (Heap s))
            (with_OutputSections (<[this := Sec1]> (OutputSections s)) s)),
    Sec1, c1.
  split.
  { unfold addChunk. rewrite Hk. simpl. rewrite Hc. simpl. fold Off.
    by rewrite uint64_small by lia. }
  simpl. conjs; try done; try lia.
  split.
  - eapply inOrder_app.
    + eapply inOrder_same; [|exact Hord]. intros D HD.
      apply lookup_insert_ne. by intros ->.
    + simpl. exists c1. rewrite lookup_insert_eq. simpl. conjs; try done; lia.
  - intros D d HD. apply elem_of_app in HD as [HD|HD].
    + rewrite lookup_insert_ne by (by intros ->). by apply Hal.
    + apply list_elem_of_singleton in HD as ->.
      rewrite lookup_insert_eq. intros [= <-]. by simpl.
Qed.

(** Property X22: createSections makes one output section for every section
    name and puts every chunk into the section of its name.  On a writer
    without sections and chunks that are listed once, it returns; the
    sections hold the chunks in the order std::sort left them, each chunk
    in exactly one section; no section is empty; every chunk records its
    section and has the name of that section; the names of the sections
    increase strictly, hence are distinct, so two chunks are in the same
    section exactly if their section names are equal; size, alignment and
    section name of a chunk are not changed. *)
Theorem createSections_groups_by_name Cs s :
  OutputSections s = [] -> NoDup Cs ->
  (forall C, C ∈ Cs ->
     exists c, Heap s !! C = Some c /\ 0 < Align c /\ 0 <= Size c) ->
  sort (Heap s) Cs ≡ₚ Cs -> ordered (Heap s) (sort (Heap s) Cs) ->
  demand (Heap s) Cs <= 2 ^ 64 ->
  exists s', createSections R sort Cs s = Some s' /\
    allChunks (OutputSections s') = sort (Heap s) Cs /\
    (forall k Sec, OutputSections s' !! k = Some Sec ->
       Chunks Sec <> [] /\ owned (Heap s') k Sec) /\
    (forall i j A B, (i < j)%nat ->
       OutputSections s' !! i = Some A -> OutputSections s' !! j = Some B ->
       String.ltb (Name A) (Name B) = true) /\
    (forall C D c d, C ∈ Cs -> D ∈ Cs ->
       Heap s' !! C = Some c -> Heap s' !! D = Some d ->
       Out c = Out d <-> SectionName c = SectionName d) /\
    (forall C, shape <$> Heap s' !! C = shape <$> Heap s !! C) /\
    (forall C, C ∉ Cs -> Heap s' !! C = Heap s !! C).
Proof.
  intros Hnil Hnd Hvalid Hperm Hord Hdem.
  destruct (createSections_spec Cs s Hnil Hnd Hvalid Hperm Hord Hdem)
    as (s' & Prev & Cur & Hrun & I1 & I2 & I3 & I4 & I5 & I6 & I7 & I8).
  exists s'. conjs; try done.
  - intros k Sec Hk. by destruct (I2 k Sec Hk) as (? & _ & ? & _).
  - assert (forall C c, C ∈ Cs -> Heap s' !! C = Some c ->
              exists k Sec, OutputSections s' !! k = Some Sec /\
                Out c = Some k /\ SectionName c = Name Sec) as Hsec.
    { intros C c HC Hc. rewrite <- Hperm, <- I1 in HC.
      apply elem_of_allChunks_inv in HC as (k & Sec & Hk & HC).
      destruct (I2 k Sec Hk) as (_ & _ & Hown & _).
      destruct (Hown C HC) as (c' & Hc' & ? & ?).
      assert (c' = c) as -> by congruence. by exists k, Sec. }
    intros C D c d HC HD Hc Hd.
    destruct (Hsec C c HC Hc) as (k & SecC & Hk & HoC & HnC).
    destruct (Hsec D d HD Hd) as (l & SecD & Hl & HoD & HnD).
    rewrite HoC, HoD, HnC, HnD. split.
    + intros [= ->]. congruence.
    + intros Hn. f_equal.
      destruct (Nat.lt_trichotomy k l) as [Hkl|[->|Hlk]]; [|done|].
      * pose proof (I6 k l SecC SecD Hkl Hk Hl) as Hlt.
        rewrite Hn, ltb_irrefl in Hlt. done.
      * pose proof (I6 l k SecD SecC Hlk Hl Hk) as Hlt.
        rewrite Hn, ltb_irrefl in Hlt. done.
  - intros C HC. apply I4. by rewrite Hperm.
Qed.


(** Property X25: the layout steps of write, createSections and then
    assignAddresses, place the chunks of the linked files without overlap.
    For chunks that are listed once, with positive alignments and sizes
    that fit in 64 bits, both steps return; every chunk keeps size,
    alignment and section name, gets an address at 0x1000 or above, which
    is a multiple of its alignment if the alignment divides the page size,
    and, unless it is empty, lies in the file behind the headers and
    within FileSize; the address ranges of any two chunks are disjoint, and
    so are their ranges in the file. *)
Theorem layout_chunks_do_not_overlap Cs s :
  OutputSections s = [] -> NoDup Cs ->
  (forall C, C ∈ Cs ->
     exists c, Heap s !! C = Some c /\ 0 < Align c /\ 0 <= Size c) ->
  sort (Heap s) Cs ≡ₚ Cs -> ordered (Heap s) (sort (Heap s) Cs) ->
  0 <= EhdrSize -> 0 <= ShdrSize ->
  EhdrSize + ShdrSize * Z.of_nat (length Cs) + 2 * PageSize +
    demand (Heap s) Cs <= 2 ^ 64 ->
  exists s', layout R EhdrSize ShdrSize sort Cs s = Some s' /\
    (forall C, C ∉ Cs -> Heap s' !! C = Heap s !! C) /\
    (forall C, C ∈ Cs ->
       exists c0 c, Heap s !! C = Some c0 /\ Heap s' !! C = Some c /\
         shape c = shape c0 /\
         0x1000 <= VA c /\ ((Align c | PageSize) -> (Align c | VA c)) /\
         (0 < Size c ->
            SizeOfHeaders s' <= FileOff c /\ FileOff c + Size c <= FileSize s')) /\
    (forall A B a b, A ∈ Cs -> B ∈ Cs -> A <> B ->
       Heap s' !! A = Some a -> Heap s' !! B = Some b ->
       apart VA a b /\ apart FileOff a b).
Proof.
  intros Hnil Hnd Hvalid Hperm Hord HE HS Hb.
  assert (HP : PageSize = 4096) by done.
  assert (0 <= ShdrSize * Z.of_nat (length Cs)) by nia.
  destruct (createSections_spec Cs s Hnil Hnd Hvalid Hperm Hord)
    as (s1 & Prev & Cur & Hrun1 & Hinv); [lia|].
  pose proof (sizes_nonneg _ _ _ _ _ Hinv) as Hsz.
  destruct Hinv as (I1 & I2 & I3 & I4 & I5 & I6 & I7 & I8).
  rewrite (demand_perm _ _ _ Hperm) in I7.
  rewrite (Permutation_length Hperm) in I8.
  destruct (assignAddresses_apart s1) as (s' & Hrun & Hout & Heach & Hapart);
    try done.
  { rewrite I1. by rewrite Hperm. }
  { intros k Sec Hk. by destruct (I2 k Sec Hk) as (_ & ? & _). }
  { assert (ShdrSize * Z.of_nat (length (OutputSections s1))
            <= ShdrSize * Z.of_nat (length Cs)) by nia.
    lia. }
  rewrite I1 in Hout, Heach, Hapart.
  exists s'. split.
  { unfold layout. rewrite Hrun1. simpl. exact Hrun. }
  conjs.
  - intros C HC. rewrite Hout by (by rewrite Hperm).
    apply I4. by rewrite Hperm.
  - intros C HC.
    destruct (Heach C) as (c1 & c & Hc1 & Hc & Hsh & _ & ? & ? & ?);
      [by rewrite Hperm|].
    destruct (Hvalid C HC) as (c0 & Hc0 & _).
    exists c0, c. conjs; try done.
    specialize (I3 C). rewrite Hc1, Hc0 in I3. simpl in I3. congruence.
  - intros A B a b HA HB. apply Hapart; by rewrite Hperm.
Qed.

End WriterLayout.

(** *** The rounding of the LLVM support library *)

Lemma RoundUpToAlignment_roundsUp :
  Writer.roundsUp WriterExamples.RoundUpToAlignment.
Proof.
  intros v a Hv Ha Hb. unfold WriterExamples.RoundUpToAlignment, Writer.uint64.
  rewrite (Z.mod_small (v + a - 1)) by lia.
  pose proof (Z.div_mod (v + a - 1) a ltac:(lia)) as Hdiv.
  pose proof (Z.mod_pos_bound (v + a - 1) a Ha) as Hmod.
  rewrite (Z.mul_comm a) in Hdiv.
  rewrite Z.mod_small by lia.
  split; [lia|]. by exists ((v + a - 1) / a).
Qed.

(** ** The further properties on concrete inputs *)

Import Examples Scenarios.

Lemma undefined_shared_order_independent_witness :
  Symtab dsoTable !! "deflate" = None /\
  SharedFiles dsoTable !! fp_index DSO = Some (libz "libz.so") /\
  exists st1 st2 Sy,
    (addUndefined env (addFile env 1) "deflate" STB_GLOBAL 0 2 false (Some F1) ;;
     addShared env DSO "deflate" strong None) dsoTable = Done (tt, st1) /\
    (addShared env DSO "deflate" strong None ;;
     addUndefined env (addFile env 1) "deflate" STB_GLOBAL 0 2 false (Some F1) ;;
     ret tt) dsoTable = Done (tt, st2) /\
    Symtab st1 = Symtab st2 /\ SymVector st1 = SymVector st2 /\
    SharedFiles st1 = SharedFiles st2 /\
    Symtab st1 !! "deflate" = Some Sy /\
    Body Sy = Some (SharedSymbol DSO "deflate" strong None) /\
    Binding Sy = STB_GLOBAL /\
    SharedFiles st1 !! fp_index DSO =
      Some (if STB_GLOBAL =? STB_WEAK then libz "libz.so"
            else set_IsUsed true (libz "libz.so")).
Proof.
  assert (H1 : Symtab dsoTable !! "deflate" = None) by reflexivity.
  assert (H2 : SharedFiles dsoTable !! fp_index DSO = Some (libz "libz.so"))
    by reflexivity.
  split; [exact H1|]. split; [exact H2|].
  exact (undefined_shared_order_independent env (addFile env 1) DSO "deflate"
           strong None STB_GLOBAL 0 2 false (Some F1) dsoTable
           (libz "libz.so") H1 H2).
Defined.

Lemma regular_common_order_independent_witness :
  Symtab emptyTable !! "c" = None /\
  (getBinding strong <> STB_WEAK \/ STB_GLOBAL <> STB_WEAK) /\
  exists stA stB,
    (addCommon env "c" 8 4 STB_GLOBAL 0 1 (Some F2) ;;
     addRegular env "c" strong (Some sec1)) emptyTable = Done ("c", stA) /\
    (addRegular env "c" strong (Some sec1) ;;
     addCommon env "c" 8 4 STB_GLOBAL 0 1 (Some F2)) emptyTable =
      Done ("c", stB) /\
    Body <$> Symtab stA !! "c" = Body <$> Symtab stB !! "c" /\
    Body <$> Symtab stA !! "c" =
      Some (Some (if getBinding strong =? STB_WEAK
                  then DefinedCommon "c" 8 4 0 1
                  else mkDefinedRegular "c" strong (Some sec1))) /\
    Visibility <$> Symtab stA !! "c" = Visibility <$> Symtab stB !! "c".
Proof.
  assert (H1 : Symtab emptyTable !! "c" = None) by reflexivity.
  assert (H2 : getBinding strong <> STB_WEAK \/ STB_GLOBAL <> STB_WEAK)
    by (right; discriminate).
  split; [exact H1|]. split; [exact H2|].
  exact (regular_common_order_independent env "c" strong (Some sec1) 8 4
           STB_GLOBAL 0 1 (Some F2) emptyTable H1 H2).
Defined.

Lemma duplicate_reported_without_section_witness :
  Symtab fooTable !! "foo" = Some fooSymbol /\
  Body fooSymbol = Some (mkDefinedRegular "foo" strong (Some sec1)) /\
  nonCommonVerdict fooSymbol (mkDefinedRegular "foo" strong (Some sec1))
    STB_GLOBAL = 0 /\
  duplicateOutcome env "foo" fooSymbol
    (mkDefinedRegular "foo" strong (Some sec1)) STT_NOTYPE None fooTable
    (addRegularAbsolute env "foo" STB_GLOBAL STV_HIDDEN fooTable) /\
  Diagnostics
    (after (addRegular env "foo" strong (Some sec1) ;;
            addRegularAbsolute env "foo" STB_GLOBAL STV_HIDDEN)) =
    [Error "duplicate symbol: foo in F1 and (internal)"].
Proof.
  assert (H1 : Symtab fooTable !! "foo" = Some fooSymbol)
    by (vm_compute; reflexivity).
  assert (H2 : Body fooSymbol = Some (mkDefinedRegular "foo" strong (Some sec1)))
    by reflexivity.
  assert (H3 : nonCommonVerdict fooSymbol
                 (mkDefinedRegular "foo" strong (Some sec1)) STB_GLOBAL = 0)
    by reflexivity.
  split; [exact H1|]. split; [exact H2|]. split; [exact H3|].
  split.
  - exact (proj1 (duplicate_reported_without_section env "foo" fooTable fooSymbol
                    _ H1 H2 H3) STV_HIDDEN).
  - vm_compute. reflexivity.
Defined.

Lemma scanVersionScript_globals_witness :
  Config.VersionScriptGlobals (Config env_globals) <> [] /\
  exists st',
    scanVersionScript env_globals fooTable = Done (tt, st') /\
    (forall N,
       Symtab st' !! N =
         if bool_decide (N ∈ Config.VersionScriptGlobals (Config env_globals))
         then set_VersionId (uint16 (VER_NDX_GLOBAL env_globals)) <$>
                Symtab fooTable !! N
         else Symtab fooTable !! N) /\
    SymVector st' = SymVector fooTable /\
    Diagnostics st' = Diagnostics fooTable /\
    sameFiles fooTable st'.
Proof.
  assert (H1 : Config.VersionScriptGlobals (Config env_globals) <> [])
    by discriminate.
  split; [exact H1|].
  exact (scanVersionScript_globals env_globals fooTable H1).
Defined.

Lemma scanShlibUndefined_exports_definitions_witness :
  (forall N Sy, Symtab neededTable !! N = Some Sy -> is_Some (Body Sy)) /\
  exists st',
    scanShlibUndefined neededTable = Done (tt, st') /\
    (ExportDynamic <$> Symtab neededTable !! "foo" = Some false /\
     ExportDynamic <$> Symtab st' !! "foo" = Some true) /\
    (ExportDynamic <$> Symtab st' !! "bar" = Some false).
Proof.
  assert (H1 : forall N Sy, Symtab neededTable !! N = Some Sy ->
                 is_Some (Body Sy)).
  { apply (bool_decide_unpack
             (map_Forall (fun _ Sy => is_Some (Body Sy)) (Symtab neededTable))).
    vm_compute. exact I. }
  split; [exact H1|].
  destruct (scanShlibUndefined_exports_definitions neededTable H1)
    as (st' & Hrun & Hsym & _).
  exists st'. split; [exact Hrun|].
  destruct (Hsym "foo" fooSymbol) as (B1 & HB1 & Hfoo); [by vm_compute|].
  destruct (Hsym "bar" (symbol STB_GLOBAL true false
                          (Undefined "bar" 0 0 (Some F1))))
    as (B2 & HB2 & Hbar); [by vm_compute|].
  injection HB1 as <-. injection HB2 as <-.
  rewrite Hfoo, Hbar. by vm_compute.
Defined.

Lemma addIgnored_only_if_needed_witness :
  Symtab emptyTable !! "end" = None /\
  addIgnored env "end" STV_DEFAULT emptyTable = Done (None, emptyTable) /\
  Symtab endTable !! "end" = Some endSymbol /\
  Body endSymbol = Some (Undefined "end" 0 0 (Some F1)) /\
  exists st' S',
    addIgnored env "end" STV_DEFAULT endTable = Done (Some "end", st') /\
    Symtab st' = <["end" := S']> (Symtab endTable) /\
    Body S' = Some (mkDefinedAbsolute "end" STV_DEFAULT) /\
    Binding S' = STB_GLOBAL /\
    Visibility S' =
      Z.land (getMinVisibility (Visibility endSymbol) (Z.land STV_DEFAULT 3)) 3 /\
    IsUsedInRegularObj S' = true /\
    SymVector st' = SymVector endTable /\ sameFiles endTable st'.
Proof.
  assert (H1 : Symtab emptyTable !! "end" = None) by reflexivity.
  assert (H2 : Symtab endTable !! "end" = Some endSymbol)
    by (vm_compute; reflexivity).
  assert (H3 : Body endSymbol = Some (Undefined "end" 0 0 (Some F1)))
    by reflexivity.
  split; [exact H1|].
  split; [exact (proj1 (addIgnored_only_if_needed env "end" STV_DEFAULT
                          emptyTable) H1)|].
  split; [exact H2|]. split; [exact H3|].
  exact (proj2 (addIgnored_only_if_needed env "end" STV_DEFAULT endTable)
           endSymbol _ H2 H3 eq_refl).
Defined.

Lemma undeclared_version_is_reported_witness :
  StringRef.find "@" "foo" = None /\
  StringRef.startswith "@" "V9" = false /\
  (forall V, V ∈ Config.SymbolVersions (Config env) -> VName V <> "V9") /\
  getVersionId env "foo@V9" emptyTable =
    Done (0, with_Diagnostics
               (fun d => d ++
                  [Error "symbol foo@V9 has undefined version V9"])
               emptyTable) /\
  getVersionId env "foo@@V9" emptyTable =
    Done (0, with_Diagnostics
               (fun d => d ++
                  [Error "symbol foo@@V9 has undefined version V9"])
               emptyTable).
Proof.
  assert (H1 : StringRef.find "@" "foo" = None) by reflexivity.
  assert (H2 : StringRef.startswith "@" "V9" = false) by reflexivity.
  assert (H3 : forall V, V ∈ Config.SymbolVersions (Config env) ->
                 VName V <> "V9").
  { intros V HV. apply list_elem_of_In in HV. simpl in HV.
    destruct HV as [<-|[<-|[]]]; discriminate. }
  split; [exact H1|]. split; [exact H2|]. split; [exact H3|].
  exact (undeclared_version_is_reported env "foo" "V9" emptyTable H1 H2 H3).
Defined.

Lemma incompatible_file_is_rejected_witness :
  elfHeader (ObjectF armObject) = Some ("arm.o", 40, 1) /\
  (40 <> Config.EKind (Config env_emulation) \/
   1 <> Config.EMachine (Config env_emulation)) /\
  Config.Emulation (Config env_emulation) <> "" /\
  addFile env_emulation 1 (ObjectF armObject) fooTable =
    Done (tt, with_Diagnostics
                (fun d => d ++
                   [Error "arm.o is incompatible with elf_x86_64"]) fooTable).
Proof.
  assert (H1 : elfHeader (ObjectF armObject) = Some ("arm.o", 40, 1))
    by reflexivity.
  assert (H2 : 40 <> Config.EKind (Config env_emulation) \/
               1 <> Config.EMachine (Config env_emulation))
    by (left; discriminate).
  assert (H3 : Config.Emulation (Config env_emulation) <> "") by discriminate.
  split; [exact H1|]. split; [exact H2|]. split; [exact H3|].
  exact (proj1 (incompatible_file_is_rejected env_emulation 0 (ObjectF armObject)
                  "arm.o" 40 1 fooTable H1 H2) H3).
Defined.

Lemma undefined_reference_keeps_definition_witness :
  Symtab fooTable !! "foo" = Some fooSymbol /\
  Body fooSymbol = Some (mkDefinedRegular "foo" strong (Some sec1)) /\
  plain (mkDefinedRegular "foo" strong (Some sec1)) = true /\
  exists st' S',
    addUndefined env (addFile env 1) "foo" STB_GLOBAL 0 0 false (Some F2)
      fooTable = Done ("foo", st') /\
    Symtab st' = <["foo" := S']> (Symtab fooTable) /\
    Body S' = Some (mkDefinedRegular "foo" strong (Some sec1)) /\
    Binding S' = Binding fooSymbol /\
    VersionId S' = VersionId fooSymbol /\
    SymVector st' = SymVector fooTable /\ sameFiles fooTable st'.
Proof.
  assert (H1 : Symtab fooTable !! "foo" = Some fooSymbol)
    by (vm_compute; reflexivity).
  assert (H2 : Body fooSymbol = Some (mkDefinedRegular "foo" strong (Some sec1)))
    by reflexivity.
  assert (H3 : plain (mkDefinedRegular "foo" strong (Some sec1)) = true)
    by reflexivity.
  split; [exact H1|]. split; [exact H2|]. split; [exact H3|].
  exact (undefined_reference_keeps_definition env (addFile env 1) "foo"
           STB_GLOBAL 0 0 false (Some F2) fooTable fooSymbol _ H1 H2 H3).
Defined.

Lemma scanUndefinedFlags_skips_other_symbols_witness :
  (forall Name Sy,
     Name ∈ Flags.Undefined flags -> Symtab fooTable !! Name = Some Sy ->
     exists B, Body Sy = Some B /\ Body.isLazy B = false) /\
  scanUndefinedFlags env flags 0 fooTable = Done (tt, fooTable).
Proof.
  assert (H1 : forall Name Sy,
            Name ∈ Flags.Undefined flags -> Symtab fooTable !! Name = Some Sy ->
            exists B, Body Sy = Some B /\ Body.isLazy B = false).
  { intros Name Sy HN. apply list_elem_of_In in HN. simpl in HN.
    destruct HN as [<-|[]]. vm_compute. discriminate. }
  split; [exact H1|].
  exact (scanUndefinedFlags_skips_other_symbols env flags 0 fooTable H1).
Defined.

Lemma traceDefined_reads_only_witness :
  (forall Name Sy,
     Name ∈ Flags.TraceSymbol flags -> Symtab fooTable !! Name = Some Sy ->
     is_Some (Body Sy)) /\
  traceDefined env flags fooTable =
    Done (tt, with_Diagnostics
                (fun d => d ++ [Output "F1: definition of foo
"]) fooTable).
Proof.
  assert (H1 : forall Name Sy,
            Name ∈ Flags.TraceSymbol flags ->
            Symtab fooTable !! Name = Some Sy -> is_Some (Body Sy)).
  { intros Name Sy _.
    apply (bool_decide_unpack
             (map_Forall (fun _ Sy => is_Some (Body Sy)) (Symtab fooTable))).
    vm_compute. exact I. }
  split; [exact H1|].
  exact (traceDefined_reads_only env flags fooTable H1).
Defined.

Lemma findAll_exact_witness :
  (forall N Sy, Symtab fooTable !! N = Some Sy -> is_Some (Body Sy)) /\
  exists Res,
    findAll env "fo?" fooTable = Done (Res, fooTable) /\
    NoDup Res /\
    forall N, N ∈ Res <-> matches env "fo?" fooTable N.
Proof.
  assert (H1 : forall N Sy, Symtab fooTable !! N = Some Sy -> is_Some (Body Sy)).
  { apply (bool_decide_unpack
             (map_Forall (fun _ Sy => is_Some (Body Sy)) (Symtab fooTable))).
    vm_compute. exact I. }
  split; [exact H1|].
  exact (findAll_exact env "fo?" fooTable H1).
Defined.

Lemma index_lists_every_symbol_once_witness :
  forEach (exec env flags 2) session emptyTable = Done (tt, sessionTable) /\
  SymVector sessionTable = ["baz"; "qux"; "foo"; "c"; "__real_foo"; "__wrap_foo"] /\
  NoDup (SymVector sessionTable) /\
  forall N, N ∈ SymVector sessionTable <-> is_Some (Symtab sessionTable !! N).
Proof.
  assert (H1 : forEach (exec env flags 2) session emptyTable =
               Done (tt, sessionTable)) by (vm_compute; reflexivity).
  split; [exact H1|]. split; [vm_compute; reflexivity|].
  exact (proj2 (index_lists_every_symbol_once env flags 2) session sessionTable
           H1).
Defined.

Lemma every_symbol_has_a_body_witness :
  forEach (exec env flags 2) session emptyTable = Done (tt, sessionTable) /\
  forall N Sy, Symtab sessionTable !! N = Some Sy -> is_Some (Body Sy).
Proof.
  assert (H1 : forEach (exec env flags 2) session emptyTable =
               Done (tt, sessionTable)) by (vm_compute; reflexivity).
  split; [exact H1|].
  intros N Sy.
  exact (proj2 (every_symbol_has_a_body env flags 2) session sessionTable N Sy
           H1).
Defined.

Lemma symbols_are_never_removed_witness :
  forEach (exec env flags 2) tightening hiddenTable =
    Done (tt, tightenedTable) /\
  SymVector hiddenTable `prefix_of` SymVector tightenedTable /\
  Diagnostics hiddenTable `prefix_of` Diagnostics tightenedTable /\
  forall N Sy,
    Symtab hiddenTable !! N = Some Sy ->
    exists Sy', Symtab tightenedTable !! N = Some Sy' /\
                VersionedName Sy' = VersionedName Sy.
Proof.
  assert (H1 : forEach (exec env flags 2) tightening hiddenTable =
               Done (tt, tightenedTable)) by (vm_compute; reflexivity).
  split; [exact H1|].
  exact (symbols_are_never_removed env flags 2 tightening hiddenTable
           tightenedTable H1).
Defined.

Lemma attributes_accumulate_witness :
  forEach (exec env flags 2) tightening hiddenTable =
    Done (tt, tightenedTable) /\
  Symtab hiddenTable !! "deflate" = Some hiddenSymbol /\
  Symtab tightenedTable !! "deflate" =
    Some (set_ExportDynamic true hiddenSymbol) /\
  0 <= Visibility hiddenSymbol < 4 /\
  Visibility hiddenSymbol <> STV_DEFAULT /\
  0 < Visibility (set_ExportDynamic true hiddenSymbol) <=
    Visibility hiddenSymbol.
Proof.
  assert (H1 : forEach (exec env flags 2) tightening hiddenTable =
               Done (tt, tightenedTable)) by (vm_compute; reflexivity).
  assert (H2 : Symtab hiddenTable !! "deflate" = Some hiddenSymbol)
    by (vm_compute; reflexivity).
  assert (H3 : Symtab tightenedTable !! "deflate" =
               Some (set_ExportDynamic true hiddenSymbol))
    by (vm_compute; reflexivity).
  assert (H4 : 0 <= Visibility hiddenSymbol < 4) by (simpl; unfold STV_HIDDEN; lia).
  assert (H5 : Visibility hiddenSymbol <> STV_DEFAULT) by discriminate.
  split; [exact H1|]. split; [exact H2|]. split; [exact H3|].
  split; [exact H4|]. split; [exact H5|].
  exact (proj2 (proj2 (proj2 (attributes_accumulate env flags 2 tightening
                                hiddenTable tightenedTable "deflate"
                                hiddenSymbol _ H1 H2 H3)) H4) H5).
Defined.

Lemma lazy_symbol_meets_reference_witness :
  Body weakRefSymbol = Some (Undefined "qux" 0 1 (Some F1)) /\
  Symtab weakRefTable !! "qux" = Some weakRefSymbol /\
  addLazyArchive env (addFile env 1) AR (mkArchiveSymbol "qux" 64 [])
    weakRefTable =
    Done (tt, with_Symtab
                (fun m => <["qux" :=
                              replaceBody
                                (LazyArchive AR (mkArchiveSymbol "qux" 64 []) 1)
                                weakRefSymbol]> m) weakRefTable).
Proof.
  assert (H1 : Body weakRefSymbol = Some (Undefined "qux" 0 1 (Some F1)))
    by reflexivity.
  assert (H2 : Symtab weakRefTable !! "qux" = Some weakRefSymbol)
    by (vm_compute; reflexivity).
  split; [exact H1|]. split; [exact H2|].
  exact (proj1 (lazy_symbol_meets_reference env (addFile env 1) weakRefTable
                  weakRefSymbol _ H1) AR (mkArchiveSymbol "qux" 64 []) H2).
Defined.

Lemma getMinVisibility_order_independent_witness :
  [STV_PROTECTED; STV_DEFAULT; STV_HIDDEN] ≡ₚ
    [STV_HIDDEN; STV_PROTECTED; STV_DEFAULT] /\
  foldl getMinVisibility STV_DEFAULT [STV_PROTECTED; STV_DEFAULT; STV_HIDDEN] =
  foldl getMinVisibility STV_DEFAULT [STV_HIDDEN; STV_PROTECTED; STV_DEFAULT].
Proof.
  assert (H1 : [STV_PROTECTED; STV_DEFAULT; STV_HIDDEN] ≡ₚ
                 [STV_HIDDEN; STV_PROTECTED; STV_DEFAULT]).
  { etrans; [apply Permutation_skip, Permutation_swap|].
    etrans; [apply Permutation_swap|]. done. }
  split; [exact H1|].
  exact (proj2 (proj2 (proj2 (proj2 getMinVisibility_order_independent)))
           STV_DEFAULT _ _ H1).
Defined.

Lemma tls_mismatch_reported_in_either_order_witness :
  Symtab emptyTable !! "v" = None /\
  (getType tlsVariable =? STT_TLS) <> (getType strong =? STT_TLS) /\
  exists st12 st21 ds12 ds21,
    (addRegular env "v" tlsVariable (Some sec1) ;;
     addRegular env "v" strong (Some sec2)) emptyTable = Done ("v", st12) /\
    (addRegular env "v" strong (Some sec2) ;;
     addRegular env "v" tlsVariable (Some sec1)) emptyTable = Done ("v", st21) /\
    Diagnostics st12 =
      Diagnostics emptyTable ++ (versionOf env "v").2 ++
      Error ("TLS attribute mismatch for symbol: " +:+ demangle env "v" +:+
             " in " +:+ getFilename env (Some (sec_file sec1)) +:+ " and " +:+
             getFilename env (Some (sec_file sec2))) :: ds12 /\
    Diagnostics st21 =
      Diagnostics emptyTable ++ (versionOf env "v").2 ++
      Error ("TLS attribute mismatch for symbol: " +:+ demangle env "v" +:+
             " in " +:+ getFilename env (Some (sec_file sec2)) +:+ " and " +:+
             getFilename env (Some (sec_file sec1))) :: ds21.
Proof.
  assert (H1 : Symtab emptyTable !! "v" = None) by reflexivity.
  assert (H2 : (getType tlsVariable =? STT_TLS) <> (getType strong =? STT_TLS))
    by discriminate.
  split; [exact H1|]. split; [exact H2|].
  exact (tls_mismatch_reported_in_either_order env "v" tlsVariable sec1 strong
           sec2 emptyTable H1 H2).
Defined.

(** ** The layout on concrete chunks *)

Section WriterWitnesses.
Import Writer WriterExamples.

Lemma started_packed :
  packed (Heap started) (mkOutputSection ".text" 0 0 10 [0%nat]).
Proof.
  split.
  - simpl. eexists. split; [reflexivity|]. simpl. lia.
  - intros C c HC. apply list_elem_of_singleton in HC as ->.
    intros [= <-]. simpl. split; [done|by exists 0].
Defined.

Lemma chunks_valid C :
  C ∈ [0; 1; 2; 3]%nat ->
  exists c, chunks !! C = Some c /\ 0 < Align c /\ 0 <= Size c.
Proof.
  intros HC. repeat (apply elem_of_cons in HC as [->|HC]);
    [eexists; (split; [reflexivity|simpl; lia])..|by apply elem_of_nil in HC].
Defined.

Lemma chunks_sorted :
  sortChunks chunks [0; 1; 2; 3]%nat ≡ₚ [0; 1; 2; 3]%nat.
Proof.
  change (sortChunks chunks [0; 1; 2; 3]%nat) with [1; 3; 0; 2]%nat.
  etrans; [apply Permutation_skip, Permutation_swap|].
  etrans; [apply Permutation_swap|].
  do 2 apply Permutation_skip. apply Permutation_swap.
Defined.

Lemma chunks_ordered : ordered chunks (sortChunks chunks [0; 1; 2; 3]%nat).
Proof.
  change (sortChunks chunks [0; 1; 2; 3]%nat) with [1; 3; 0; 2]%nat.
  intros i j A B a b Hij Hi Hj Ha Hb.
  destruct i as [|[|[|[|i]]]], j as [|[|[|[|j]]]]; cbn in Hi, Hj;
    try lia; try done;
    injection Hi as <-; injection Hj as <-;
    injection Ha as <-; injection Hb as <-; reflexivity.
Defined.


Lemma addChunk_keeps_section_packed_witness :
  OutputSections started !! 0%nat =
    Some (mkOutputSection ".text" 0 0 10 [0%nat]) /\
  Heap started !! 2%nat = Some (mkChunk 0 0 5 4 ".text" None) /\
  packed (Heap started) (mkOutputSection ".text" 0 0 10 [0%nat]) /\
  (2%nat ∉ [0%nat]) /\
  exists s' Sec' c',
    addChunk RoundUpToAlignment 0 2 started = Some s' /\
    OutputSections s' = <[0%nat := Sec']> (OutputSections started) /\
    Name Sec' = ".text" /\ Chunks Sec' = [0; 2]%nat /\
    packed (Heap s') Sec' /\
    Heap s' = <[2%nat := c']> (Heap started) /\
    shape c' = (5, 4, ".text") /\ Out c' = Some 0%nat /\
    FileOff c' = VA c' /\ (4 | VA c') /\
    10 <= VA c' < 10 + 4 /\
    sh_size Sec' = VA c' + 5.
Proof.
  assert (H1 : OutputSections started !! 0%nat =
                 Some (mkOutputSection ".text" 0 0 10 [0%nat])) by reflexivity.
  assert (H2 : Heap started !! 2%nat = Some (mkChunk 0 0 5 4 ".text" None))
    by reflexivity.
  assert (H3 : 2%nat ∉ [0%nat]).
  { intros H. apply list_elem_of_singleton in H. discriminate H. }
  split; [exact H1|]. split; [exact H2|]. split; [exact started_packed|].
  split; [exact H3|].
  apply (addChunk_keeps_section_packed RoundUpToAlignment
           RoundUpToAlignment_roundsUp 0 2 started _ _ H1 H2 started_packed H3);
    simpl; lia.
Defined.

Lemma createSections_groups_by_name_witness :
  OutputSections fresh = [] /\ NoDup [0; 1; 2; 3]%nat /\
  sortChunks (Heap fresh) [0; 1; 2; 3]%nat ≡ₚ [0; 1; 2; 3]%nat /\
  ordered (Heap fresh) (sortChunks (Heap fresh) [0; 1; 2; 3]%nat) /\
  demand (Heap fresh) [0; 1; 2; 3]%nat <= 2 ^ 64 /\
  exists s',
    createSections RoundUpToAlignment sortChunks [0; 1; 2; 3]%nat fresh =
      Some s' /\
    allChunks (OutputSections s') = sortChunks (Heap fresh) [0; 1; 2; 3]%nat /\
    (forall k Sec, OutputSections s' !! k = Some Sec ->
       Chunks Sec <> [] /\ owned (Heap s') k Sec) /\
    (forall i j A B, (i < j)%nat ->
       OutputSections s' !! i = Some A -> OutputSections s' !! j = Some B ->
       String.ltb (Name A) (Name B) = true) /\
    (forall C D c d, C ∈ [0; 1; 2; 3]%nat -> D ∈ [0; 1; 2; 3]%nat ->
       Heap s' !! C = Some c -> Heap s' !! D = Some d ->
       Out c = Out d <-> SectionName c = SectionName d) /\
    (forall C, shape <$> Heap s' !! C = shape <$> Heap fresh !! C) /\
    (forall C, C ∉ [0; 1; 2; 3]%nat -> Heap s' !! C = Heap fresh !! C).
Proof.
  assert (H1 : OutputSections fresh = []) by reflexivity.
  assert (H2 : NoDup [0; 1; 2; 3]%nat)
    by (apply (bool_decide_unpack (NoDup [0; 1; 2; 3]%nat)); by vm_compute).
  assert (H3 : demand (Heap fresh) [0; 1; 2; 3]%nat <= 2 ^ 64)
    by (by vm_compute).
  split; [exact H1|]. split; [exact H2|]. split; [exact chunks_sorted|].
  split; [exact chunks_ordered|]. split; [exact H3|].
  exact (createSections_groups_by_name RoundUpToAlignment sortChunks
           RoundUpToAlignment_roundsUp [0; 1; 2; 3]%nat fresh H1 H2 chunks_valid
           chunks_sorted chunks_ordered H3).
Defined.



Lemma layout_chunks_do_not_overlap_witness :
  OutputSections fresh = [] /\ NoDup [0; 1; 2; 3]%nat /\
  sortChunks (Heap fresh) [0; 1; 2; 3]%nat ≡ₚ [0; 1; 2; 3]%nat /\
  ordered (Heap fresh) (sortChunks (Heap fresh) [0; 1; 2; 3]%nat) /\
  EhdrSize + ShdrSize * Z.of_nat (length [0; 1; 2; 3]%nat) + 2 * PageSize +
    demand (Heap fresh) [0; 1; 2; 3]%nat <= 2 ^ 64 /\
  exists s',
    layout RoundUpToAlignment EhdrSize ShdrSize sortChunks [0; 1; 2; 3]%nat
      fresh = Some s' /\
    (forall C, C ∉ [0; 1; 2; 3]%nat -> Heap s' !! C = Heap fresh !! C) /\
    (forall C, C ∈ [0; 1; 2; 3]%nat ->
       exists c0 c, Heap fresh !! C = Some c0 /\ Heap s' !! C = Some c /\
         shape c = shape c0 /\
         0x1000 <= VA c /\ ((Align c | PageSize) -> (Align c | VA c)) /\
         (0 < Size c ->
            SizeOfHeaders s' <= FileOff c /\ FileOff c + Size c <= FileSize s')) /\
    (forall A B a b, A ∈ [0; 1; 2; 3]%nat -> B ∈ [0; 1; 2; 3]%nat -> A <> B ->
       Heap s' !! A = Some a -> Heap s' !! B = Some b ->
       apart VA a b /\ apart FileOff a b).
Proof.
  assert (H1 : OutputSections fresh = []) by reflexivity.
  assert (H2 : NoDup [0; 1; 2; 3]%nat)
    by (apply (bool_decide_unpack (NoDup [0; 1; 2; 3]%nat)); by vm_compute).
  assert (H3 : EhdrSize + ShdrSize * Z.of_nat (length [0; 1; 2; 3]%nat) +
                 2 * PageSize + demand (Heap fresh) [0; 1; 2; 3]%nat <= 2 ^ 64)
    by (by vm_compute).
  split; [exact H1|]. split; [exact H2|]. split; [exact chunks_sorted|].
  split; [exact chunks_ordered|]. split; [exact H3|].
  apply (layout_chunks_do_not_overlap RoundUpToAlignment EhdrSize ShdrSize
           sortChunks RoundUpToAlignment_roundsUp [0; 1; 2; 3]%nat fresh H1 H2
           chunks_valid chunks_sorted chunks_ordered);
    [by vm_compute|by vm_compute|exact H3].
Defined.

End WriterWitnesses.
